(** * Hydro contest model: aggregation, ranking, scoreboard and status protocol

    A shallow embedding of the contest model of Hydro: the three contest
    rules ([acm], [oi], [homework]) with their [stat], [rank] and
    [scoreboard] members, and the status operations [updateStatus] and
    [attend] over the document store.

    Conventions of the embedding.
    - A JavaScript number that the code only ever computes from integers
      (instants in seconds or milliseconds, counters, scores) is a [Z] with
      the extra value [NaN]. A number that need not be whole (a threshold
      or a multiplier of the penalty table, a penalty-adjusted score) is an
      IEEE 754 double, as the Standard Library specifies them ([spec_float]
      with 53 bits of precision).
    - A JavaScript object used as a dictionary is a [gmap]; a missing key
      reads as [None], which is the code's [undefined].
    - Reading a property of [undefined] throws: fallible code returns in
      [result], whose [Throw] carries the error kind.
    - Problem ids and user ids are document ids, natural numbers.
    - Strings are sequences of ASCII characters. *)

From Stdlib Require Import ZArith Ascii String Floats.SpecFloat.
From stdpp Require Import base option list gmap strings sorting numbers pretty.

Open Scope Z_scope.

(** ** JavaScript values *)

(** Numbers computed from integers, with the not-a-number value. *)
Inductive num := Num (z : Z) | NaN.

Global Instance num_eq_dec : EqDecision num.
Proof. solve_decision. Defined.

Definition num_add (a b : num) : num :=
  match a, b with
  | Num x, Num y => Num (x + y)
  | _, _ => NaN
  end.

Definition num_mul (a b : num) : num :=
  match a, b with
  | Num x, Num y => Num (x * y)
  | _, _ => NaN
  end.

(** [ToNumber] of a counter read from a dictionary: [undefined] is [NaN]. *)
Definition to_number (o : option N) : num :=
  match o with
  | Some n => Num (Z.of_N n)
  | None => NaN
  end.

(** An instant of the [Date] class, in milliseconds since the epoch. *)
Definition Date := Z.
Definition getTime (d : Date) : Z := d.

(** The submission handle; only its creation instant (seconds) is read. *)
Record ObjectID := { generationTime : Z; oid_tail : N }.

Global Instance ObjectID_eq_dec : EqDecision ObjectID.
Proof. solve_decision. Defined.

(** *** Numbers that need not be whole

    The doubles, with their infinities, signed zeros and not-a-number. *)
Definition float := spec_float.

Global Instance float_eq_dec : EqDecision float.
Proof. solve_decision. Defined.

(** [a * b], [a - b], [a <= b], [a > 0] and the number of an integer. *)
Definition f_mul : float → float → float := SFmul 53 1024.
Definition f_sub : float → float → float := SFsub 53 1024.
Definition f_leb : float → float → bool := SFleb.
Definition f_positive (a : float) : bool := SFltb (S754_zero false) a.
Definition f_nan : float := S754_nan.
Definition f_of_Z (z : Z) : float := binary_normalize 53 1024 z 0 false.

(** The number nearest to [m * 10 ^ e], ties to even: what a decimal
    numeral denotes. *)
Definition f_of_decimal (neg : bool) (m : N) (e : Z) : float :=
  match m with
  | N0 => S754_zero neg
  | Npos p =>
      if 0 <=? e
      then binary_round 53 1024 neg (p * Z.to_pos (10 ^ e)) 0
      else
        let '(q, e', l) :=
          SFdiv_core_binary 53 1024 (Zpos p) 0 (10 ^ (- e)) 0 in
        binary_round_aux 53 1024 neg q e' l
  end.

(** [parseFloat(s)]: white space is skipped, then the longest prefix that
    is a decimal numeral is read (a sign, [Infinity] or digits with an
    optional point and an optional exponent); without one the result is
    not-a-number. *)
Definition is_space (c : ascii) : bool :=
  let n := nat_of_ascii c in
  bool_decide (n = 32 ∨ 9 ≤ n ≤ 13)%nat.

Definition digit_value (c : ascii) : option N :=
  let n := N_of_ascii c in
  if bool_decide (48 ≤ n ≤ 57)%N then Some (n - 48)%N else None.

Fixpoint trim_start (s : string) : string :=
  match s with
  | String c s' => if is_space c then trim_start s' else s
  | EmptyString => s
  end.

(** The digits that open [s]: their value continuing [acc], how many they
    are, and the rest of the string. *)
Fixpoint leading_digits (s : string) (acc : N) (count : nat)
    : N * nat * string :=
  match s with
  | String c s' =>
      match digit_value c with
      | Some d => leading_digits s' (10 * acc + d)%N (S count)
      | None => (acc, count, s)
      end
  | EmptyString => (acc, count, s)
  end.

(** The exponent part that opens [s], when there is one: [e] or [E], a
    sign or none, and at least one digit. *)
Definition exponent_part (s : string) : Z :=
  match s with
  | String c s' =>
      if bool_decide (c = "e"%char ∨ c = "E"%char) then
        let '(neg, s'') :=
          match s' with
          | String "-" t => (true, t)
          | String "+" t => (false, t)
          | _ => (false, s')
          end in
        let '(v, n, _) := leading_digits s'' 0 0 in
        match n with
        | O => 0
        | _ => if neg then - Z.of_N v else Z.of_N v
        end
      else 0
  | EmptyString => 0
  end.

Definition parseFloat (s : string) : float :=
  let s := trim_start s in
  let '(neg, s) :=
    match s with
    | String "-" t => (true, t)
    | String "+" t => (false, t)
    | _ => (false, s)
    end in
  if String.prefix "Infinity" s then S754_infinity neg
  else
    let '(int, ni, s) := leading_digits s 0 0 in
    let '(m, nf, s) :=
      match s with
      | String "." t => leading_digits t int 0
      | _ => (int, O, s)
      end in
    match ni, nf with
    | O, O => f_nan
    | _, _ => f_of_decimal neg m (exponent_part s - Z.of_nat nf)
    end.

(** [Number::toString(x)], the name under which a number is looked up as
    a property: the shortest decimal that is read back as [x]. *)

(** A positive finite number as a fraction. *)
Definition fraction_of (m : positive) (e : Z) : Z * Z :=
  if 0 <=? e then (Zpos m * 2 ^ e, 1) else (Zpos m, 2 ^ (- e)).

(** The [n] with [10 ^ (n - 1) ≤ num / den < 10 ^ n]. *)
Fixpoint magnitude_up (fuel : nat) (num den : Z) (n : Z) : Z :=
  match fuel with
  | O => n
  | S fuel' =>
      if num <? den * 10 ^ n then n else magnitude_up fuel' num den (n + 1)
  end.

Fixpoint magnitude_down (fuel : nat) (num den : Z) (n : Z) : Z :=
  match fuel with
  | O => n
  | S fuel' =>
      if den <=? num * 10 ^ (1 - n) then n
      else magnitude_down fuel' num den (n - 1)
  end.

(** A double lies between [10 ^ -324] and [10 ^ 309]. *)
Definition magnitude (num den : Z) : Z :=
  if den <=? num then magnitude_up 400 num den 1
  else magnitude_down 400 num den 0.

(** [num / den * 10 ^ p] as a fraction. *)
Definition scaled (num den p : Z) : Z * Z :=
  if 0 <=? p then (num * 10 ^ p, den) else (num, den * 10 ^ (- p)).

Definition reads_back (x : float) (s n k : Z) : bool :=
  bool_decide (f_of_decimal false (Z.to_N s) (n - k) = x).

(** The decimal of [k] digits nearest to [x = num / den] that is read back
    as [x], when there is one: its digits [s] and the position [n] of its
    point, so that it is [s * 10 ^ (n - k)]. Of the decimal below [x] and
    the one above, the nearer is taken, and the even one when they are as
    near. *)
Definition nearest_decimal (x : float) (num den n k : Z) : option (Z * Z) :=
  let '(a, b) := scaled num den (k - n) in
  let lo := a / b in
  let hi := lo + 1 in
  let below := reads_back x lo n k in
  let above := negb (a mod b =? 0) && reads_back x hi n k in
  let s :=
    match below, above with
    | true, true =>
        match 2 * a ?= (2 * lo + 1) * b with
        | Lt => Some lo
        | Gt => Some hi
        | Eq => Some (if Z.even lo then lo else hi)
        end
    | true, false => Some lo
    | false, true => Some hi
    | false, false => None
    end in
  (λ s, if s =? 10 ^ k then (10 ^ (k - 1), n + 1) else (s, n)) <$> s.

(** The shortest such decimal: the least number of digits first; 17 digits
    tell any two doubles apart. *)
Fixpoint shortest_decimal (fuel : nat) (x : float) (num den n k : Z)
    : Z * Z * Z :=
  match fuel with
  | O => (0, n, k)
  | S fuel' =>
      match nearest_decimal x num den n k with
      | Some (s, n') => (s, n', k)
      | None => shortest_decimal fuel' x num den n (k + 1)
      end
  end.

Fixpoint zeros (n : nat) : string :=
  match n with
  | O => ""
  | S n' => String "0" (zeros n')
  end.

Definition decimal_text (z : Z) : string := pretty (Z.to_N z).

(** The text of a positive finite number from its digits. *)
Definition number_text (s n k : Z) : string :=
  let d := decimal_text s in
  if (k <=? n) && (n <=? 21) then d +:+ zeros (Z.to_nat (n - k))
  else if (0 <? n) && (n <=? 21) then
    String.substring 0 (Z.to_nat n) d +:+ "." +:+
    String.substring (Z.to_nat n) (Z.to_nat (k - n)) d
  else if (-6 <? n) && (n <=? 0) then
    "0." +:+ zeros (Z.to_nat (- n)) +:+ d
  else
    let e := n - 1 in
    let mantissa :=
      if k =? 1 then d
      else String.substring 0 1 d +:+ "." +:+
           String.substring 1 (Z.to_nat (k - 1)) d in
    mantissa +:+ "e" +:+ (if 0 <=? e then "+" else "-")
    +:+ decimal_text (Z.abs e).

Definition Number_toString (x : float) : string :=
  match x with
  | S754_nan => "NaN"
  | S754_zero _ => "0"
  | S754_infinity neg => if neg then "-Infinity" else "Infinity"
  | S754_finite neg m e =>
      let '(num, den) := fraction_of m e in
      let n := magnitude num den in
      let '(s, n, k) :=
        shortest_decimal 17 (S754_finite false m e) num den n 1 in
      (if neg then "-" else "") +:+ number_text s n k
  end.

(** [keys.sort((a, b) => a - b)]: [a] goes after [b] when [a - b > 0], and
    the sort is stable. Where a key is not a number the comparator is not
    consistent and the order is left to the implementation; an insertion
    from the right is the order given here. *)
Fixpoint insert_number (x : float) (l : list float) : list float :=
  match l with
  | [] => [x]
  | y :: l' =>
      if f_positive (f_sub x y) then y :: insert_number x l'
      else x :: y :: l'
  end.

Fixpoint sort_numbers (l : list float) : list float :=
  match l with
  | [] => []
  | x :: l' => insert_number x (sort_numbers l')
  end.

(** The values that reach a scoreboard cell. *)
Inductive jsval :=
  | Undefined
  | Null
  | Bool (b : bool)
  | Number (n : num)
  | Str (s : string)
  | Oid (o : ObjectID).

Global Instance jsval_eq_dec : EqDecision jsval.
Proof. solve_decision. Defined.

(** Truthiness, as [||] and [?:] test it. *)
Definition truthy (v : jsval) : bool :=
  match v with
  | Undefined | Null => false
  | Bool b => b
  | Number (Num z) => negb (z =? 0)
  | Number NaN => false
  | Str s => negb (bool_decide (s = ""%string))
  | Oid _ => true
  end.

(** [a || b] *)
Definition js_or (a b : jsval) : jsval := if truthy a then a else b.

Definition of_num (o : option num) : jsval :=
  match o with
  | Some n => Number n
  | None => Undefined
  end.

Definition of_N (n : N) : jsval := Number (Num (Z.of_N n)).
Definition of_nat (n : nat) : jsval := Number (Num (Z.of_nat n)).
Definition zero : jsval := Number (Num 0).

(** [a === b] on an optional numeric field. *)
Definition strict_eq (a b : option num) : bool :=
  match a, b with
  | None, None => true
  | Some (Num x), Some (Num y) => x =? y
  | _, _ => false
  end.

(** ** Errors and fallible code *)

Inductive error :=
  | TypeError
  | ValidationError
  | ContestNotFoundError
  | ContestAlreadyAttendedError
  | ContestNotAttendedError
  | ContestScoreboardHiddenError
  | StoreError.

Global Instance error_eq_dec : EqDecision error.
Proof. solve_decision. Defined.

Inductive result (A : Type) :=
  | Ok (a : A)
  | Throw (e : error).
Arguments Ok {A} a.
Arguments Throw {A} e.

Global Instance result_ret : MRet result := λ A a, Ok a.
Global Instance result_bind : MBind result := λ A B f m,
  match m with
  | Ok a => f a
  | Throw e => Throw e
  end.
Global Instance result_fmap : FMap result := λ A B f m,
  match m with
  | Ok a => Ok (f a)
  | Throw e => Throw e
  end.

(** A [for] loop over a list whose body may throw. *)
Fixpoint for_of {A S : Type} (body : S → A → result S) (l : list A) (s : S)
  : result S :=
  match l with
  | [] => Ok s
  | x :: l' => s' ← body s x; for_of body l' s'
  end.

(** ** Data model *)

Inductive rule_id := rule_acm | rule_oi | rule_homework.

Global Instance rule_id_eq_dec : EqDecision rule_id.
Proof. solve_decision. Defined.

(** A journal entry, as [updateStatus] pushes it. *)
Record jdoc := {
  rid : ObjectID;
  pid : N;
  accept : bool;
  score : Z;
}.

Global Instance jdoc_eq_dec : EqDecision jdoc.
Proof. solve_decision. Defined.

(** The names of the three rules in the registry. *)
Definition rule_name (r : rule_id) : string :=
  match r with
  | rule_acm => "acm"
  | rule_oi => "oi"
  | rule_homework => "homework"
  end.

Coercion rule_name : rule_id >-> string.

(** The penalty table of a contest record, an object: its properties in
    the order [Object.keys] lists them, each a name and a multiplier. An
    object has one property per name. *)
Definition PenaltyRules := list (string * float).

(** [table[name]] *)
Fixpoint property (table : PenaltyRules) (name : string) : option float :=
  match table with
  | [] => None
  | (k, v) :: t => if bool_decide (k = name) then Some v else property t name
  end.

(** The contest record; the fields the model reads. [rule] is a name;
    [penaltySince] and [penaltyRules] are optional. *)
Record Tdoc := {
  rule : string;
  beginAt : Date;
  endAt : Date;
  pids : list N;
  tdoc_attend : N;
  penaltySince : option Date;
  penaltyRules : option PenaltyRules;
}.

(** [tdoc.pids.includes(p)] *)
Definition includes (l : list N) (p : N) : bool := bool_decide (p ∈ l).

(** The pairs of a dictionary with natural-number keys in the order
    [for ... in] visits them: integer keys ascending. *)
Definition key_le {V} (a b : N * V) : Prop := (a.1 ≤ b.1)%N.

Global Instance key_le_dec {V} (a b : N * V) : Decision (key_le a b).
Proof. unfold key_le. apply _. Defined.

Definition for_in {V} (m : gmap N V) : list (N * V) :=
  merge_sort key_le (map_to_list m).


(** An element of a [detail] array: the journal entry spread, plus what the
    rule adds to it. *)
Record detail_item := {
  item : jdoc;
  d_naccept : option N;
  d_time : option num;
  d_penaltyScore : option float;
}.

(** [d.penaltySince]: no rule gives an element of [detail] that property. *)
Definition d_penaltySince (d : detail_item) : option num := None.

(** The [detail] of a status record: an array under [acm] and [homework],
    a dictionary under [oi]. *)
Inductive detail_t :=
  | DetailArray (l : list detail_item)
  | DetailObject (m : gmap N jdoc).

(** The status record of one participant in one contest. A field the
    record does not have reads as [None]. *)
Record Tsdoc := {
  uid : N;
  ts_attend : option N;
  ts_rev : N;
  ts_journal : option (list jdoc);
  ts_accept : option num;
  ts_time : option num;
  ts_score : option num;
  ts_penaltyScore : option num;
  ts_detail : option detail_t;
}.

Record Udoc := { uname : string }.
Record Pdoc := { title : string }.

Record ScoreboardNode := {
  type : string;
  value : jsval;
  raw : option jsval;
}.

(** What the renderers take from outside this file: the translation
    function [_] they are passed, [misc.formatSeconds] and the [format]
    method of strings. *)
Record Lib := {
  translate : string → string;
  formatSeconds : jsval → string;
  format : string → list jsval → string;
}.

(** [o?.name] on a journal entry. *)
Definition jdoc_get (o : option jdoc) (name : string) : jsval :=
  match o with
  | None => Undefined
  | Some j =>
      if bool_decide (name = "rid"%string) then Oid (rid j)
      else if bool_decide (name = "pid"%string) then of_N (pid j)
      else if bool_decide (name = "accept"%string) then Bool (accept j)
      else if bool_decide (name = "score"%string) then Number (Num (score j))
      else Undefined
  end.

(** The pairs [(i, pids[i - 1])] for [i] from 1 to [pids.length]. *)
Definition numbered (pids : list N) : list (nat * N) :=
  zip (seq 1 (length pids)) pids.

(** Modelled from the spec: the source of [Math.sum] is not available.
    The totals are "the sums" of the mapped values: the elements added up
    with [+] from 0, so that a missing value makes the sum not-a-number. *)
Definition Math_sum (l : list (option num)) : num :=
  foldl (λ s x, num_add s (default NaN x)) (Num 0) l.

(** Modelled from the spec: the source of [ranked] (lib/rank) is not
    available. "Given a sorted sequence and an adjacent-pair equality
    predicate, yields (rank, item) pairs": walking the sequence, an item
    that the predicate ties with the one before it takes that one's rank,
    and every other item takes its own 1-based position. *)
Fixpoint ranked_from {A} (equ : A → A → bool) (count : nat)
    (last : option (nat * A)) (l : list A) : list (nat * A) :=
  match l with
  | [] => []
  | doc :: l' =>
      let r := match last with
               | Some (r0, last_doc) => if equ last_doc doc then r0 else count
               | None => count
               end in
      (r, doc) :: ranked_from equ (S count) (Some (r, doc)) l'
  end.

Definition ranked {A} (l : list A) (equ : A → A → bool) : list (nat * A) :=
  ranked_from equ 1 None l.

(** The cell that opens every participant row. *)
Definition rank_cell (rank : nat) : ScoreboardNode :=
  {| type := "string"; value := of_nat rank; raw := None |}.

Definition cell (ty : string) (v : jsval) : ScoreboardNode :=
  {| type := ty; value := v; raw := None |}.

Definition cell_raw (ty : string) (v r : jsval) : ScoreboardNode :=
  {| type := ty; value := v; raw := Some r |}.

(** ** The ACM/ICPC rule *)

Module acm.

Definition statusSort : list (string * Z) :=
  [("accept"%string, -1); ("time"%string, 1)].

Definition showScoreboard (tdoc : Tdoc) (now : Date) : bool := true.
Definition showRecord (tdoc : Tdoc) (now : Date) : bool :=
  bool_decide (endAt tdoc < now).

Record stats := {
  s_accept : Z;
  s_time : num;
  s_detail : list detail_item;
}.

(** The state of the first loop: [effective] and [naccept]. *)
Definition sel : Type := gmap N jdoc * gmap N N.

Definition is_accepted (o : option jdoc) : bool :=
  match o with
  | Some e => accept e
  | None => false
  end.

Definition select_step (tdoc : Tdoc) (s : sel) (j : jdoc) : sel :=
  if includes (pids tdoc) (pid j) && negb (is_accepted (s.1 !! pid j))
  then (<[pid j := j]> s.1,
        if accept j then s.2
        else <[pid j := (default 0 (s.2 !! pid j) + 1)%N]> s.2)
  else s.

Definition select (tdoc : Tdoc) (journal : list jdoc) : sel :=
  foldl (select_step tdoc) (∅, ∅) journal.

Definition _time (tdoc : Tdoc) (naccept : gmap N N) (j : jdoc) : num :=
  let real := Num (generationTime (rid j) - getTime (beginAt tdoc) / 1000) in
  let penalty := num_mul (Num (20 * 60)) (to_number (naccept !! pid j)) in
  num_add real penalty.

Definition mk_detail (tdoc : Tdoc) (naccept : gmap N N) (j : jdoc)
  : detail_item :=
  {| item := j;
     d_naccept := naccept !! pid j;
     d_time := Some (_time tdoc naccept j);
     d_penaltyScore := None |}.

(** The last loop: [accept += d.accept; if (d.accept) time += d.time]. *)
Definition total_step (acc : Z * num) (d : detail_item) : Z * num :=
  (acc.1 + (if accept (item d) then 1 else 0),
   if accept (item d) then num_add acc.2 (default NaN (d_time d)) else acc.2).

Definition stat (tdoc : Tdoc) (journal : list jdoc) : stats :=
  let effective := (select tdoc journal).1 in
  let naccept := (select tdoc journal).2 in
  let detail := map (λ kv, mk_detail tdoc naccept kv.2) (for_in effective) in
  let totals := foldl total_step (0, Num 0) detail in
  {| s_accept := totals.1; s_time := totals.2; s_detail := detail |}.

(** [tsddict[item.pid] = item] over [tsdoc.detail], when there is one. *)
Definition tsddict (tsdoc : Tsdoc) : result (gmap N detail_item) :=
  match ts_detail tsdoc with
  | None => Ok ∅
  | Some (DetailArray l) => Ok (foldl (λ m d, <[pid (item d) := d]> m) ∅ l)
  | Some (DetailObject _) => Throw TypeError
  end.

Definition columns (lib : Lib) (isExport : bool) (tdoc : Tdoc)
    (pdict : gmap N Pdoc) : result (list ScoreboardNode) :=
  let _' := translate lib in
  let head :=
    [cell "rank" (Str (_' "Rank")); cell "user" (Str (_' "User"));
     cell "solved_problems" (Str (_' "Solved Problems"))]
    ++ (if isExport
        then [cell "total_time" (Str (_' "Total Time (Seconds)"));
              cell "total_time_str" (Str (_' "Total Time"))]
        else []) in
  for_of (λ cols '(i, p),
    let n := of_nat i in
    if isExport then
      match pdict !! p with
      | None => Throw TypeError
      | Some pdoc =>
          Ok (cols ++
            [cell "problem_flag" (Str (format lib "#{0} {1}" [n; Str (title pdoc)]));
             cell "problem_time"
               (Str (format lib "#{0} {1}" [n; Str (_' "Time (Seconds)")]));
             cell "problem_time_str"
               (Str (format lib "#{0} {1}" [n; Str (_' "Time")]))])
      end
    else
      Ok (cols ++ [cell_raw "problem_detail" (Str (format lib "#{0}" [n]))
                     (of_N p)]))
    (numbered (pids tdoc)) head.

Definition problem_cells (lib : Lib) (isExport : bool)
    (dict : gmap N detail_item) (p : N) : list ScoreboardNode :=
  let '(rid, colAccepted, colTime, colTimeStr) :=
    match dict !! p with
    | Some d =>
        if accept (item d)
        then (Oid (rid (item d)), Str (translate lib "Accepted"),
              of_num (d_time d), Str (formatSeconds lib (of_num (d_time d))))
        else (Null, Str "-", Str "-", Str "-")
    | None => (Null, Str "-", Str "-", Str "-")
    end in
  if isExport
  then [cell "string" colAccepted; cell "string" colTime;
        cell "string" colTimeStr]
  else [cell_raw "record"
          (Str (format lib "{0}
{1}" [colAccepted; colTimeStr])) rid].

Definition row (lib : Lib) (isExport : bool) (tdoc : Tdoc)
    (udict : gmap N Udoc) (rank : nat) (tsdoc : Tsdoc)
    : result (list ScoreboardNode) :=
  dict ← tsddict tsdoc;
  match udict !! uid tsdoc with
  | None => Throw TypeError
  | Some udoc =>
      Ok ([rank_cell rank;
           cell_raw "user" (Str (uname udoc)) (of_N (uid tsdoc));
           cell "string" (js_or (of_num (ts_accept tsdoc)) zero)]
          ++ (if isExport
              then [cell "string" (js_or (of_num (ts_time tsdoc)) zero);
                    cell "string" (js_or (of_num (ts_time tsdoc)) zero)]
              else [])
          ++ concat (map (problem_cells lib isExport dict) (pids tdoc)))
  end.

Definition scoreboard (lib : Lib) (isExport : bool) (tdoc : Tdoc)
    (rankedTsdocs : list (nat * Tsdoc)) (udict : gmap N Udoc)
    (pdict : gmap N Pdoc) : result (list (list ScoreboardNode)) :=
  cols ← columns lib isExport tdoc pdict;
  for_of (λ rows '(rank, tsdoc),
    r ← row lib isExport tdoc udict rank tsdoc; Ok (rows ++ [r]))
    rankedTsdocs [cols].

Definition rank (tsdocs : list Tsdoc) : list (nat * Tsdoc) :=
  ranked tsdocs (λ a b, strict_eq (ts_score a) (ts_score b)).

End acm.

(** ** The OI rule *)

Module oi.

Definition statusSort : list (string * Z) := [("score"%string, -1)].

Definition showScoreboard (tdoc : Tdoc) (now : Date) : bool :=
  bool_decide (endAt tdoc < now).
Definition showRecord (tdoc : Tdoc) (now : Date) : bool :=
  bool_decide (endAt tdoc < now).

Record stats := {
  s_score : Z;
  s_detail : gmap N jdoc;
}.

Definition stat_step (tdoc : Tdoc) (s : stats) (j : jdoc) : stats :=
  if includes (pids tdoc) (pid j)
  then {| s_score := s_score s + score j;
          s_detail := <[pid j := j]> (s_detail s) |}
  else s.

Definition stat (tdoc : Tdoc) (journal : list jdoc) : stats :=
  foldl (stat_step tdoc) {| s_score := 0; s_detail := ∅ |} journal.

(** [tsddict[item.pid] = item] over [tsdoc.journal], when there is one. *)
Definition tsddict (tsdoc : Tsdoc) : gmap N jdoc :=
  match ts_journal tsdoc with
  | None => ∅
  | Some l => foldl (λ m j, <[pid j := j]> m) ∅ l
  end.

Definition columns (lib : Lib) (isExport : bool) (tdoc : Tdoc)
    (pdict : gmap N Pdoc) : result (list ScoreboardNode) :=
  let _' := translate lib in
  let head :=
    [cell "rank" (Str (_' "Rank")); cell "user" (Str (_' "User"));
     cell "total_score" (Str (_' "Total Score"))] in
  for_of (λ cols '(i, p),
    let n := of_nat i in
    if isExport then
      match pdict !! p with
      | None => Throw TypeError
      | Some pdoc =>
          Ok (cols ++
            [cell "problem_score"
               (Str (format lib "#{0} {1}" [n; Str (title pdoc)]))])
      end
    else
      Ok (cols ++ [cell_raw "problem_detail" (Str (format lib "#{0}" [n]))
                     (of_N p)]))
    (numbered (pids tdoc)) head.

Definition problem_cell (dict : gmap N jdoc) (p : N) : ScoreboardNode :=
  cell_raw "record"
    (js_or (jdoc_get (dict !! p) "score") (Str "-"))
    (js_or (jdoc_get (dict !! p) "rid") Null).

Definition row (tdoc : Tdoc) (udict : gmap N Udoc) (rank : nat)
    (tsdoc : Tsdoc) : result (list ScoreboardNode) :=
  let dict := tsddict tsdoc in
  match udict !! uid tsdoc with
  | None => Throw TypeError
  | Some udoc =>
      Ok ([rank_cell rank;
           cell_raw "user" (Str (uname udoc)) (of_N (uid tsdoc));
           cell "string" (js_or (of_num (ts_score tsdoc)) zero)]
          ++ map (problem_cell dict) (pids tdoc))
  end.

Definition scoreboard (lib : Lib) (isExport : bool) (tdoc : Tdoc)
    (rankedTsdocs : list (nat * Tsdoc)) (udict : gmap N Udoc)
    (pdict : gmap N Pdoc) : result (list (list ScoreboardNode)) :=
  cols ← columns lib isExport tdoc pdict;
  for_of (λ rows '(rank, tsdoc),
    r ← row tdoc udict rank tsdoc; Ok (rows ++ [r]))
    rankedTsdocs [cols].

Definition rank (tsdocs : list Tsdoc) : list (nat * Tsdoc) :=
  ranked tsdocs (λ a b, strict_eq (ts_score a) (ts_score b)).

End oi.

(** ** The Assignment rule *)

Module homework.

Definition statusSort : list (string * Z) :=
  [("penaltyScore"%string, -1); ("time"%string, 1)].

Definition showScoreboard (tdoc : Tdoc) (now : Date) : bool := true.
Definition showRecord (tdoc : Tdoc) (now : Date) : bool := true.

Record stats := {
  s_score : num;
  s_penaltyScore : num;
  s_time : num;
  s_detail : list detail_item;
}.

(** The body of the first loop. [journal[j.pid]] indexes the journal array
    by the problem id; past its end it is [undefined], whose [accept]
    cannot be read. *)
Definition select_step (tdoc : Tdoc) (journal : list jdoc)
    (effective : gmap N jdoc) (j : jdoc) : result (gmap N jdoc) :=
  if includes (pids tdoc) (pid j) && bool_decide (effective !! pid j = None)
  then match journal !! N.to_nat (pid j) with
       | None => Throw TypeError
       | Some e => Ok (if accept e then <[pid j := j]> effective else effective)
       end
  else Ok effective.

Definition select (tdoc : Tdoc) (journal : list jdoc)
    : result (gmap N jdoc) :=
  for_of (select_step tdoc journal) journal ∅.

(** What [time] and [penaltyScore] can be applied to: a journal entry, or
    the property name that [for (const j in effective)] binds. *)
Inductive operand :=
  | OfDoc (j : jdoc)
  | OfKey (k : N).

(** [x.rid]: a string has no such property. *)
Definition operand_rid (x : operand) : option ObjectID :=
  match x with
  | OfDoc j => Some (rid j)
  | OfKey _ => None
  end.

(** [Math.floor(jdoc.rid.generationTime - tdoc.beginAt.getTime() / 1000)];
    the instant is a whole number of seconds, so the floor is that of
    the difference in milliseconds over 1000. *)
Definition time (tdoc : Tdoc) (jdoc : operand) : result Z :=
  match operand_rid jdoc with
  | None => Throw TypeError
  | Some r => Ok ((1000 * generationTime r - getTime (beginAt tdoc)) / 1000)
  end.

(** [Math.floor(jdoc.rid.generationTime - tdoc.penaltySince.getTime() /
    1000)]; a record without [penaltySince] has no [getTime] to call. *)
Definition exceedSeconds (tdoc : Tdoc) (jdoc : jdoc) : result Z :=
  match penaltySince tdoc with
  | None => Throw TypeError
  | Some since => Ok ((1000 * generationTime (rid jdoc) - getTime since) / 1000)
  end.

(** [Object.keys(tdoc.penaltyRules).map((k) => parseFloat(k))
    .sort((a, b) => a - b)] *)
Definition penalty_keys (table : PenaltyRules) : list float :=
  sort_numbers (map (λ kv, parseFloat kv.1) table).

(** The loop over the keys, with its [break]: the state is the coefficient
    ([None] is [undefined]) and whether the loop is still running. The
    multiplier is looked up under the name of the number [i]. *)
Definition coefficient_step (table : PenaltyRules) (exceed : Z)
    (s : option float * bool) (i : float) : option float * bool :=
  if s.2 then
    if f_leb (f_mul i (f_of_Z 3600)) (f_of_Z exceed)
    then (property table (Number_toString i), true)
    else (s.1, false)
  else s.

Definition coefficient (table : PenaltyRules) (exceed : Z) : option float :=
  (foldl (coefficient_step table exceed) (Some (f_of_Z 1), true)
     (penalty_keys table)).1.

(** [score * coefficient]; [undefined] is not a number. *)
Definition scale (score : Z) (c : option float) : float :=
  f_mul (f_of_Z score) (default f_nan c).

(** [penaltyScore(jdoc)]; [Object.keys] throws on a record without
    [penaltyRules], once the entry is not before [penaltySince]. *)
Definition penaltyScore (tdoc : Tdoc) (jdoc : jdoc) : result float :=
  exceed ← exceedSeconds tdoc jdoc;
  if exceed <? 0 then Ok (f_of_Z (score jdoc))
  else
    match penaltyRules tdoc with
    | None => Throw TypeError
    | Some table => Ok (scale (score jdoc) (coefficient table exceed))
    end.

(** One turn of [for (const j in effective)]: [penaltyScore(effective[j])]
    is evaluated before [time(j)]. *)
Definition mk_detail (tdoc : Tdoc) (kv : N * jdoc) : result detail_item :=
  p ← penaltyScore tdoc kv.2;
  t ← time tdoc (OfKey kv.1);
  Ok {| item := kv.2;
        d_naccept := None;
        d_time := Some (Num t);
        d_penaltyScore := Some p |}.

Definition stat (tdoc : Tdoc) (journal : list jdoc) : result stats :=
  effective ← select tdoc journal;
  detail ← mapM (mk_detail tdoc) (for_in effective);
  Ok {| s_score := Math_sum (map (λ d, Some (Num (score (item d)))) detail);
        s_penaltyScore := Math_sum (map d_penaltySince detail);
        s_time := Math_sum (map d_time detail);
        s_detail := detail |}.

Definition tsddict (tsdoc : Tsdoc) : gmap N jdoc :=
  foldl (λ m j, <[pid j := j]> m) ∅ (default [] (ts_journal tsdoc)).

Definition columns (lib : Lib) (isExport : bool) (tdoc : Tdoc)
    (pdict : gmap N Pdoc) : result (list ScoreboardNode) :=
  let _' := translate lib in
  let head :=
    [cell "rank" (Str (_' "Rank")); cell "user" (Str (_' "User"));
     cell "total_score" (Str (_' "Score"))]
    ++ (if isExport
        then [cell "total_original_score" (Str (_' "Original Score"));
              cell "total_time" (Str (_' "Total Time (Seconds)"))]
        else [])
    ++ [cell "total_time_str" (Str (_' "Total Time"))] in
  for_of (λ cols '(i, p),
    let n := of_nat i in
    if isExport then
      match pdict !! p with
      | None => Throw TypeError
      | Some pdoc =>
          Ok (cols ++
            [cell "problem_score"
               (Str (format lib "#{0} {1}" [n; Str (title pdoc)]));
             cell "problem_original_score"
               (Str (format lib "#{0} {1}" [n; Str (_' "Original Score")]));
             cell "problem_time"
               (Str (format lib "#{0} {1}" [n; Str (_' "Time (Seconds)")]));
             cell "problem_time_str"
               (Str (format lib "#{0} {1}" [n; Str (_' "Time")]))])
      end
    else
      Ok (cols ++ [cell_raw "problem_detail" (Str (format lib "#{0}" [n]))
                     (of_N p)]))
    (numbered (pids tdoc)) head.

Definition problem_cells (lib : Lib) (isExport : bool)
    (dict : gmap N jdoc) (p : N) : list ScoreboardNode :=
  let rid := jdoc_get (dict !! p) "rid" in
  let colScore := js_or (jdoc_get (dict !! p) "penaltyScore") (Str "-") in
  let colOriginalScore := js_or (jdoc_get (dict !! p) "score") (Str "-") in
  let colTime := js_or (jdoc_get (dict !! p) "time") (Str "-") in
  let colTimeStr :=
    if bool_decide (colTime = Str "-") then Str "-"
    else Str (formatSeconds lib (js_or colTime zero)) in
  if isExport
  then [cell "string" colScore; cell "string" colOriginalScore;
        cell "string" colTime; cell "string" colTimeStr]
  else [cell_raw "record"
          (Str (format lib "{0} / {1}
{2}" [colScore; colOriginalScore; colTimeStr])) rid].

Definition row (lib : Lib) (isExport : bool) (tdoc : Tdoc)
    (udict : gmap N Udoc) (rank : nat) (tsdoc : Tsdoc)
    : result (list ScoreboardNode) :=
  let dict := tsddict tsdoc in
  match udict !! uid tsdoc with
  | None => Throw TypeError
  | Some udoc =>
      Ok ([rank_cell rank;
           cell_raw "user" (Str (uname udoc)) (of_N (uid tsdoc));
           cell "string" (js_or (of_num (ts_penaltyScore tsdoc)) zero)]
          ++ (if isExport
              then [cell "string" (js_or (of_num (ts_score tsdoc)) zero);
                    cell "string" (js_or (of_num (ts_time tsdoc)) zero)]
              else [])
          ++ [cell "string"
                (Str (formatSeconds lib
                        (js_or (of_num (ts_time tsdoc)) zero)))]
          ++ concat (map (problem_cells lib isExport dict) (pids tdoc)))
  end.

Definition scoreboard (lib : Lib) (isExport : bool) (tdoc : Tdoc)
    (rankedTsdocs : list (nat * Tsdoc)) (udict : gmap N Udoc)
    (pdict : gmap N Pdoc) : result (list (list ScoreboardNode)) :=
  cols ← columns lib isExport tdoc pdict;
  for_of (λ rows '(rank, tsdoc),
    r ← row lib isExport tdoc udict rank tsdoc; Ok (rows ++ [r]))
    rankedTsdocs [cols].

Definition rank (tsdocs : list Tsdoc) : list (nat * Tsdoc) :=
  ranked tsdocs (λ a b, strict_eq (ts_score a) (ts_score b)).

End homework.

(** ** The rule registry *)

Inductive stats_t :=
  | AcmStats (s : acm.stats)
  | OiStats (s : oi.stats)
  | HomeworkStats (s : homework.stats).

(** The names every object inherits from [Object.prototype]. *)
Definition Object_prototype : list string :=
  ["constructor"; "__defineGetter__"; "__defineSetter__"; "hasOwnProperty";
   "__lookupGetter__"; "__lookupSetter__"; "isPrototypeOf";
   "propertyIsEnumerable"; "toString"; "valueOf"; "__proto__";
   "toLocaleString"]%string.

(** What [RULES[name]] reads: a rule under one of the three names, a
    member of [Object.prototype] under an inherited name (truthy, and
    without [check], [stat] or any other member of a rule), [undefined]
    otherwise. *)
Inductive member :=
  | Rule (r : rule_id)
  | Inherited
  | Absent.

Definition RULES (name : string) : member :=
  if bool_decide (name = "acm"%string) then Rule rule_acm
  else if bool_decide (name = "oi"%string) then Rule rule_oi
  else if bool_decide (name = "homework"%string) then Rule rule_homework
  else if bool_decide (name ∈ Object_prototype) then Inherited
  else Absent.

(** [RULES[name]] where a member of the rule is called next: an inherited
    value has no such member and [undefined] has none to read. *)
Definition RULES_called (name : string) : result rule_id :=
  match RULES name with
  | Rule r => Ok r
  | Inherited | Absent => Throw TypeError
  end.

(** [RULES[rule].stat(tdoc, journal)] *)
Definition RULES_stat (name : string) (tdoc : Tdoc) (journal : list jdoc)
    : result stats_t :=
  r ← RULES_called name;
  match r with
  | rule_acm => Ok (AcmStats (acm.stat tdoc journal))
  | rule_oi => Ok (OiStats (oi.stat tdoc journal))
  | rule_homework => HomeworkStats <$> homework.stat tdoc journal
  end.

(** [RULES[rule].rank(tsdocs)] *)
Definition RULES_rank (name : string) (tsdocs : list Tsdoc)
    : result (list (nat * Tsdoc)) :=
  r ← RULES_called name;
  Ok match r with
     | rule_acm => acm.rank tsdocs
     | rule_oi => oi.rank tsdocs
     | rule_homework => homework.rank tsdocs
     end.

(** [RULES[rule].scoreboard(isExport, _, tdoc, rankedTsdocs, udict, pdict)] *)
Definition RULES_scoreboard (name : string) (lib : Lib) (isExport : bool)
    (tdoc : Tdoc) (rankedTsdocs : list (nat * Tsdoc)) (udict : gmap N Udoc)
    (pdict : gmap N Pdoc) : result (list (list ScoreboardNode)) :=
  r ← RULES_called name;
  match r with
  | rule_acm => acm.scoreboard lib isExport tdoc rankedTsdocs udict pdict
  | rule_oi => oi.scoreboard lib isExport tdoc rankedTsdocs udict pdict
  | rule_homework =>
      homework.scoreboard lib isExport tdoc rankedTsdocs udict pdict
  end.

(** The update [{ journal, ...stats }] applied to a status record: the
    fields it names are set, the others are left as they were. *)
Definition set_stats (journal : list jdoc) (s : stats_t) (ts : Tsdoc)
    : Tsdoc :=
  match s with
  | AcmStats a =>
      {| uid := uid ts; ts_attend := ts_attend ts; ts_rev := ts_rev ts;
         ts_journal := Some journal;
         ts_accept := Some (Num (acm.s_accept a));
         ts_time := Some (acm.s_time a);
         ts_score := ts_score ts;
         ts_penaltyScore := ts_penaltyScore ts;
         ts_detail := Some (DetailArray (acm.s_detail a)) |}
  | OiStats o =>
      {| uid := uid ts; ts_attend := ts_attend ts; ts_rev := ts_rev ts;
         ts_journal := Some journal;
         ts_accept := ts_accept ts;
         ts_time := ts_time ts;
         ts_score := Some (Num (oi.s_score o));
         ts_penaltyScore := ts_penaltyScore ts;
         ts_detail := Some (DetailObject (oi.s_detail o)) |}
  | HomeworkStats h =>
      {| uid := uid ts; ts_attend := ts_attend ts; ts_rev := ts_rev ts;
         ts_journal := Some journal;
         ts_accept := ts_accept ts;
         ts_time := Some (homework.s_time h);
         ts_score := Some (homework.s_score h);
         ts_penaltyScore := Some (homework.s_penaltyScore h);
         ts_detail := Some (DetailArray (homework.s_detail h)) |}
  end.

(** ** The document store *)

(** The contest records by contest id and the status records by contest
    and participant, of one domain and document type. *)
Record Store := {
  contests : gmap N Tdoc;
  statuses : gmap (N * N) Tsdoc;
}.

(** The status record an upsert creates. *)
Definition new_status (uid : N) : Tsdoc :=
  {| uid := uid; ts_attend := None; ts_rev := 0%N; ts_journal := None;
     ts_accept := None; ts_time := None; ts_score := None;
     ts_penaltyScore := None; ts_detail := None |}.

Definition status_of (st : Store) (tid uid : N) : Tsdoc :=
  default (new_status uid) (statuses st !! (tid, uid)).

Definition put_status (st : Store) (tid uid : N) (ts : Tsdoc) : Store :=
  {| contests := contests st;
     statuses := <[(tid, uid) := ts]> (statuses st) |}.

(** Modelled from the spec: the source of [document.revPushStatus] is not
    available. "Atomically append a journal entry and return the updated
    record together with its new revision token (append + revision bump as
    one unit)." The record is created when it does not exist. *)
Definition revPushStatus (st : Store) (tid uid : N) (entry : jdoc)
    : Store * Tsdoc :=
  let old := status_of st tid uid in
  let new :=
    {| uid := uid; ts_attend := ts_attend old;
       ts_rev := (ts_rev old + 1)%N;
       ts_journal := Some (default [] (ts_journal old) ++ [entry]);
       ts_accept := ts_accept old; ts_time := ts_time old;
       ts_score := ts_score old; ts_penaltyScore := ts_penaltyScore old;
       ts_detail := ts_detail old |} in
  (put_status st tid uid new, new).

Definition bump_rev (ts : Tsdoc) : Tsdoc :=
  {| uid := uid ts; ts_attend := ts_attend ts; ts_rev := (ts_rev ts + 1)%N;
     ts_journal := ts_journal ts; ts_accept := ts_accept ts;
     ts_time := ts_time ts; ts_score := ts_score ts;
     ts_penaltyScore := ts_penaltyScore ts; ts_detail := ts_detail ts |}.

(** Modelled from the spec: the source of [document.revSetStatus] is not
    available. "Given the record's current revision token, write a newly
    computed stats snapshot conditioned on that revision still being
    current; if the revision has advanced, the write must be rejected." A
    rejected write returns no record; a write bumps the revision. *)
Definition revSetStatus (st : Store) (tid uid : N) (rev : N)
    (set : Tsdoc → Tsdoc) : Store * option Tsdoc :=
  match statuses st !! (tid, uid) with
  | Some ts =>
      if bool_decide (ts_rev ts = rev)
      then let new := bump_rev (set ts) in
           (put_status st tid uid new, Some new)
      else (st, None)
  | None => (st, None)
  end.

(** Modelled from the spec: the source of [document.cappedIncStatus] is
    not available. "A bounded increment on the status record's attendance
    field from 0 to 1 that fails if already at 1 (capped increment)"; the
    record is "created on first attendance". The field is [attend]; an
    increment by [value] is refused when the field has reached
    [maxValue]. *)
Definition cappedIncStatus (st : Store) (tid uid : N)
    (value minValue maxValue : N) : result (Store * Tsdoc) :=
  let old := status_of st tid uid in
  let cur := default 0%N (ts_attend old) in
  if bool_decide (maxValue ≤ cur)%N then Throw StoreError
  else
    let new :=
      {| uid := uid; ts_attend := Some (cur + value)%N; ts_rev := ts_rev old;
         ts_journal := ts_journal old; ts_accept := ts_accept old;
         ts_time := ts_time old; ts_score := ts_score old;
         ts_penaltyScore := ts_penaltyScore old;
         ts_detail := ts_detail old |} in
    Ok (put_status st tid uid new, new).

(** Modelled from the spec: the source of [document.inc] is not available.
    "A separate, unconditioned increment bumps the contest's global
    attendance counter." *)
Definition inc (st : Store) (tid : N) (value : N) : Store :=
  {| contests :=
       alter (λ t, {| rule := rule t; beginAt := beginAt t; endAt := endAt t;
                      pids := pids t;
                      tdoc_attend := (tdoc_attend t + value)%N;
                      penaltySince := penaltySince t;
                      penaltyRules := penaltyRules t |}) tid (contests st);
     statuses := statuses st |}.

(** ** Status operations *)

(** [Array.prototype.sort] is stable: of two entries created in the same
    second the one that was first stays first. *)
Fixpoint insert_by_time (j : jdoc) (l : list jdoc) : list jdoc :=
  match l with
  | [] => [j]
  | x :: l' =>
      if generationTime (rid j) <=? generationTime (rid x)
      then j :: l
      else x :: insert_by_time j l'
  end.

Fixpoint sort_by_time (l : list jdoc) : list jdoc :=
  match l with
  | [] => []
  | j :: l' => insert_by_time j (sort_by_time l')
  end.

Definition _getStatusJournal (tsdoc : Tsdoc) : result (list jdoc) :=
  match ts_journal tsdoc with
  | None => Throw TypeError
  | Some journal => Ok (sort_by_time journal)
  end.

Definition get (st : Store) (tid : N) : result Tdoc :=
  match contests st !! tid with
  | Some tdoc => Ok tdoc
  | None => Throw ContestNotFoundError
  end.

(** [!tsdoc.attend] *)
Definition not_attended (tsdoc : Tsdoc) : bool :=
  negb (truthy (of_num (Num ∘ Z.of_N <$> ts_attend tsdoc))).

(** The conditional write that ends [updateStatus]: the revision it is
    conditioned on and the update. Between the [await] of the push and the
    [await] of this write other calls may reach the store. *)
Record write := {
  w_rev : N;
  w_set : Tsdoc → Tsdoc;
}.

(** [updateStatus] up to its last [await]. *)
Definition updateStatus_stats (st : Store) (tid uid : N) (rid : ObjectID)
    (pid : N) (accept : bool) (score : Z) : Store * result write :=
  match get st tid with
  | Throw e => (st, Throw e)
  | Ok tdoc =>
      let '(st1, tsdoc) :=
        revPushStatus st tid uid
          {| rid := rid; pid := pid; accept := accept; score := score |} in
      if not_attended tsdoc then (st1, Throw ContestNotAttendedError)
      else
        (st1,
         journal ← _getStatusJournal tsdoc;
         stats ← RULES_stat (rule tdoc) tdoc journal;
         Ok {| w_rev := ts_rev tsdoc; w_set := set_stats journal stats |})
  end.

(** [return await document.revSetStatus(..., tsdoc.rev, { journal, ...stats })] *)
Definition updateStatus_write (st : Store) (tid uid : N) (w : write)
    : Store * option Tsdoc :=
  revSetStatus st tid uid (w_rev w) (w_set w).

Definition updateStatus (st : Store) (tid uid : N) (rid : ObjectID)
    (pid : N) (accept : bool) (score : Z)
    : Store * result (option Tsdoc) :=
  match updateStatus_stats st tid uid rid pid accept score with
  | (st1, Throw e) => (st1, Throw e)
  | (st1, Ok w) =>
      let '(st2, r) := updateStatus_write st1 tid uid w in (st2, Ok r)
  end.

Definition attend (st : Store) (tid uid : N) : Store * result unit :=
  match cappedIncStatus st tid uid 1 0 1 with
  | Throw _ => (st, Throw ContestAlreadyAttendedError)
  | Ok (st1, _) => (inc st1 tid 1, Ok ())
  end.

(** *** Concurrent calls of [attend]

    A call of [attend] meets the store twice, at its two [await]s; each
    store operation is atomic, and calls in flight interleave between
    them. *)
Inductive attend_pc :=
  | AtCappedInc
  | AtInc
  | Returned (r : result unit).

Global Instance result_unit_eq_dec : EqDecision (result unit).
Proof. solve_decision. Defined.

Global Instance attend_pc_eq_dec : EqDecision attend_pc.
Proof. solve_decision. Defined.

(** A call in flight: the contest and participant it was made for, and
    where it stands. *)
Record call := {
  c_tid : N;
  c_uid : N;
  c_pc : attend_pc;
}.

Definition call_step (st : Store) (c : call) : Store * call :=
  let at_pc pc := {| c_tid := c_tid c; c_uid := c_uid c; c_pc := pc |} in
  match c_pc c with
  | AtCappedInc =>
      match cappedIncStatus st (c_tid c) (c_uid c) 1 0 1 with
      | Throw _ => (st, at_pc (Returned (Throw ContestAlreadyAttendedError)))
      | Ok (st1, _) => (st1, at_pc AtInc)
      end
  | AtInc => (inc st (c_tid c) 1, at_pc (Returned (Ok ())))
  | Returned _ => (st, c)
  end.

(** The scheduler lets call number [i] take its next step. *)
Definition sched_step (s : Store * list call) (i : nat) : Store * list call :=
  match s.2 !! i with
  | Some c => let '(st', c') := call_step s.1 c in (st', <[i := c']> s.2)
  | None => s
  end.

Definition run (schedule : list nat) (s : Store * list call)
    : Store * list call :=
  foldl sched_step s schedule.

Definition start (tid uid : N) : call :=
  {| c_tid := tid; c_uid := uid; c_pc := AtCappedInc |}.

Definition returned (c : call) : bool :=
  match c_pc c with
  | Returned _ => true
  | _ => false
  end.

Definition is_for (tid uid : N) (c : call) : bool :=
  bool_decide (c_tid c = tid) && bool_decide (c_uid c = uid).

Definition succeeded (tid uid : N) (c : call) : bool :=
  is_for tid uid c && bool_decide (c_pc c = Returned (Ok ())).

Definition refused (tid uid : N) (c : call) : bool :=
  is_for tid uid c
  && bool_decide (c_pc c = Returned (Throw ContestAlreadyAttendedError)).

(** The attendance field of a participant's status record; 0 when the
    record or the field is not there. *)
Definition attendance (st : Store) (tid uid : N) : N :=
  default 0%N (ts_attend (status_of st tid uid)).


(** ** Contest records: creation, edit, lifecycle *)

Definition RULES_TEXT (r : rule_id) : string :=
  match r with
  | rule_acm => "ACM/ICPC"
  | rule_oi => "OI"
  | rule_homework => "Assignment"
  end.

(** [RULES[rule].check(data)]: [() => { }] in the three rules. *)
Definition RULES_check (name : string) (data : Tdoc) : result unit :=
  r ← RULES_called name; Ok ().

(** [RULES[rule].showScoreboard(tdoc, now)] and [showRecord]. *)
Definition RULES_showScoreboard (name : string) (tdoc : Tdoc) (now : Date)
    : result bool :=
  r ← RULES_called name;
  Ok match r with
     | rule_acm => acm.showScoreboard tdoc now
     | rule_oi => oi.showScoreboard tdoc now
     | rule_homework => homework.showScoreboard tdoc now
     end.

Definition RULES_showRecord (name : string) (tdoc : Tdoc) (now : Date)
    : result bool :=
  r ← RULES_called name;
  Ok match r with
     | rule_acm => acm.showRecord tdoc now
     | rule_oi => oi.showRecord tdoc now
     | rule_homework => homework.showRecord tdoc now
     end.

(** Modelled from the spec: the source of [document.add] is not available.
    The record gets an identity of its own ("unique id"): an id that no
    contest of the store has. *)
Definition document_add (st : Store) (tdoc : Tdoc) : Store * N :=
  let tid := fresh (dom (contests st)) in
  ({| contests := <[tid := tdoc]> (contests st); statuses := statuses st |},
   tid).

(** [add]. The validators of lib/validator are arguments; [data] brings
    the fields of the record that [add] does not name, here the penalty
    start and table, when it has them ([{}] has not); the fields [add]
    names replace those of [data]. Of the record it builds, the fields of
    [Tdoc] are kept. *)
Definition add (checkTitle checkContent : string → result unit)
    (st : Store) (title content : string) (owner : N) (rule : string)
    (beginAt endAt : Date) (pids : list N) (rated : bool) (data : Tdoc)
    : Store * result N :=
  match
    (_ ← checkTitle title;
     _ ← checkContent content;
     _ ← (match RULES rule with
          | Absent => Throw ValidationError
          | Rule _ | Inherited => Ok ()
          end);
     _ ← (if bool_decide (endAt ≤ beginAt) then Throw ValidationError
          else Ok ());
     let tdoc :=
       {| rule := rule; beginAt := beginAt; endAt := endAt; pids := pids;
          tdoc_attend := 0; penaltySince := penaltySince data;
          penaltyRules := penaltyRules data |} in
     _ ← RULES_check rule tdoc;
     Ok tdoc)
  with
  | Throw e => (st, Throw e)
  | Ok tdoc => let '(st', tid) := document_add st tdoc in (st', Ok tid)
  end.

(** The [$set] of [edit]: the fields to replace, of those the model
    reads. *)
Record update := {
  set_rule : option string;
  set_beginAt : option Date;
  set_endAt : option Date;
  set_pids : option (list N);
  set_attend : option N;
  set_penaltySince : option Date;
  set_penaltyRules : option PenaltyRules;
}.

(** [$set.rule], when it is truthy: a name that is not empty. *)
Definition named (u : update) : option string :=
  match set_rule u with
  | Some name => if bool_decide (name = ""%string) then None else Some name
  | None => None
  end.

(** [Object.assign(tdoc, $set)] *)
Definition assign (tdoc : Tdoc) (u : update) : Tdoc :=
  {| rule := default (rule tdoc) (set_rule u);
     beginAt := default (beginAt tdoc) (set_beginAt u);
     endAt := default (endAt tdoc) (set_endAt u);
     pids := default (pids tdoc) (set_pids u);
     tdoc_attend := default (tdoc_attend tdoc) (set_attend u);
     penaltySince :=
       match set_penaltySince u with
       | Some since => Some since
       | None => penaltySince tdoc
       end;
     penaltyRules :=
       match set_penaltyRules u with
       | Some table => Some table
       | None => penaltyRules tdoc
       end |}.

(** Modelled from the spec: the source of [document.set] is not available.
    The record is "mutated only through the edit operation": the fields of
    the update replace those of the stored record. *)
Definition document_set (st : Store) (tid : N) (tdoc : Tdoc) : Store :=
  {| contests := <[tid := tdoc]> (contests st); statuses := statuses st |}.

(** [edit]. The rule whose [check] is called is read under
    [$set.rule || tdoc.rule], before [Object.assign] runs. *)
Definition edit (st : Store) (tid : N) (u : update) : Store * result Tdoc :=
  match
    (_ ← (match named u with
          | None => Ok ()
          | Some name =>
              match RULES name with
              | Absent => Throw ValidationError
              | Rule _ | Inherited => Ok ()
              end
          end);
     tdoc ← get st tid;
     let tdoc' := assign tdoc u in
     _ ← RULES_check (default (rule tdoc) (named u)) tdoc';
     Ok tdoc')
  with
  | Throw e => (st, Throw e)
  | Ok tdoc' => (document_set st tid tdoc', Ok tdoc')
  end.

(** The lifecycle tests read the clock themselves; the instant they read
    is their argument [now]. [days] defaults to 1. *)
Definition isNew (tdoc : Tdoc) (days : Z) (now : Date) : bool :=
  bool_decide (now < getTime (beginAt tdoc) - days * 24 * 3600 * 1000).

Definition isUpcoming (tdoc : Tdoc) (days : Z) (now : Date) : bool :=
  bool_decide (getTime (beginAt tdoc) - days * 24 * 3600 * 1000 < now)
  && bool_decide (now < getTime (beginAt tdoc)).

Definition isNotStarted (tdoc : Tdoc) (now : Date) : bool :=
  bool_decide (now < beginAt tdoc).

Definition isOngoing (tdoc : Tdoc) (now : Date) : bool :=
  bool_decide (beginAt tdoc ≤ now) && bool_decide (now < endAt tdoc).

Definition isDone (tdoc : Tdoc) (now : Date) : bool :=
  bool_decide (endAt tdoc ≤ now).

(** A record without [penaltySince] has no [getTime] to call. *)
Definition isExtended (tdoc : Tdoc) (now : Date) : result bool :=
  match penaltySince tdoc with
  | None => Throw TypeError
  | Some since =>
      Ok (bool_decide (getTime since ≤ now)
          && bool_decide (now < getTime (endAt tdoc)))
  end.

(** [statusText] and [getStatusText] chain the tests; each test that runs
    reads the clock anew: [t1], then [t2], then [t3]. *)
Definition statusText (tdoc : Tdoc) (t1 t2 t3 : Date) : string :=
  if isNew tdoc 1 t1 then "New"
  else if isUpcoming tdoc 1 t2 then "Ready (☆▽☆)"
  else if isOngoing tdoc t3 then "Live..."
  else "Done".

Definition getStatusText (tdoc : Tdoc) (t1 t2 : Date) : string :=
  if isNotStarted tdoc t1 then "not_started"
  else if isOngoing tdoc t2 then "ongoing"
  else "finished".

(** ** Bulk recalculation and the scoreboard of a contest *)

(** Modelled from the spec: the source of [document.getMultiStatus] is not
    available. The "multi-get" with the filter [{ docId: tid }]: the status
    records of the contest. *)
Definition getMultiStatus (st : Store) (tid : N) : list Tsdoc :=
  map snd (filter (λ kv, kv.1.1 = tid) (map_to_list (statuses st))).

(** One turn of the loop of [recalcStatus]: a record with a journal has
    its stats computed and the conditional write issued at once; a throw
    ends the loop with the writes issued so far. *)
Definition recalc_step (tdoc : option Tdoc) (tid : N) (st : Store)
    (tsdoc : Tsdoc) : Store * result (option (option Tsdoc)) :=
  match ts_journal tsdoc with
  | None => (st, Ok None)
  | Some _ =>
      match journal ← _getStatusJournal tsdoc;
            t ← (match tdoc with
                 | Some t => Ok t
                 | None => Throw TypeError
                 end);
            stats ← RULES_stat (rule t) t journal;
            Ok (journal, stats) with
      | Throw e => (st, Throw e)
      | Ok (journal, stats) =>
          let '(st', r) :=
            revSetStatus st tid (uid tsdoc) (ts_rev tsdoc)
              (set_stats journal stats) in
          (st', Ok (Some r))
      end
  end.

Fixpoint recalc_loop (tdoc : option Tdoc) (tid : N) (st : Store)
    (tsdocs : list Tsdoc) : Store * result (list (option Tsdoc)) :=
  match tsdocs with
  | [] => (st, Ok [])
  | tsdoc :: rest =>
      match recalc_step tdoc tid st tsdoc with
      | (st', Throw e) => (st', Throw e)
      | (st', Ok task) =>
          match recalc_loop tdoc tid st' rest with
          | (st'', Throw e) => (st'', Throw e)
          | (st'', Ok tasks) =>
              (st'', Ok (match task with
                         | Some r => r :: tasks
                         | None => tasks
                         end))
          end
      end
  end.

(** [recalcStatus]: the contest record is read with [document.get], which
    gives [null] for a missing contest. *)
Definition recalcStatus (st : Store) (tid : N)
    : Store * result (list (option Tsdoc)) :=
  recalc_loop (contests st !! tid) tid st (getMultiStatus st tid).

(** The handler mixin; [hasPerm] is
    [this.user.hasPerm(PERM.PERM_VIEW_CONTEST_HIDDEN_SCOREBOARD)]. *)
Definition canViewHiddenScoreboard (hasPerm : bool) : bool := hasPerm.

Definition canShowRecord (hasPerm : bool) (tdoc : Tdoc) (now : Date)
    (allowPermOverride : bool) : result bool :=
  shown ← RULES_showRecord (rule tdoc) tdoc now;
  Ok (if shown : bool then true
      else if allowPermOverride && canViewHiddenScoreboard hasPerm then true
      else false).

Definition canShowScoreboard (hasPerm : bool) (tdoc : Tdoc) (now : Date)
    (allowPermOverride : bool) : result bool :=
  shown ← RULES_showScoreboard (rule tdoc) tdoc now;
  Ok (if shown : bool then true
      else if allowPermOverride && canViewHiddenScoreboard hasPerm then true
      else false).

(** [getScoreboard]. The directories come from [user.getList] and
    [problem.getList], whose sources are not available: they are arguments,
    applied to the participants of the status records and to the problems
    of the contest. *)
Definition getScoreboard (lib : Lib) (hasPerm : bool) (now : Date)
    (user_getList : list N → gmap N Udoc)
    (problem_getList : list N → gmap N Pdoc)
    (st : Store) (tid : N) (isExport : bool)
    : result (Tdoc * list (list ScoreboardNode) * gmap N Udoc) :=
  tdoc ← get st tid;
  shown ← canShowScoreboard hasPerm tdoc now true;
  if negb shown
  then Throw ContestScoreboardHiddenError
  else
    let tsdocs := getMultiStatus st tid in
    let uids := map uid tsdocs in
    let udict := user_getList uids in
    let pdict := problem_getList (pids tdoc) in
    rankedTsdocs ← RULES_rank (rule tdoc) tsdocs;
    rows ← RULES_scoreboard (rule tdoc) lib isExport tdoc rankedTsdocs
             udict pdict;
    Ok (tdoc, rows, udict).
(** * Vocabulary of the statements *)

(** ** Journals *)

(** The entries of a journal for problem [p] of the contest, oldest first. *)
Definition entries_for (tdoc : Tdoc) (p : N) (journal : list jdoc)
    : list jdoc :=
  filter (λ j, pid j = p ∧ p ∈ pids tdoc) journal.

(** The entries of a journal for any problem of the contest. *)
Definition contest_entries (tdoc : Tdoc) (journal : list jdoc) : list jdoc :=
  filter (λ j, pid j ∈ pids tdoc) journal.

Definition sum_scores (l : list jdoc) : Z := foldr Z.add 0 (map score l).

(** The retain-until-accepted rule on the entries of one problem, oldest
    first: the retained entry is replaced by each new entry until the
    retained one is an acceptance. *)
Definition retain_step (kept : option jdoc) (j : jdoc) : option jdoc :=
  match kept with
  | Some e => if accept e then kept else Some j
  | None => Some j
  end.

Definition retained (entries : list jdoc) : option jdoc :=
  foldl retain_step None entries.

(** The rejections seen before the first acceptance. *)
Fixpoint rejections (entries : list jdoc) : N :=
  match entries with
  | [] => 0
  | j :: l => if accept j then 0 else 1 + rejections l
  end.

(** A counter dictionary holds no entry for a count that was never
    incremented. *)
Definition counted (n : N) : option N :=
  if bool_decide (n = 0%N) then None else Some n.

(** Seconds from the beginning of the contest to a submission. *)
Definition elapsed (tdoc : Tdoc) (j : jdoc) : Z :=
  generationTime (rid j) - getTime (beginAt tdoc) / 1000.

(** Entries in the order of their creation instants. *)
Definition by_time (a b : jdoc) : Prop :=
  generationTime (rid a) ≤ generationTime (rid b).

(** ** Ranking *)

(** The scores of status records whose [score] is a number. *)
Definition numeric_scores (tsdocs : list Tsdoc) (scores : list Z) : Prop :=
  map ts_score tsdocs = map (λ s, Some (Num s)) scores.

(** ** Scoreboards *)

(** The first cell of every participant row of a table. *)
Definition rank_column (rows : list (list ScoreboardNode))
    : list (option ScoreboardNode) :=
  map head (tail rows).

(** The inputs on which the renderers find what they look up: a problem
    entry for every contest problem, a user entry for every ranked
    participant and, under [acm], no dictionary where it iterates over
    [detail]. *)
Definition renderable (name : string) (tdoc : Tdoc)
    (rankedTsdocs : list (nat * Tsdoc)) (udict : gmap N Udoc)
    (pdict : gmap N Pdoc) : Prop :=
  (∀ p, p ∈ pids tdoc → is_Some (pdict !! p))
  ∧ (∀ x, x ∈ rankedTsdocs → is_Some (udict !! uid x.2))
  ∧ (name = rule_acm →
     ∀ x m, x ∈ rankedTsdocs → ts_detail x.2 ≠ Some (DetailObject m)).

(** A returned table that has a header row and one row per ranked record,
    each opening with the rank cell of its record. *)
Definition ranked_table (rankedTsdocs : list (nat * Tsdoc))
    (t : result (list (list ScoreboardNode))) : Prop :=
  ∃ rows, t = Ok rows
    ∧ length rows = S (length rankedTsdocs)
    ∧ rank_column rows = map (λ x, Some (rank_cell x.1)) rankedTsdocs.

(** The summary cells of a participant row in the two renderings: the
    interactive row has the rank, the user and the total, and under the
    Assignment rule the formatted time; the export row has them too, in
    that order, among its columns. *)
Definition same_summary (r : rule_id)
    (exported interactive : list ScoreboardNode) : Prop :=
  match r with
  | rule_acm =>
      ∃ rank user solved time time',
        exported = [rank; user; solved; time; time']
        ∧ interactive = [rank; user; solved]
  | rule_oi =>
      ∃ rank user total,
        exported = [rank; user; total] ∧ interactive = [rank; user; total]
  | rule_homework =>
      ∃ rank user total original time timeStr,
        exported = [rank; user; total; original; time; timeStr]
        ∧ interactive = [rank; user; total; timeStr]
  end.

(** The cells of one problem in the two renderings of a row: the export
    spreads over plain cells what the interactive rendering puts in one
    record cell, which names the submission besides. *)
Definition same_problem (r : rule_id) (lib : Lib)
    (exported interactive : list ScoreboardNode) : Prop :=
  match r with
  | rule_acm =>
      ∃ accepted time timeStr rid,
        exported = [cell "string" accepted; cell "string" time;
                    cell "string" timeStr]
        ∧ interactive
          = [cell_raw "record"
               (Str (format lib "{0}
{1}" [accepted; timeStr])) rid]
  | rule_oi =>
      ∃ score rid,
        exported = [cell_raw "record" score rid]
        ∧ interactive = [cell_raw "record" score rid]
  | rule_homework =>
      ∃ score original time timeStr rid,
        exported = [cell "string" score; cell "string" original;
                    cell "string" time; cell "string" timeStr]
        ∧ interactive
          = [cell_raw "record"
               (Str (format lib "{0} / {1}
{2}" [score; original; timeStr])) rid]
  end.

(** Two renderings of a participant row for [n] problems that differ in
    the set of columns and the shape of the problem cells only. *)
Definition same_row (r : rule_id) (lib : Lib) (n : nat)
    (exported interactive : list ScoreboardNode) : Prop :=
  ∃ se si pe pi,
    exported = se ++ concat pe ∧ interactive = si ++ concat pi
    ∧ same_summary r se si
    ∧ length pe = n ∧ Forall2 (same_problem r lib) pe pi.

(** ** Attendance *)

(** The calls of a list that satisfy a test. *)
Definition count (f : call → bool) (l : list call) : nat :=
  length (filter (λ c, f c = true) l).

(** A call for the given contest and participant whose capped increment
    went through. *)
Definition passed (tid uid : N) (c : call) : bool :=
  is_for tid uid c
  && match c_pc c with
     | AtInc | Returned (Ok _) => true
     | _ => false
     end.

(** What the scheduler maintains for the calls made for one contest and
    participant: the attendance field counts the calls whose increment
    went through, it is at most 1, it is 1 once any call has got past the
    increment, and a call that has returned has either succeeded or been
    refused. *)
Definition attend_inv (tid uid : N) (s : Store * list call) : Prop :=
  N.to_nat (attendance s.1 tid uid) = count (passed tid uid) s.2
  ∧ (attendance s.1 tid uid ≤ 1)%N
  ∧ (∀ c, c ∈ s.2 → is_for tid uid c = true → c_pc c ≠ AtCappedInc →
       attendance s.1 tid uid = 1%N)
  ∧ (∀ c, c ∈ s.2 → is_for tid uid c = true → returned c = true →
       succeeded tid uid c = true ∨ refused tid uid c = true).

(** ** Sample data *)

Definition submission (t : Z) : ObjectID :=
  {| generationTime := t; oid_tail := 0 |}.

(** An entry created at second [t] for problem [p]. *)
Definition entry (t : Z) (p : N) (a : bool) (s : Z) : jdoc :=
  {| rid := submission t; pid := p; accept := a; score := s |}.

(** The numbers 0.8 and 0.5, as the numerals denote them. *)
Definition f_0_8 : float := f_of_decimal false 8 (-1).
Definition f_0_5 : float := f_of_decimal false 5 (-1).

(** The penalty table [{1: 0.8, 3: 0.5}]. *)
Definition sample_rules : PenaltyRules := [("1", f_0_8); ("3", f_0_5)].

(** The same table with its thresholds written [3.0] and [1.0], in that
    order. *)
Definition decimal_rules : PenaltyRules := [("3.0", f_0_5); ("1.0", f_0_8)].

(** A contest record with other penalty fields. *)
Definition with_penalty (since : option Date) (table : option PenaltyRules)
    (tdoc : Tdoc) : Tdoc :=
  {| rule := rule tdoc; beginAt := beginAt tdoc; endAt := endAt tdoc;
     pids := pids tdoc; tdoc_attend := tdoc_attend tdoc;
     penaltySince := since; penaltyRules := table |}.

(** A contest that begins at the epoch and lasts a day, whose penalties
    start after an hour. *)
Definition contest (r : rule_id) (ps : list N) : Tdoc :=
  {| rule := r; beginAt := 0; endAt := 86400000; pids := ps;
     tdoc_attend := 0; penaltySince := Some 3600000;
     penaltyRules := Some sample_rules |}.

(** A participant who has attended, with a given [score] field. *)
Definition participant (u : N) (s : option num) : Tsdoc :=
  {| uid := u; ts_attend := Some 1%N; ts_rev := 0%N; ts_journal := None;
     ts_accept := None; ts_time := None; ts_score := s;
     ts_penaltyScore := None; ts_detail := None |}.

(** A store with contest 1 and no status record. *)
Definition sample_store (r : rule_id) : Store :=
  {| contests := <[1%N := contest r [1%N]]> ∅; statuses := ∅ |}.

Definition sample_users : gmap N Udoc :=
  <[7%N := {| uname := "ada" |}]> (<[8%N := {| uname := "bob" |}]> ∅).

Definition sample_problems : gmap N Pdoc :=
  <[1%N := {| title := "A+B" |}]> ∅.

(** A library whose functions return their template. *)
Definition sample_lib : Lib :=
  {| translate := id; formatSeconds := λ _, ""%string; format := λ s _, s |}.

(** ** Lifecycle *)

(** How many of the three phase tests hold at an instant. *)
Definition phases (tdoc : Tdoc) (now : Date) : nat :=
  ((if isNotStarted tdoc now then 1 else 0)
   + (if isOngoing tdoc now then 1 else 0)
   + (if isDone tdoc now then 1 else 0))%nat.

Definition day : Z := 24 * 3600 * 1000.

(** ** Creation and edit *)

(** The record that [add] stores: the rule name, beginning, end and
    problems given, no attendance, and the penalty fields of [data]. *)
Definition added (rule : string) (beginAt endAt : Date) (pids : list N)
    (data : Tdoc) : Tdoc :=
  {| rule := rule; beginAt := beginAt; endAt := endAt; pids := pids;
     tdoc_attend := 0; penaltySince := penaltySince data;
     penaltyRules := penaltyRules data |}.

(** An update of the time window alone. *)
Definition set_window (b e : Date) : update :=
  {| set_rule := None; set_beginAt := Some b; set_endAt := Some e;
     set_pids := None; set_attend := None; set_penaltySince := None;
     set_penaltyRules := None |}.

(** Validators that accept everything. *)
Definition accept_all (s : string) : result unit := Ok ().

(** A validator that refuses the empty string. *)
Definition refuse_empty (s : string) : result unit :=
  if bool_decide (s = ""%string) then Throw ValidationError else Ok ().

(** ** Journals *)

(** The entries created at second [t]. *)
Definition created_at (t : Z) (l : list jdoc) : list jdoc :=
  filter (λ j, generationTime (rid j) = t) l.

(** ** The Assignment rule *)

(** [journal[p].accept], when the journal has an index [p]. *)
Definition indexed_accept (journal : list jdoc) (p : N) : option bool :=
  accept <$> journal !! N.to_nat p.

(** What [homework.stat] selects for problem [p]: the first entry for the
    problem, when the problem is one of the contest and the journal entry
    at the index of its id is an acceptance. *)
Definition selected (tdoc : Tdoc) (journal l : list jdoc) (p : N)
    : option jdoc :=
  if decide (p ∈ pids tdoc ∧ indexed_accept journal p = Some true)
  then head (filter (λ j, pid j = p) l)
  else None.

Definition no_stats : homework.stats :=
  {| homework.s_score := Num 0; homework.s_penaltyScore := Num 0;
     homework.s_time := Num 0; homework.s_detail := [] |}.

(** The thresholds that a lateness of [exceed] seconds has reached, as
    the loop of [penaltyScore] meets them: those that open the list, up
    to the first one that is not reached. *)
Fixpoint reached (exceed : Z) (keys : list float) : list float :=
  match keys with
  | [] => []
  | h :: rest =>
      if f_leb (f_mul h (f_of_Z 3600)) (f_of_Z exceed)
      then h :: reached exceed rest
      else []
  end.

(** The score of an entry [late] seconds after [penaltySince], by the
    table: the score times 1 when no threshold is reached; otherwise the
    score times what the table holds under the name of the last
    threshold reached, which is not a number when it holds nothing under
    that name. *)
Definition penalised (table : PenaltyRules) (late : Z) (score : Z) : float :=
  match list.last (reached late (homework.penalty_keys table)) with
  | None => f_mul (f_of_Z score) (f_of_Z 1)
  | Some h =>
      match property table (Number_toString h) with
      | Some c => f_mul (f_of_Z score) c
      | None => f_nan
      end
  end.

(** ** Scoreboards *)

(** The number of columns of the table of a rule for [n] problems. *)
Definition width (r : rule_id) (isExport : bool) (n : nat) : nat :=
  match r with
  | rule_acm => 3 + (if isExport then 2 else 0) + (if isExport then 3 else 1) * n
  | rule_oi => 3 + n
  | rule_homework =>
      4 + (if isExport then 2 else 0) + (if isExport then 4 else 1) * n
  end%nat.

(** The scoreboard is hidden: an OI contest that has not ended, seen
    without the permission to view hidden scoreboards. *)
Definition hidden (hasPerm : bool) (tdoc : Tdoc) (now : Date) : Prop :=
  rule tdoc = rule_oi ∧ now ≤ endAt tdoc ∧ hasPerm = false.


(** ** Bulk recalculation *)

(** Every status record is stored under the participant it names. *)
Definition keyed (st : Store) : Prop :=
  map_Forall (λ k ts, uid ts = k.2) (statuses st).

(** A status record with its journal sorted and the stats of the rule on
    it, written once: a record without a journal is left as it is. *)
Definition recalculated (tdoc : Tdoc) (ts : Tsdoc) : result Tsdoc :=
  match ts_journal ts with
  | None => Ok ts
  | Some journal =>
      stats ← RULES_stat (rule tdoc) tdoc (sort_by_time journal);
      Ok (bump_rev (set_stats (sort_by_time journal) stats ts))
  end.

(** The stats of every status record of the contest can be computed. *)
Definition recalculable (tdoc : Tdoc) (st : Store) (tid : N) : Prop :=
  ∀ u ts, statuses st !! (tid, u) = Some ts →
    ∃ ts', recalculated tdoc ts = Ok ts'.

(** A status record of contest [tid] has a journal. *)
Definition journaled (st : Store) (tid : N) : Prop :=
  ∃ u ts, statuses st !! (tid, u) = Some ts ∧ is_Some (ts_journal ts).

(** A status record with a journal that has not been evaluated. *)
Definition journal_of (u : N) (journal : list jdoc) : Tsdoc :=
  {| uid := u; ts_attend := Some 1%N; ts_rev := 0%N;
     ts_journal := Some journal; ts_accept := None; ts_time := None;
     ts_score := None; ts_penaltyScore := None; ts_detail := None |}.

(** Contest 1 with participant 7, whose journal is out of order. *)
Definition recorded_store (r : rule_id) : Store :=
  {| contests := <[1%N := contest r [1%N]]> ∅;
     statuses :=
       <[(1%N, 7%N) :=
           journal_of 7 [entry 20 1 true 100; entry 10 1 false 0]]> ∅ |}.

(** Status records filed under contest 9, which does not exist. *)
Definition orphan_store : Store :=
  {| contests := ∅;
     statuses :=
       <[(9%N, 7%N) := journal_of 7 [entry 10 1 true 100]]> ∅ |}.

(** What a second recalculation does to a record. *)
Definition rewritten (ts : Tsdoc) : Tsdoc :=
  match ts_journal ts with
  | Some _ => bump_rev ts
  | None => ts
  end.

(** ** The attendance counter of a contest *)

(** A call for the given contest that has returned normally. *)
Definition joined (tid : N) (c : call) : bool :=
  bool_decide (c_tid c = tid) && bool_decide (c_pc c = Returned (Ok ())).

(** A contest record whose counter has moved [k] on. *)
Definition joined_by (k : nat) (tdoc : Tdoc) : Tdoc :=
  {| rule := rule tdoc; beginAt := beginAt tdoc; endAt := endAt tdoc;
     pids := pids tdoc;
     tdoc_attend := (tdoc_attend tdoc + N.of_nat k)%N;
     penaltySince := penaltySince tdoc;
     penaltyRules := penaltyRules tdoc |}.

(** ** What the rows show *)

(** The latest entry of a journal for problem [p]. *)
Definition latest (journal : list jdoc) (p : N) : option jdoc :=
  list.last (filter (λ j, pid j = p) journal).

(** [score || '-'] on an entry that may be missing. *)
Definition score_or_dash (o : option jdoc) : jsval :=
  match o with
  | Some j =>
      if bool_decide (score j = 0) then Str "-" else Number (Num (score j))
  | None => Str "-"
  end.

(** The submission of an entry that may be missing. *)
Definition rid_or (fallback : jsval) (o : option jdoc) : jsval :=
  match o with
  | Some j => Oid (rid j)
  | None => fallback
  end.

(** The time [acm.stat] gives the effective entry [j] of a journal. *)
Definition acm_time (tdoc : Tdoc) (journal : list jdoc) (j : jdoc) : num :=
  match counted (rejections (entries_for tdoc (pid j) journal)) with
  | Some n => Num (elapsed tdoc j + 20 * 60 * Z.of_N n)
  | None => NaN
  end.

(** The three cells of a problem that is not shown as solved. *)
Definition dashes : list ScoreboardNode :=
  [cell "string" (Str "-"); cell "string" (Str "-"); cell "string" (Str "-")].

(** What a rendering looks up is there: a problem entry for every contest
    problem when the header reads the titles, a user entry for every
    ranked participant and, under [acm], a [detail] that can be iterated
    over. *)
Definition found (r : rule_id) (isExport : bool) (tdoc : Tdoc)
    (rankedTsdocs : list (nat * Tsdoc)) (udict : gmap N Udoc)
    (pdict : gmap N Pdoc) : Prop :=
  (isExport = true → ∀ p, p ∈ pids tdoc → is_Some (pdict !! p))
  ∧ (∀ x, x ∈ rankedTsdocs → is_Some (udict !! uid x.2))
  ∧ (r = rule_acm →
     ∀ x m, x ∈ rankedTsdocs → ts_detail x.2 ≠ Some (DetailObject m)).
(** * Properties *)

(** ** The registry *)

Lemma RULES_rule_name (r : rule_id) : RULES r = Rule r.
Proof. by destruct r. Qed.

Lemma RULES_called_rule_name (r : rule_id) : RULES_called r = Ok r.
Proof. by destruct r. Qed.

Global Instance rule_name_inj : Inj (=) (=) rule_name.
Proof. by intros [] [] ?. Qed.

(** The names under which the registry holds a rule are the three names. *)
Lemma RULES_Rule (name : string) (r : rule_id) :
  RULES name = Rule r ↔ name = rule_name r.
Proof.
  split; [|intros ->; apply RULES_rule_name].
  unfold RULES. repeat case_bool_decide; subst; by intros [= <-].
Qed.

Lemma RULES_called_Ok (name : string) (r : rule_id) :
  RULES_called name = Ok r ↔ name = rule_name r.
Proof.
  rewrite <- RULES_Rule. unfold RULES_called.
  destruct (RULES name); split; congruence.
Qed.

(** Under the name of a rule the registry gives the members of the
    rule. *)
Lemma RULES_stat_rule (r : rule_id) (tdoc : Tdoc) (journal : list jdoc) :
  RULES_stat r tdoc journal
  = match r with
    | rule_acm => Ok (AcmStats (acm.stat tdoc journal))
    | rule_oi => Ok (OiStats (oi.stat tdoc journal))
    | rule_homework => HomeworkStats <$> homework.stat tdoc journal
    end.
Proof. by destruct r. Qed.

Lemma RULES_rank_rule (r : rule_id) (tsdocs : list Tsdoc) :
  RULES_rank r tsdocs
  = Ok match r with
       | rule_acm => acm.rank tsdocs
       | rule_oi => oi.rank tsdocs
       | rule_homework => homework.rank tsdocs
       end.
Proof. by destruct r. Qed.

Lemma RULES_scoreboard_rule (r : rule_id) (lib : Lib) (isExport : bool)
    (tdoc : Tdoc) (rankedTsdocs : list (nat * Tsdoc)) (udict : gmap N Udoc)
    (pdict : gmap N Pdoc) :
  RULES_scoreboard r lib isExport tdoc rankedTsdocs udict pdict
  = match r with
    | rule_acm => acm.scoreboard lib isExport tdoc rankedTsdocs udict pdict
    | rule_oi => oi.scoreboard lib isExport tdoc rankedTsdocs udict pdict
    | rule_homework =>
        homework.scoreboard lib isExport tdoc rankedTsdocs udict pdict
    end.
Proof. by destruct r. Qed.

Lemma RULES_showScoreboard_rule (r : rule_id) (tdoc : Tdoc) (now : Date) :
  RULES_showScoreboard r tdoc now
  = Ok match r with
       | rule_acm => acm.showScoreboard tdoc now
       | rule_oi => oi.showScoreboard tdoc now
       | rule_homework => homework.showScoreboard tdoc now
       end.
Proof. by destruct r. Qed.

Lemma RULES_showRecord_rule (r : rule_id) (tdoc : Tdoc) (now : Date) :
  RULES_showRecord r tdoc now
  = Ok match r with
       | rule_acm => acm.showRecord tdoc now
       | rule_oi => oi.showRecord tdoc now
       | rule_homework => homework.showRecord tdoc now
       end.
Proof. by destruct r. Qed.

(** Under any other name a member of a rule cannot be called. *)
Lemma RULES_called_other (name : string) :
  (∀ r, name ≠ rule_name r) → RULES_called name = Throw TypeError.
Proof.
  intros Hname. destruct (RULES_called name) as [r|e] eqn:Hcalled.
  - apply RULES_called_Ok in Hcalled. by destruct (Hname r).
  - unfold RULES_called in Hcalled. by destruct (RULES name); simplify_eq.
Qed.

Lemma RULES_stat_homework (tdoc : Tdoc) (journal : list jdoc) :
  RULES_stat rule_homework tdoc journal
  = HomeworkStats <$> homework.stat tdoc journal.
Proof. done. Qed.

(** ** Ranking *)

Section ranked_facts.
Context {A : Type} (equ : A → A → bool).

Lemma ranked_from_snd count last (l : list A) :
  map snd (ranked_from equ count last l) = l.
Proof.
  revert count last. induction l as [|d l IH]; intros count last; simpl.
  - reflexivity.
  - f_equal. apply IH.
Qed.

Lemma ranked_from_length count last (l : list A) :
  length (ranked_from equ count last l) = length l.
Proof.
  rewrite <- (ranked_from_snd count last l) at 2.
  by rewrite length_map.
Qed.

Lemma ranked_from_item count last (l : list A) i r d :
  ranked_from equ count last l !! i = Some (r, d) → l !! i = Some d.
Proof.
  intros H. rewrite <- (ranked_from_snd count last l).
  by rewrite list_lookup_fmap, H.
Qed.

(** Two neighbours of the output: the later one takes the rank of the
    earlier one when they tie, and its own position when they do not. *)
Lemma ranked_from_adjacent count last (l : list A) k r a r' b :
  ranked_from equ count last l !! k = Some (r, a) →
  ranked_from equ count last l !! S k = Some (r', b) →
  r' = if equ a b then r else (count + S k)%nat.
Proof.
  revert count last k. induction l as [|d l IH]; intros count last k; simpl.
  - intros H. by rewrite lookup_nil in H.
  - destruct k as [|k]; simpl.
    + intros [= <- <-]. destruct l as [|d' l]; simpl; [done|].
      intros [= <- <-]. destruct (equ d d'); [done | lia].
    + intros H1 H2. rewrite (IH _ _ _ H1 H2).
      destruct (equ a b); [done | lia].
Qed.

(** The rank of an item is the 1-based position of the first member of
    its run of ties: everything from that position on ties with its
    neighbour, and the run cannot be extended to the left. *)
Lemma ranked_run (l : list A) i d :
  l !! i = Some d →
  ∃ p, ranked l equ !! i = Some (S p, d) ∧ (p ≤ i)%nat
    ∧ (∀ k a b, (p ≤ k < i)%nat → l !! k = Some a → l !! S k = Some b →
         equ a b = true)
    ∧ (∀ q a b, p = S q → l !! q = Some a → l !! p = Some b →
         equ a b = false).
Proof.
  revert d. induction i as [|i IH]; intros d Hd.
  - exists 0%nat. destruct l as [|d0 l]; [done|]. simplify_eq/=.
    repeat split; [lia | intros; lia | intros; lia].
  - destruct (lookup_lt_is_Some_2 l i) as [a Ha].
    { apply lookup_lt_Some in Hd. lia. }
    destruct (IH a Ha) as (p & Hp & Hle & Hrun & Hmax).
    destruct (lookup_lt_is_Some_2 (ranked l equ) (S i)) as [[r' d'] Hr].
    { unfold ranked. rewrite ranked_from_length. by eapply lookup_lt_Some. }
    assert (d' = d) as ->.
    { apply ranked_from_item in Hr. congruence. }
    pose proof (ranked_from_adjacent _ _ _ _ _ _ _ _ Hp Hr) as Hadj.
    destruct (equ a d) eqn:Heq.
    + exists p. subst r'. repeat split; [done | lia | | done].
      intros k x y Hk Hx Hy. destruct (decide (k = i)) as [->|].
      * congruence.
      * apply (Hrun k); [lia | done | done].
    + exists (S i). subst r'. repeat split; [done | lia | intros; lia |].
      intros q x y [= <-] Hx Hy. congruence.
Qed.

(** When the predicate ties all the items that satisfy [P], a sequence of
    such items shares the rank of the item before it. *)
Lemma ranked_from_all_tie (P : A → Prop) count r0 d0 (l : list A) :
  (∀ a b, P a → P b → equ a b = true) →
  P d0 → Forall P l →
  map fst (ranked_from equ count (Some (r0, d0)) l) = replicate (length l) r0.
Proof.
  intros Htie Hd0 Hl. revert count d0 Hd0.
  induction Hl as [|d l Hd Hl IH]; intros count d0 Hd0; simpl; [done|].
  rewrite (Htie d0 d Hd0 Hd). f_equal. by apply IH.
Qed.

(** The ranks depend on the items only through what the predicate reads. *)
Lemma ranked_from_reads {B} (f : A → B) (e : B → B → bool) count last
    (l : list A) :
  (∀ a b, equ a b = e (f a) (f b)) →
  map fst (ranked_from equ count last l)
  = map fst (ranked_from e count (prod_map id f <$> last) (map f l)).
Proof.
  intros He. revert count last.
  induction l as [|d l IH]; intros count last; simpl; [done|].
  destruct last as [[r0 d0]|]; simpl.
  - rewrite He. f_equal. by rewrite IH.
  - f_equal. by rewrite IH.
Qed.

End ranked_facts.

Lemma numeric_scores_lookup tsdocs scores k t :
  numeric_scores tsdocs scores → tsdocs !! k = Some t →
  ∃ s, scores !! k = Some s ∧ ts_score t = Some (Num s).
Proof.
  intros H Ht.
  assert (map ts_score tsdocs !! k = Some (ts_score t)) as Hk
    by (by rewrite list_lookup_fmap, Ht).
  rewrite H, list_lookup_fmap in Hk.
  destruct (scores !! k) as [s|]; simplify_eq/=. eauto.
Qed.

Lemma strict_eq_numeric x y :
  strict_eq (Some (Num x)) (Some (Num y)) = bool_decide (x = y).
Proof.
  simpl. destruct (Z.eqb_spec x y); symmetry;
    [by apply bool_decide_eq_true_2 | by apply bool_decide_eq_false_2].
Qed.

(** A sequence that does not change from one position to the next between
    [p] and [i] has one value there. *)
Lemma constant_run {B} (f : nat → B) (p i : nat) :
  (∀ k, (p ≤ k < i)%nat → f k = f (S k)) →
  ∀ k, (p ≤ k ≤ i)%nat → f k = f i.
Proof.
  intros Hstep k [Hpk Hki]. revert Hstep.
  induction Hki as [|i Hki IH]; intros Hstep; [done|].
  rewrite <- (Hstep i) by lia. apply IH. intros j Hj. apply Hstep. lia.
Qed.

Lemma numeric_scores_adjacent tsdocs scores k a b :
  numeric_scores tsdocs scores →
  tsdocs !! k = Some a → tsdocs !! S k = Some b →
  strict_eq (ts_score a) (ts_score b)
  = bool_decide (scores !! k = scores !! S k).
Proof.
  intros H Ha Hb.
  destruct (numeric_scores_lookup _ _ _ _ H Ha) as (x & -> & ->).
  destruct (numeric_scores_lookup _ _ _ _ H Hb) as (y & -> & ->).
  rewrite strict_eq_numeric.
  apply bool_decide_ext. split; congruence.
Qed.

(** C3. Competition ranking. On status records whose scores are numbers,
    [acm.rank] gives every record the 1-based position of the first member
    of its run of adjacent equal scores: the run reaches from that
    position to the record, the record before the run has another score,
    and the first record after a run of size k has the run's rank plus k.
    Scores 100, 100, 80, 80, 80, 50 get ranks 1, 1, 3, 3, 3, 6, and the
    ranks depend on the records through their [score] alone. *)
Theorem acm_rank_competition_ranking (tsdocs : list Tsdoc) (scores : list Z) :
  numeric_scores tsdocs scores →
  length (acm.rank tsdocs) = length tsdocs
  ∧ (∀ i t, tsdocs !! i = Some t →
      ∃ p, acm.rank tsdocs !! i = Some (S p, t) ∧ (p ≤ i)%nat
        ∧ (∀ k, (p ≤ k ≤ i)%nat → scores !! k = scores !! i)
        ∧ (∀ q, p = S q → scores !! q ≠ scores !! p)
        ∧ (∀ t', tsdocs !! S i = Some t' → scores !! S i ≠ scores !! i →
             acm.rank tsdocs !! S i = Some ((S p + (S i - p))%nat, t')))
  ∧ (scores = [100; 100; 80; 80; 80; 50] →
      map fst (acm.rank tsdocs) = [1; 1; 3; 3; 3; 6]%nat)
  ∧ (∀ others, map ts_score others = map ts_score tsdocs →
      map fst (acm.rank others) = map fst (acm.rank tsdocs)).
Proof.
  intros Hnum. unfold acm.rank. split; [|split; [|split]].
  - unfold ranked. apply ranked_from_length.
  - intros i t Ht.
    destruct (ranked_run (λ a b, strict_eq (ts_score a) (ts_score b))
                tsdocs i t Ht) as (p & Hp & Hle & Hrun & Hmax).
    exists p. split; [done|]. split; [done|].
    assert (∀ k, (p ≤ k < i)%nat → scores !! k = scores !! S k) as Hstep.
    { intros k Hk.
      destruct (lookup_lt_is_Some_2 tsdocs k) as [a Ha].
      { apply lookup_lt_Some in Ht. lia. }
      destruct (lookup_lt_is_Some_2 tsdocs (S k)) as [b Hb].
      { apply lookup_lt_Some in Ht. lia. }
      specialize (Hrun k a b Hk Ha Hb).
      rewrite (numeric_scores_adjacent _ _ _ _ _ Hnum Ha Hb) in Hrun.
      by apply bool_decide_eq_true in Hrun. }
    split; [|split].
    + by apply (constant_run (λ k, scores !! k)).
    + intros q -> Heq.
      destruct (lookup_lt_is_Some_2 tsdocs q) as [a Ha].
      { apply lookup_lt_Some in Ht. lia. }
      destruct (lookup_lt_is_Some_2 tsdocs (S q)) as [b Hb].
      { apply lookup_lt_Some in Ht. lia. }
      specialize (Hmax q a b eq_refl Ha Hb).
      rewrite (numeric_scores_adjacent _ _ _ _ _ Hnum Ha Hb) in Hmax.
      by apply bool_decide_eq_false in Hmax.
    + intros t' Ht' Hne.
      destruct (lookup_lt_is_Some_2
                  (ranked tsdocs (λ a b, strict_eq (ts_score a) (ts_score b)))
                  (S i)) as [[r' d'] Hr].
      { unfold ranked. rewrite ranked_from_length. by eapply lookup_lt_Some. }
      assert (d' = t') as ->.
      { apply ranked_from_item in Hr. congruence. }
      pose proof (ranked_from_adjacent _ _ _ _ _ _ _ _ _ Hp Hr) as Hadj.
      cbv beta in Hadj.
      rewrite (numeric_scores_adjacent _ _ _ _ _ Hnum Ht Ht') in Hadj.
      rewrite bool_decide_eq_false_2 in Hadj by congruence.
      rewrite Hr. do 2 f_equal. lia.
  - intros ->. unfold numeric_scores in Hnum.
    do 7 (destruct tsdocs as [|? tsdocs]; try discriminate Hnum).
    injection Hnum as H1 H2 H3 H4 H5 H6.
    unfold ranked. simpl. by rewrite H1, H2, H3, H4, H5, H6.
  - intros others Hsame. unfold ranked.
    rewrite !(ranked_from_reads _ ts_score strict_eq) by done.
    by rewrite Hsame.
Qed.

Lemma acm_rank_competition_ranking_witness :
  map fst (acm.rank (map (λ s, participant 7 (Some (Num s)))
                       [100; 100; 80; 80; 80; 50]))
  = [1; 1; 3; 3; 3; 6]%nat.
Proof.
  destruct (acm_rank_competition_ranking
              (map (λ s, participant 7 (Some (Num s)))
                 [100; 100; 80; 80; 80; 50])
              [100; 100; 80; 80; 80; 50] eq_refl) as (_ & _ & H & _).
  exact (H eq_refl).
Defined.

(** C10. The update that [acm.stat] produces carries [accept], [time] and
    [detail] and leaves the [score] of a status record as it was; on status
    records without a [score], the tie predicate of [acm.rank] holds for
    every adjacent pair and every record gets rank 1, whatever its accept
    count and time. *)
Theorem acm_rank_score_absent (tsdocs : list Tsdoc) :
  Forall (λ t, ts_score t = None) tsdocs →
  (∀ tdoc journal t,
      ts_score (set_stats journal (AcmStats (acm.stat tdoc journal)) t)
      = ts_score t)
  ∧ (∀ i a b, tsdocs !! i = Some a → tsdocs !! S i = Some b →
      strict_eq (ts_score a) (ts_score b) = true)
  ∧ map fst (acm.rank tsdocs) = replicate (length tsdocs) 1%nat.
Proof.
  intros Habsent. split; [done|]. split.
  - intros i a b Ha Hb.
    rewrite Forall_lookup in Habsent.
    by rewrite (Habsent _ _ Ha), (Habsent _ _ Hb).
  - unfold acm.rank, ranked. destruct Habsent as [|t l Ht Hl]; [done|].
    simpl. f_equal.
    apply (ranked_from_all_tie _ (λ t, ts_score t = None)); [|done|done].
    by intros a b -> ->.
Qed.

Lemma acm_rank_score_absent_witness :
  map fst (acm.rank
    [set_stats [entry 60 1 true 100]
       (AcmStats (acm.stat (contest rule_acm [1%N]) [entry 60 1 true 100]))
       (participant 7 None);
     set_stats [entry 90 1 false 0]
       (AcmStats (acm.stat (contest rule_acm [1%N]) [entry 90 1 false 0]))
       (participant 8 None)])
  = [1; 1]%nat.
Proof.
  refine (proj2 (proj2 (acm_rank_score_absent _ _))).
  repeat constructor.
Defined.

(** ** The OI rule *)

Lemma includes_spec (l : list N) (p : N) :
  includes l p = true ↔ p ∈ l.
Proof. unfold includes. apply bool_decide_eq_true. Qed.

Lemma oi_stat_fold (tdoc : Tdoc) (journal : list jdoc) (s : oi.stats) :
  (∀ p, oi.s_detail (foldl (oi.stat_step tdoc) s journal) !! p
        = match list.last (entries_for tdoc p journal) with
          | Some j => Some j
          | None => oi.s_detail s !! p
          end)
  ∧ oi.s_score (foldl (oi.stat_step tdoc) s journal)
    = oi.s_score s + sum_scores (contest_entries tdoc journal).
Proof.
  revert s. induction journal as [|j l IH]; intros s; simpl.
  - split; [done|]. unfold sum_scores. simpl. lia.
  - destruct (IH (oi.stat_step tdoc s j)) as [IHd IHs]. split.
    + intros p. rewrite IHd. unfold entries_for. rewrite filter_cons.
      unfold oi.stat_step. case_decide as Hj.
      * destruct Hj as [<- Hin]. rewrite last_cons.
        apply includes_spec in Hin. rewrite Hin. simpl.
        rewrite lookup_insert_eq. by destruct (list.last _).
      * destruct (list.last _); [done|].
        destruct (includes (pids tdoc) (pid j)) eqn:Hin; [|done].
        simpl. apply includes_spec in Hin.
        rewrite lookup_insert_ne; [done|]. intros Heq. apply Hj.
        split; [done|]. by rewrite <- Heq.
    + rewrite IHs. unfold contest_entries. rewrite filter_cons.
      unfold oi.stat_step. case_decide as Hj.
      * apply includes_spec in Hj. rewrite Hj. unfold sum_scores. simpl. lia.
      * destruct (includes (pids tdoc) (pid j)) eqn:Hin; [|done].
        by apply includes_spec in Hin.
Qed.

(** C4. [oi.stat]: the detail map holds, for each contest problem, the
    latest journal entry for that problem, and nothing for other problems;
    the total score is the sum of the scores of all journal entries for
    contest problems. Two entries for one problem scoring 30 then 70 give
    the 70 entry as detail and 100 as total. *)
Theorem oi_stat_latest_detail_sum_all (tdoc : Tdoc) (journal : list jdoc) :
  (∀ p, oi.s_detail (oi.stat tdoc journal) !! p
        = list.last (entries_for tdoc p journal))
  ∧ oi.s_score (oi.stat tdoc journal)
    = sum_scores (contest_entries tdoc journal)
  ∧ (let early := entry 10 1 false 30 in
     let late := entry 20 1 true 70 in
     oi.s_detail (oi.stat (contest rule_oi [1%N]) [early; late]) !! 1%N
     = Some late
     ∧ oi.s_score (oi.stat (contest rule_oi [1%N]) [early; late]) = 100).
Proof.
  unfold oi.stat.
  destruct (oi_stat_fold tdoc journal {| oi.s_score := 0; oi.s_detail := ∅ |})
    as [Hd Hs].
  split; [|split].
  - intros p. rewrite Hd. simpl. rewrite lookup_empty. by destruct (list.last _).
  - rewrite Hs. simpl. lia.
  - by vm_compute.
Qed.

(** ** The penalty coefficient of the Assignment rule *)

(** C5. [penaltyScore] reads the thresholds with [parseFloat] and looks
    the multiplier up under the name of the number read, not under the key
    of the table. With the table 1: 0.8, 3: 0.5 a submission of score 100
    two hours after [penaltySince] pays 0.8 and gets 80, four hours after
    it pays 0.5 and gets 50, and before [penaltySince] it keeps its 100.
    The same table with the keys written 3.0 and 1.0 has the same
    thresholds, 1 and 3 in ascending order, and nothing under the names 1
    and 3: [add] stores it as it is under the Assignment rule, and the
    submission two hours late gets not-a-number. *)
Theorem homework_penaltyScore_key_lookup :
  let tdoc := contest rule_homework [1%N] in
  let decimal := with_penalty (Some 3600000) (Some decimal_rules) tdoc in
  let late h := entry (3600 + h * 3600) 1 true 100 in
  (homework.penaltyScore tdoc (late 2) = Ok (f_mul (f_of_Z 100) f_0_8)
   ∧ f_mul (f_of_Z 100) f_0_8 = f_of_Z 80)
  ∧ (homework.penaltyScore tdoc (late 4) = Ok (f_mul (f_of_Z 100) f_0_5)
     ∧ f_mul (f_of_Z 100) f_0_5 = f_of_Z 50)
  ∧ homework.penaltyScore tdoc (entry 3599 1 true 100) = Ok (f_of_Z 100)
  ∧ homework.penalty_keys decimal_rules = [f_of_Z 1; f_of_Z 3]
  ∧ homework.penalty_keys sample_rules = [f_of_Z 1; f_of_Z 3]
  ∧ Number_toString (f_of_Z 1) = "1"%string
  ∧ property sample_rules "1" = Some f_0_8
  ∧ property decimal_rules "1" = None
  ∧ (∃ tid st',
       add accept_all accept_all (sample_store rule_homework)
         "Homework" "Two problems" 1 "homework" 0 86400000 [1%N] false
         decimal = (st', Ok tid)
       ∧ contests st' !! tid = Some decimal)
  ∧ homework.penaltyScore decimal (late 2) = Ok f_nan.
Proof.
  split_and!; try by vm_compute.
  eexists _, _. split; by vm_compute.
Qed.

(** ** The ACM rule *)

Lemma retained_snoc (l : list jdoc) (j : jdoc) :
  retained (l ++ [j]) = retain_step (retained l) j.
Proof. unfold retained. by rewrite foldl_app. Qed.

Lemma rejections_snoc (l : list jdoc) (j : jdoc) :
  rejections (l ++ [j])
  = if acm.is_accepted (retained l) || accept j
    then rejections l else (rejections l + 1)%N.
Proof.
  assert (∀ l k, acm.is_accepted k = true →
            foldl retain_step k l = k) as Hkeep.
  { intros l0. induction l0 as [|x l0 IH]; intros k Hk; simpl; [done|].
    destruct k as [e|]; [|done]. simpl in *. rewrite Hk.
    apply IH. simpl. done. }
  assert (∀ l k, acm.is_accepted k = false →
            acm.is_accepted (foldl retain_step k l)
            = bool_decide (rejections l ≠ N.of_nat (length l))) as Hacc.
  { intros l0. induction l0 as [|x l0 IH]; intros k Hk; simpl.
    - by rewrite Hk.
    - assert (retain_step k x = Some x) as ->.
      { destruct k as [e|]; [|done]. simpl in *. by rewrite Hk. }
      destruct (accept x) eqn:Hx.
      + rewrite Hkeep by done. simpl. rewrite Hx.
        first [done | symmetry; apply bool_decide_eq_true_2; lia].
      + rewrite IH by done. apply bool_decide_ext. lia. }
  assert (∀ l, (rejections l ≤ N.of_nat (length l))%N) as Hle.
  { intros l0. induction l0 as [|x l0 IH]; simpl; [lia|].
    destruct (accept x); lia. }
  unfold retained. rewrite (Hacc l None eq_refl).
  induction l as [|x l IH]; simpl.
  - destruct (accept j); done.
  - destruct (accept x) eqn:Hx.
    + rewrite bool_decide_eq_true_2 by lia. done.
    + rewrite IH. specialize (Hle l).
      repeat case_bool_decide; destruct (accept j); simpl; lia.
Qed.

(** The first loop of [acm.stat], problem by problem: [effective] holds
    the entry that the retain-until-accepted rule keeps among the entries
    of the problem, and [naccept] the number of rejections before the first
    acceptance, when there is one to count. *)
Lemma acm_select_per_problem (tdoc : Tdoc) (journal : list jdoc) (p : N) :
  (acm.select tdoc journal).1 !! p = retained (entries_for tdoc p journal)
  ∧ (acm.select tdoc journal).2 !! p
    = counted (rejections (entries_for tdoc p journal)).
Proof.
  unfold acm.select.
  induction journal as [|j l IH] using rev_ind.
  - simpl. by rewrite !lookup_empty.
  - destruct IH as [IHe IHn].
    rewrite foldl_app. simpl. unfold entries_for in *.
    rewrite list.filter_app, filter_cons, filter_nil.
    unfold acm.select_step at 1 3.
    destruct (decide (pid j = p ∧ p ∈ pids tdoc)) as [Hj|Hj].
    + destruct Hj as [Hp Hin]. subst p.
      rewrite retained_snoc, rejections_snoc.
      apply includes_spec in Hin. rewrite Hin. simpl.
      rewrite IHe.
      destruct (acm.is_accepted (retained _)) eqn:Hacc; simpl.
      * split; [|done]. rewrite IHe.
        destruct (retained _) as [e|]; [|done]. simpl in *. by rewrite Hacc.
      * rewrite lookup_insert_eq. split.
        { destruct (retained _) as [e|]; [|done]. simpl in *. by rewrite Hacc. }
        destruct (accept j); simpl; [done|].
        rewrite lookup_insert_eq, IHn. unfold counted.
        repeat case_bool_decide; simpl; f_equal; lia.
    + rewrite app_nil_r.
      destruct (includes (pids tdoc) (pid j)
                && negb (acm.is_accepted _)) eqn:Hc; [|done].
      apply andb_true_iff in Hc as [Hin%includes_spec _]. simpl.
      assert (pid j ≠ p) as Hne.
      { intros Heq. apply Hj. split; [done|]. by rewrite <- Heq. }
      rewrite lookup_insert_ne by done. split; [done|].
      destruct (accept j); [done|]. by rewrite lookup_insert_ne.
Qed.

Lemma for_in_elem {V} (m : gmap N V) (k : N) (v : V) :
  (k, v) ∈ for_in m ↔ m !! k = Some v.
Proof.
  unfold for_in. rewrite merge_sort_Permutation. apply elem_of_map_to_list.
Qed.

Lemma retained_elem (l : list jdoc) (j : jdoc) :
  retained l = Some j → j ∈ l.
Proof.
  induction l as [|x l IH] using rev_ind; [done|].
  rewrite retained_snoc, elem_of_app, list_elem_of_singleton.
  unfold retain_step. destruct (retained l) as [e|].
  - destruct (accept e); intros [= <-]; auto.
  - intros [= <-]; auto.
Qed.

Lemma entries_for_pid (tdoc : Tdoc) (p : N) (journal : list jdoc) (j : jdoc) :
  j ∈ entries_for tdoc p journal → pid j = p ∧ p ∈ pids tdoc ∧ j ∈ journal.
Proof.
  unfold entries_for. rewrite list_elem_of_filter. tauto.
Qed.

(** The [detail] of [acm.stat]: one element per problem for which the
    retain-until-accepted rule keeps an entry, with the number of
    rejections counted for the problem, if any was, and as time the
    seconds since the beginning of the contest plus 20 minutes per
    rejection, or not-a-number when no rejection was counted. *)
Lemma acm_detail_time (tdoc : Tdoc) (journal : list jdoc) (d : detail_item) :
  d ∈ acm.s_detail (acm.stat tdoc journal) ↔
  ∃ j, retained (entries_for tdoc (pid j) journal) = Some j
    ∧ d = {| item := j;
             d_naccept :=
               counted (rejections (entries_for tdoc (pid j) journal));
             d_time :=
               Some match counted
                            (rejections (entries_for tdoc (pid j) journal)) with
                    | Some n => Num (elapsed tdoc j + 20 * 60 * Z.of_N n)
                    | None => NaN
                    end;
             d_penaltyScore := None |}.
Proof.
  unfold acm.stat. cbn [acm.s_detail]. rewrite list_elem_of_fmap.
  assert (∀ j, acm.mk_detail tdoc (acm.select tdoc journal).2 j
             = {| item := j;
                  d_naccept :=
                    counted (rejections (entries_for tdoc (pid j) journal));
                  d_time :=
                    Some match counted
                            (rejections (entries_for tdoc (pid j) journal)) with
                         | Some n => Num (elapsed tdoc j + 20 * 60 * Z.of_N n)
                         | None => NaN
                         end;
                  d_penaltyScore := None |}) as Hmk.
  { intros j. unfold acm.mk_detail, acm._time.
    rewrite (proj2 (acm_select_per_problem tdoc journal (pid j))).
    by destruct (counted _). }
  split.
  - intros ([k j] & -> & Hkj). apply for_in_elem in Hkj.
    rewrite (proj1 (acm_select_per_problem tdoc journal k)) in Hkj.
    destruct (entries_for_pid _ _ _ _ (retained_elem _ _ Hkj)) as (<- & _).
    exists j. by rewrite <- Hmk.
  - intros (j & Hj & ->). exists (pid j, j). split; [by rewrite <- Hmk|].
    apply for_in_elem.
    by rewrite (proj1 (acm_select_per_problem tdoc journal (pid j))).
Qed.

(** The totals of [acm.stat]: the number of accepted elements of [detail],
    and their times added up. *)
Lemma acm_totals (tdoc : Tdoc) (journal : list jdoc) :
  let accepted :=
    filter (λ d, accept (item d) = true)
      (acm.s_detail (acm.stat tdoc journal)) in
  acm.s_accept (acm.stat tdoc journal) = Z.of_nat (length accepted)
  ∧ acm.s_time (acm.stat tdoc journal)
    = foldl (λ t d, num_add t (default NaN (d_time d))) (Num 0) accepted.
Proof.
  unfold acm.stat. cbn [acm.s_accept acm.s_time acm.s_detail].
  generalize (map (λ kv : N * jdoc,
                     acm.mk_detail tdoc (acm.select tdoc journal).2 kv.2)
                (for_in (acm.select tdoc journal).1)).
  intros detail. cbv zeta.
  assert (∀ acc,
    foldl acm.total_step acc detail
    = (acc.1 + Z.of_nat
                 (length (filter (λ d, accept (item d) = true) detail)),
       foldl (λ t d, num_add t (default NaN (d_time d))) acc.2
         (filter (λ d, accept (item d) = true) detail))) as Hfold.
  { induction detail as [|d l IH]; intros [a t]; simpl.
    - f_equal. lia.
    - rewrite IH, filter_cons. unfold acm.total_step. simpl.
      destruct (accept (item d)); simpl; f_equal; lia. }
  by rewrite Hfold.
Qed.

(** C1. [acm.stat] on a journal whose only entry accepts problem 1 at
    second 100 of the contest: no rejection was counted, [naccept] has no
    entry for the problem, and the elapsed time of the effective entry and
    the total time are not-a-number, where the rule gives 100 seconds. On
    two rejections followed by an acceptance the elapsed time is that of
    the acceptance plus 40 minutes. *)
Theorem acm_stat_first_try_accept :
  let tdoc := contest rule_acm [1%N] in
  let j := entry 100 1 true 100 in
  acm.stat tdoc [j]
  = {| acm.s_accept := 1;
       acm.s_time := NaN;
       acm.s_detail :=
         [{| item := j; d_naccept := None; d_time := Some NaN;
             d_penaltyScore := None |}] |}
  ∧ retained (entries_for tdoc 1 [j]) = Some j
  ∧ rejections (entries_for tdoc 1 [j]) = 0%N
  ∧ elapsed tdoc j + 20 * 60 * 0 = 100
  ∧ acm.stat tdoc [entry 10 1 false 0; entry 20 1 false 0; entry 30 1 true 100]
    = {| acm.s_accept := 1;
         acm.s_time := Num (30 + 40 * 60);
         acm.s_detail :=
           [{| item := entry 30 1 true 100; d_naccept := Some 2%N;
               d_time := Some (Num (30 + 40 * 60));
               d_penaltyScore := None |}] |}.
Proof. by vm_compute. Qed.

(** ** The Assignment rule *)

(** C2. [homework.stat] selects by [journal[j.pid].accept]: on a rejection
    followed by an acceptance of problem 1 the entry at index 1 of the
    journal is accepted, so the first entry, the rejection, is retained,
    where the retain-until-accepted rule (and [acm.stat]) retains the
    acceptance; and when the problem id is past the end of the journal the
    selection throws. *)
Theorem homework_select_indexes_journal :
  let tdoc := contest rule_homework [1%N] in
  let early := entry 10 1 false 30 in
  let late := entry 20 1 true 100 in
  homework.select tdoc [early; late] = Ok (<[1%N := early]> ∅)
  ∧ retained (entries_for tdoc 1 [early; late]) = Some late
  ∧ (acm.select tdoc [early; late]).1 !! 1%N = Some late
  ∧ homework.select (contest rule_homework [5%N]) [entry 10 5 true 100]
    = Throw TypeError.
Proof. by vm_compute. Qed.

Lemma mapM_throws {A B} (f : A → result B) (l : list A) (e : error) :
  (∀ x, f x = Throw e) → l ≠ [] → mapM f l = Throw e.
Proof.
  intros Hf Hl. destruct l as [|x l]; [done|]. simpl. by rewrite Hf.
Qed.

(** Building an element of [detail] throws a type error: [penaltyScore]
    does, or else [time], applied to the key. *)
Lemma homework_mk_detail_throws (tdoc : Tdoc) (kv : N * jdoc) :
  homework.mk_detail tdoc kv = Throw TypeError.
Proof.
  unfold homework.mk_detail, homework.penaltyScore, homework.exceedSeconds.
  destruct (penaltySince tdoc) as [since|]; simpl; [|done].
  destruct (_ <? 0); simpl; [done|].
  by destruct (penaltyRules tdoc).
Qed.

(** [homework.stat] returns only when nothing was selected, and then with
    totals 0: with an effective entry, [time] is applied to its key and
    throws. *)
Lemma homework_stat_returns_empty (tdoc : Tdoc) (journal : list jdoc)
    (s : homework.stats) :
  homework.stat tdoc journal = Ok s →
  homework.select tdoc journal = Ok ∅
  ∧ s = {| homework.s_score := Num 0; homework.s_penaltyScore := Num 0;
           homework.s_time := Num 0; homework.s_detail := [] |}.
Proof.
  unfold homework.stat. intros H.
  destruct (homework.select tdoc journal) as [effective|e]; [|done].
  simpl in H.
  destruct (decide (for_in effective = [])) as [Hnil|Hcons].
  - rewrite Hnil in H. simpl in H. injection H as <-. split; [|done].
    f_equal. apply map_to_list_empty_iff.
    apply Permutation_nil_r. unfold for_in in Hnil.
    by rewrite <- (merge_sort_Permutation key_le), Hnil.
  - rewrite (mapM_throws _ _ TypeError) in H;
      [done | apply homework_mk_detail_throws | done].
Qed.

(** C6. [homework.stat] on a journal with two acceptances of problem 1,
    scored 100, 60 and 70 seconds into the contest: the first is selected,
    its penalty-adjusted score is 100 and [time] of the entry is 60, but
    [time] is applied to the key and the call throws instead of returning
    the totals 100, 100 and 60. *)
Theorem homework_stat_throws :
  let tdoc := contest rule_homework [1%N] in
  let j := entry 60 1 true 100 in
  let journal := [j; entry 70 1 true 100] in
  homework.select tdoc journal = Ok (<[1%N := j]> ∅)
  ∧ retained (entries_for tdoc 1 journal) = Some j
  ∧ homework.penaltyScore tdoc j = Ok (f_of_Z 100)
  ∧ homework.time tdoc (homework.OfDoc j) = Ok 60
  ∧ homework.time tdoc (homework.OfKey 1) = Throw TypeError
  ∧ homework.stat tdoc journal = Throw TypeError.
Proof. by vm_compute. Qed.

(** ** Attendance *)

Lemma count_cons (f : call → bool) (c : call) (l : list call) :
  count f (c :: l) = ((if f c then 1 else 0) + count f l)%nat.
Proof.
  unfold count. rewrite filter_cons.
  destruct (decide (f c = true)) as [Hc|Hc]; destruct (f c); done.
Qed.

Lemma count_none (f : call → bool) (l : list call) :
  (∀ c, c ∈ l → f c = false) → count f l = 0%nat.
Proof.
  induction l as [|c l IH]; intros Hl; [done|].
  rewrite count_cons, (Hl c), IH; [done | | by left].
  intros x Hx. apply Hl. by right.
Qed.

(** Replacing one call changes a count by what the two calls weigh. *)
Lemma count_insert (f : call → bool) (l : list call) i c c' :
  l !! i = Some c →
  (count f (<[i:=c']> l) + (if f c then 1 else 0)
   = count f l + (if f c' then 1 else 0))%nat.
Proof.
  revert i. induction l as [|x l IH]; intros i Hi; [done|].
  destruct i as [|i]; simpl in *.
  - injection Hi as ->. rewrite !count_cons. lia.
  - rewrite !count_cons. specialize (IH i Hi). lia.
Qed.

Section attend_facts.
Context (tid uid : N).

Lemma attendance_put_status st t u ts :
  attendance (put_status st t u ts) tid uid
  = if decide ((t, u) = (tid, uid)) then default 0%N (ts_attend ts)
    else attendance st tid uid.
Proof.
  unfold attendance, status_of, put_status. simpl.
  case_decide as Heq.
  - injection Heq as -> ->. by rewrite lookup_insert_eq.
  - by rewrite lookup_insert_ne.
Qed.

Lemma attendance_inc st t v :
  attendance (inc st t v) tid uid = attendance st tid uid.
Proof. done. Qed.

(** The capped increment: it goes through exactly when the field is 0,
    and then it makes the field 1 and touches no other status record. *)
Lemma cappedIncStatus_attend st t u :
  match cappedIncStatus st t u 1 0 1 with
  | Ok (st1, _) =>
      attendance st t u = 0%N
      ∧ attendance st1 tid uid
        = (if decide ((t, u) = (tid, uid)) then 1%N
           else attendance st tid uid)
  | Throw _ => (1 ≤ attendance st t u)%N
  end.
Proof.
  unfold cappedIncStatus. fold (attendance st t u).
  case_bool_decide as Hcap; [done|].
  split; [lia|]. rewrite attendance_put_status. simpl.
  case_decide; [|done]. f_equal. lia.
Qed.

Lemma call_step_target st c :
  c_tid (call_step st c).2 = c_tid c ∧ c_uid (call_step st c).2 = c_uid c.
Proof.
  unfold call_step. destruct (c_pc c); simpl; [|done|done].
  destruct (cappedIncStatus _ _ _ _ _ _) as [[st1 ts]|e]; done.
Qed.

Lemma is_for_spec c :
  is_for tid uid c = true ↔ (c_tid c, c_uid c) = (tid, uid).
Proof.
  unfold is_for. rewrite andb_true_iff, !bool_decide_eq_true.
  split; [by intros [-> ->] | by intros [= -> ->]].
Qed.

Lemma is_for_call_step st c :
  is_for tid uid (call_step st c).2 = is_for tid uid c.
Proof.
  unfold is_for. by destruct (call_step_target st c) as [-> ->].
Qed.

End attend_facts.

Lemma elem_of_insert_inv {A} (l : list A) (i : nat) (y x : A) :
  x ∈ <[i:=y]> l → x = y ∨ x ∈ l.
Proof.
  revert i. induction l as [|z l IH]; intros i; [simpl; auto|].
  destruct i as [|i]; simpl; rewrite !elem_of_cons.
  - intros [->|?]; auto.
  - intros [->|H]; [auto|]. destruct (IH i H); auto.
Qed.

Section attend_steps.
Context (tid uid : N).

(** One step of a call, seen from the status record of [tid] and [uid]. *)
Lemma call_step_cases st c :
  let st' := (call_step st c).1 in
  let c' := (call_step st c).2 in
  match c_pc c with
  | AtCappedInc =>
      (attendance st (c_tid c) (c_uid c) = 0%N ∧ c_pc c' = AtInc
       ∧ attendance st' tid uid
         = (if decide ((c_tid c, c_uid c) = (tid, uid)) then 1%N
            else attendance st tid uid))
      ∨ ((1 ≤ attendance st (c_tid c) (c_uid c))%N ∧ st' = st
         ∧ c_pc c' = Returned (Throw ContestAlreadyAttendedError))
  | AtInc =>
      attendance st' tid uid = attendance st tid uid
      ∧ c_pc c' = Returned (Ok ())
  | Returned _ => st' = st ∧ c' = c
  end.
Proof.
  unfold call_step. destruct (c_pc c) eqn:Hpc; simpl; [|done|done].
  pose proof (cappedIncStatus_attend tid uid st (c_tid c) (c_uid c)) as H.
  destruct (cappedIncStatus _ _ _ _ _ _) as [[st1 ts]|e]; simpl.
  - left. by destruct H.
  - by right.
Qed.

Lemma attend_inv_step s i :
  attend_inv tid uid s → attend_inv tid uid (sched_step s i).
Proof.
  destruct s as [st calls]. intros (Hcount & Hcap & Hpast & Hret).
  unfold sched_step. simpl in *.
  destruct (calls !! i) as [c|] eqn:Hi; [|done].
  assert (c ∈ calls) as Hc by (by eapply list_elem_of_lookup_2).
  pose proof (call_step_cases st c) as Hcases.
  pose proof (is_for_call_step tid uid st c) as Hfor.
  pose proof (count_insert (passed tid uid) calls i c (call_step st c).2 Hi)
    as Hins.
  destruct (call_step st c) as [st' c'] eqn:Hstep. simpl in *.
  unfold attend_inv. simpl.
  assert (∀ x, x ∈ <[i:=c']> calls → x = c' ∨ x ∈ calls) as Hmem
    by (intros x; apply elem_of_insert_inv).
  assert (∀ x, passed tid uid x
               = is_for tid uid x
                 && match c_pc x with
                    | AtInc | Returned (Ok _) => true
                    | _ => false
                    end) as Hpassed by done.
  rewrite (Hpassed c), (Hpassed c'), Hfor in Hins. clear Hpassed.
  destruct (c_pc c) eqn:Hpc.
  - (* the capped increment *)
    destruct Hcases as [(Hzero & Hpc' & Hatt)|(Hone & -> & Hpc')];
      rewrite Hpc' in Hins.
    + destruct (is_for tid uid c) eqn:Hk; simpl in Hins.
      * pose proof (proj1 (is_for_spec tid uid c) Hk) as Hkey.
        rewrite decide_True in Hatt by done.
        injection Hkey as Ht Hu. rewrite Ht, Hu in Hzero.
        rewrite Hatt. rewrite Hzero in Hcount.
        split_and!; [lia | lia | done |].
        intros x [->|Hx]%Hmem Hxk Hxr.
        { unfold returned in Hxr. by rewrite Hpc' in Hxr. }
        by apply (Hret x).
      * assert ((c_tid c, c_uid c) ≠ (tid, uid)) as Hkey.
        { intros Heq%is_for_spec. congruence. }
        rewrite decide_False in Hatt by done. rewrite Hatt.
        split_and!; [lia | done | |].
        { intros x [->|Hx]%Hmem Hxk Hxp; [congruence | by apply (Hpast x)]. }
        { intros x [->|Hx]%Hmem Hxk Hxr; [congruence | by apply (Hret x)]. }
    + rewrite andb_false_r in Hins.
      split_and!; [lia | done | |].
      * intros x [->|Hx]%Hmem Hxk Hxp; [|by apply (Hpast x)].
        rewrite Hfor in Hxk. apply is_for_spec in Hxk.
        injection Hxk as Ht Hu. rewrite Ht, Hu in Hone. lia.
      * intros x [->|Hx]%Hmem Hxk Hxr; [|by apply (Hret x)].
        right. unfold refused. rewrite Hxk, Hpc'. simpl.
        first [done | by apply bool_decide_eq_true_2].
  - (* the increment of the contest counter *)
    destruct Hcases as [Hatt Hpc']. rewrite Hpc' in Hins. rewrite Hatt.
    split_and!; [lia | done | |].
    + intros x [->|Hx]%Hmem Hxk Hxp; [|by apply (Hpast x)].
      apply (Hpast c); [done | congruence | congruence].
    + intros x [->|Hx]%Hmem Hxk Hxr; [|by apply (Hret x)].
      left. unfold succeeded. rewrite Hxk, Hpc'. simpl.
      first [done | by apply bool_decide_eq_true_2].
  - (* a call that has returned *)
    destruct Hcases as [-> ->]. rewrite list_insert_id by done. done.
Qed.

Lemma attend_inv_run schedule s :
  attend_inv tid uid s → attend_inv tid uid (run schedule s).
Proof.
  unfold run. revert s.
  induction schedule as [|i l IH]; intros s Hs; simpl; [done|].
  apply IH. by apply attend_inv_step.
Qed.

Lemma attend_inv_start st calls :
  attendance st tid uid = 0%N →
  Forall (λ c, c_pc c = AtCappedInc) calls →
  attend_inv tid uid (st, calls).
Proof.
  intros Hzero Hstart. unfold attend_inv. simpl.
  rewrite list.Forall_forall in Hstart.
  split_and!.
  - rewrite Hzero, count_none; [done|]. intros c Hc. unfold passed.
    rewrite (Hstart c Hc). by rewrite andb_false_r.
  - lia.
  - intros c Hc _ Hpc. by rewrite (Hstart c Hc) in Hpc.
  - intros c Hc _ Hr. unfold returned in Hr. by rewrite (Hstart c Hc) in Hr.
Qed.

(** The scheduler does not change what a call was made for. *)
Lemma run_targets schedule s :
  map (is_for tid uid) (run schedule s).2 = map (is_for tid uid) s.2.
Proof.
  unfold run. revert s.
  induction schedule as [|i l IH]; intros s; simpl; [done|].
  rewrite IH. unfold sched_step.
  destruct (s.2 !! i) as [c|] eqn:Hi; [|done].
  pose proof (is_for_call_step tid uid s.1 c) as Hfor.
  destruct (call_step s.1 c) as [st' c']. simpl in *.
  rewrite list_fmap_insert, Hfor.
  apply list_insert_id. by rewrite list_lookup_fmap, Hi.
Qed.

End attend_steps.

Lemma count_sum (f g h : call → bool) (l : list call) :
  (∀ c, c ∈ l →
     ((if h c then 1 else 0)
      = (if f c then 1 else 0) + (if g c then 1 else 0))%nat) →
  count h l = (count f l + count g l)%nat.
Proof.
  induction l as [|c l IH]; intros Hl; [done|].
  rewrite !count_cons, IH, (Hl c); [lia | by left |].
  intros x Hx. apply Hl. by right.
Qed.

Lemma count_ext (f g : call → bool) (l : list call) :
  (∀ c, c ∈ l → f c = g c) → count f l = count g l.
Proof.
  induction l as [|c l IH]; intros Hl; [done|].
  rewrite !count_cons, IH, (Hl c); [done | by left |].
  intros x Hx. apply Hl. by right.
Qed.

Lemma count_map (f : call → bool) (l l' : list call) :
  map f l = map f l' → count f l = count f l'.
Proof.
  revert l'. induction l as [|c l IH]; intros [|c' l'] H; try done.
  injection H as Hc Hl. rewrite !count_cons, Hc, (IH l'); done.
Qed.

Lemma count_some (f : call → bool) (l : list call) :
  count f l ≠ 0%nat → ∃ c, c ∈ l ∧ f c = true.
Proof.
  induction l as [|c l IH]; [done|]. rewrite count_cons.
  destruct (f c) eqn:Hc.
  - intros _. exists c. split; [by left | done].
  - intros H. destruct IH as (x & Hx & Hfx); [lia|].
    exists x. split; [by right | done].
Qed.

Lemma attend_first (st : Store) (tid uid : N) :
  attendance st tid uid = 0%N →
  ∃ st1, attend st tid uid = (st1, Ok ()) ∧ attendance st1 tid uid = 1%N.
Proof.
  intros Hzero. unfold attend.
  pose proof (cappedIncStatus_attend tid uid st tid uid) as H.
  destruct (cappedIncStatus _ _ _ _ _ _) as [[st1 ts]|e].
  - destruct H as [_ H]. rewrite decide_True in H by done.
    exists (inc st1 tid 1). split; [done|]. by rewrite attendance_inc.
  - lia.
Qed.

Lemma attend_again (st : Store) (tid uid : N) :
  (1 ≤ attendance st tid uid)%N →
  attend st tid uid = (st, Throw ContestAlreadyAttendedError).
Proof.
  intros Hone. unfold attend.
  pose proof (cappedIncStatus_attend tid uid st tid uid) as H.
  destruct (cappedIncStatus _ _ _ _ _ _) as [[st1 ts]|e]; [|done].
  destruct H as [H _]. lia.
Qed.

(** C7. Attendance, for every contest and participant whose status record
    has [attend] at 0 or does not exist yet. The first call of [attend]
    returns and leaves the field at 1; a call made when the field is 1
    throws the already-attended error and changes nothing. When calls of
    [attend] for any contests and participants run interleaved at their
    store operations, the field never exceeds 1 and equals the number of
    calls whose capped increment went through; once all calls have returned,
    of the calls made for this contest and participant exactly one has
    succeeded, all others have been refused with the already-attended
    error, and the field is 1. *)
Theorem attend_exactly_once (st : Store) (tid uid : N) :
  attendance st tid uid = 0%N →
  (∃ st1, attend st tid uid = (st1, Ok ()) ∧ attendance st1 tid uid = 1%N)
  ∧ (∀ st', (1 ≤ attendance st' tid uid)%N →
       attend st' tid uid = (st', Throw ContestAlreadyAttendedError))
  ∧ (∀ calls schedule,
       Forall (λ c, c_pc c = AtCappedInc) calls →
       let s' := run schedule (st, calls) in
       (attendance s'.1 tid uid ≤ 1)%N
       ∧ N.to_nat (attendance s'.1 tid uid) = count (passed tid uid) s'.2
       ∧ (Forall (λ c, returned c = true) s'.2 →
          count (is_for tid uid) calls ≠ 0%nat →
          count (succeeded tid uid) s'.2 = 1%nat
          ∧ count (refused tid uid) s'.2
            = (count (is_for tid uid) calls - 1)%nat
          ∧ attendance s'.1 tid uid = 1%N)).
Proof.
  intros Hzero. split; [by apply attend_first|].
  split; [intros st'; apply attend_again|].
  intros calls schedule Hstart s'.
  pose proof (attend_inv_run tid uid schedule (st, calls)
                (attend_inv_start tid uid st calls Hzero Hstart))
    as (Hcount & Hcap & Hpast & Hret).
  fold s' in Hcount, Hcap, Hpast, Hret.
  split; [done|]. split; [done|].
  intros Hdone Hsome. rewrite list.Forall_forall in Hdone.
  assert (count (is_for tid uid) s'.2 = count (is_for tid uid) calls) as Hfor.
  { apply count_map. apply (run_targets tid uid schedule (st, calls)). }
  assert (attendance s'.1 tid uid = 1%N) as Hone.
  { rewrite <- Hfor in Hsome. apply count_some in Hsome as (c & Hc & Hk).
    apply (Hpast c Hc Hk). specialize (Hdone c Hc).
    unfold returned in Hdone. by destruct (c_pc c). }
  assert (count (succeeded tid uid) s'.2 = 1%nat) as Hsucc.
  { rewrite Hone in Hcount. rewrite <- (count_ext (passed tid uid)); [lia|].
    intros c Hc. specialize (Hdone c Hc).
    unfold returned in Hdone. unfold passed, succeeded.
    destruct (c_pc c) as [| |[[]|e]]; try done; by rewrite !andb_false_r. }
  split; [done|]. split; [|done].
  rewrite <- Hfor.
  rewrite (count_sum (succeeded tid uid) (refused tid uid) (is_for tid uid)).
  - lia.
  - intros c Hc. specialize (Hdone c Hc). specialize (Hret c Hc).
    unfold succeeded, refused in *.
    destruct (is_for tid uid c); [|done]. simpl in *.
    destruct (Hret eq_refl Hdone) as [H|H]; rewrite H;
      apply bool_decide_eq_true in H; rewrite H; done.
Qed.

Lemma attend_exactly_once_witness :
  let calls := [start 1 7; start 1 7; start 1 8; start 1 7] in
  let s' := run [0; 1; 2; 1; 3; 0; 2; 3]%nat (sample_store rule_acm, calls) in
  count (succeeded 1 7) s'.2 = 1%nat
  ∧ count (refused 1 7) s'.2 = 2%nat
  ∧ attendance s'.1 1 7 = 1%N.
Proof.
  intros calls s'.
  destruct (attend_exactly_once (sample_store rule_acm) 1 7 eq_refl)
    as (_ & _ & H).
  destruct (H calls [0; 1; 2; 1; 3; 0; 2; 3]%nat) as (_ & _ & Hdone).
  { repeat constructor. }
  apply Hdone.
  - vm_compute. repeat constructor.
  - vm_compute. discriminate.
Defined.

(** ** Status updates *)

Lemma insert_by_time_Permutation (j : jdoc) (l : list jdoc) :
  insert_by_time j l ≡ₚ j :: l.
Proof.
  induction l as [|x l IH]; simpl; [done|].
  destruct (_ <=? _); [done|]. rewrite IH. apply Permutation_swap.
Qed.

Lemma sort_by_time_Permutation (l : list jdoc) : sort_by_time l ≡ₚ l.
Proof.
  induction l as [|j l IH]; simpl; [done|].
  by rewrite insert_by_time_Permutation, IH.
Qed.

Lemma insert_by_time_Sorted (j : jdoc) (l : list jdoc) :
  Sorted by_time l → Sorted by_time (insert_by_time j l).
Proof.
  induction 1 as [|x l Hl IH Hhd]; simpl.
  - by repeat constructor.
  - destruct (Z.leb_spec (generationTime (rid j)) (generationTime (rid x))).
    + by repeat constructor.
    + constructor; [done|].
      destruct Hhd as [|y l' Hxy]; simpl.
      * constructor. unfold by_time. lia.
      * destruct (_ <=? _); constructor; [unfold by_time; lia | done].
Qed.

Lemma sort_by_time_Sorted (l : list jdoc) : Sorted by_time (sort_by_time l).
Proof.
  induction l as [|j l IH]; simpl; [constructor|].
  by apply insert_by_time_Sorted.
Qed.

Lemma not_attended_spec (ts : Tsdoc) :
  not_attended ts = true ↔ ts_attend ts = None ∨ ts_attend ts = Some 0%N.
Proof.
  unfold not_attended. destruct (ts_attend ts) as [n|]; simpl.
  - destruct (Z.eqb_spec (Z.of_N n) 0); simpl.
    + split; [|done]. intros _. right. f_equal. lia.
    + split; [done|]. intros [|[= ->]]; done.
  - split; [by left | done].
Qed.

Lemma set_stats_journal (journal : list jdoc) (s : stats_t) (ts : Tsdoc) :
  ts_journal (set_stats journal s ts) = Some journal
  ∧ ts_rev (set_stats journal s ts) = ts_rev ts
  ∧ ts_attend (set_stats journal s ts) = ts_attend ts.
Proof. by destruct s. Qed.

(** C8. [updateStatus] on an existing contest appends the entry to the
    participant's journal and then, when the status record is not attended
    ([attend] absent or zero), throws the not-attended error, with the
    entry appended and the stats as they were. When the record is
    attended, the stats of the contest's rule on the whole journal, sorted
    by creation instant, are written with that journal: [accept], [time]
    and [detail] of [acm.stat] under the ACM rule, [score] and [detail] of
    [oi.stat] under the OI rule, [score], [penaltyScore], [time] and
    [detail] of [homework.stat] under the Assignment rule when it returns;
    the fields the rule does not give stay. When the rule's [stat] throws,
    or the rule name is none of the three, the error is thrown on with
    the entry appended. The write is conditioned on the revision the
    append left: against a record with another revision it is rejected
    and changes nothing. *)
Theorem updateStatus_append_stat_write (st : Store) (tid uid : N)
    (rid : ObjectID) (pid : N) (accept : bool) (score : Z) (tdoc : Tdoc) :
  contests st !! tid = Some tdoc →
  let j := {| rid := rid; pid := pid; accept := accept; score := score |} in
  let old := status_of st tid uid in
  let appended := default [] (ts_journal old) ++ [j] in
  let journal := sort_by_time appended in
  let r := updateStatus st tid uid rid pid accept score in
  let new := status_of r.1 tid uid in
  let stats_of ts :=
    (ts_accept ts, ts_time ts, ts_score ts, ts_penaltyScore ts,
     ts_detail ts) in
  let thrown e :=
    r.2 = Throw e ∧ ts_journal new = Some appended
    ∧ ts_rev new = (ts_rev old + 1)%N ∧ stats_of new = stats_of old in
  let written :=
    r.2 = Ok (Some new) ∧ ts_journal new = Some journal
    ∧ ts_rev new = (ts_rev old + 2)%N in
  Sorted by_time journal ∧ journal ≡ₚ appended
  ∧ (ts_attend old = None ∨ ts_attend old = Some 0%N →
       thrown ContestNotAttendedError)
  ∧ (∀ n, ts_attend old = Some n → n ≠ 0%N →
       (rule tdoc = rule_acm →
          let s := acm.stat tdoc journal in
          written
          ∧ stats_of new
            = (Some (Num (acm.s_accept s)), Some (acm.s_time s),
               ts_score old, ts_penaltyScore old,
               Some (DetailArray (acm.s_detail s))))
       ∧ (rule tdoc = rule_oi →
            let s := oi.stat tdoc journal in
            written
            ∧ stats_of new
              = (ts_accept old, ts_time old, Some (Num (oi.s_score s)),
                 ts_penaltyScore old, Some (DetailObject (oi.s_detail s))))
       ∧ (rule tdoc = rule_homework →
            match homework.stat tdoc journal with
            | Ok s =>
                written
                ∧ stats_of new
                  = (ts_accept old, Some (homework.s_time s),
                     Some (homework.s_score s),
                     Some (homework.s_penaltyScore s),
                     Some (DetailArray (homework.s_detail s)))
            | Throw e => thrown e
            end)
       ∧ ((∀ name, rule tdoc ≠ rule_name name) → thrown TypeError)
       ∧ (∀ w,
            (updateStatus_stats st tid uid rid pid accept score).2 = Ok w →
            w_rev w = (ts_rev old + 1)%N
            ∧ ∀ st', ts_rev <$> statuses st' !! (tid, uid) ≠ Some (w_rev w) →
                updateStatus_write st' tid uid w = (st', None))).
Proof.
  intros Htdoc j old appended journal r new stats_of thrown written.
  split; [apply sort_by_time_Sorted|].
  split; [apply sort_by_time_Permutation|].
  set (pushed :=
    {| uid := uid; ts_attend := ts_attend old;
       ts_rev := (ts_rev old + 1)%N; ts_journal := Some appended;
       ts_accept := ts_accept old; ts_time := ts_time old;
       ts_score := ts_score old; ts_penaltyScore := ts_penaltyScore old;
       ts_detail := ts_detail old |}).
  assert (∀ ts, status_of (put_status st tid uid ts) tid uid = ts) as Hput.
  { intros ts. unfold status_of. simpl. by rewrite lookup_insert_eq. }
  assert (∀ e, r = (put_status st tid uid pushed, Throw e) → thrown e)
    as Hthrown.
  { intros e Hr. unfold thrown, new. rewrite Hr. simpl. by rewrite Hput. }
  assert (updateStatus_stats st tid uid rid pid accept score
          = (put_status st tid uid pushed,
             if not_attended pushed then Throw ContestNotAttendedError
             else stats ← RULES_stat (rule tdoc) tdoc journal;
                  Ok {| w_rev := (ts_rev old + 1)%N;
                        w_set := set_stats journal stats |})) as Hstats.
  { unfold updateStatus_stats, get. rewrite Htdoc.
    unfold revPushStatus. fold old. fold j. fold appended. fold pushed.
    by destruct (not_attended pushed). }
  split.
  { intros Habsent. apply Hthrown. unfold r, updateStatus. rewrite Hstats.
    rewrite (proj2 (not_attended_spec pushed)); done. }
  intros n Hn Hpos.
  assert (not_attended pushed = false) as Hatt.
  { destruct (not_attended pushed) eqn:Hna; [|done].
    apply not_attended_spec in Hna. simpl in Hna.
    destruct Hna as [Hna|Hna]; congruence. }
  rewrite Hatt in Hstats.
  assert (∀ stats, RULES_stat (rule tdoc) tdoc journal = Ok stats →
            let ts := bump_rev (set_stats journal stats pushed) in
            r = (put_status st tid uid ts, Ok (Some ts))) as Hwrite.
  { intros stats Hs. unfold r, updateStatus. rewrite Hstats, Hs. simpl.
    unfold updateStatus_write, revSetStatus. simpl.
    rewrite lookup_insert_eq. rewrite bool_decide_eq_true_2 by done.
    simpl. f_equal. unfold put_status. simpl. by rewrite insert_insert_eq. }
  assert (∀ e, RULES_stat (rule tdoc) tdoc journal = Throw e → thrown e)
    as Hfail.
  { intros e Hs. apply Hthrown. unfold r, updateStatus.
    by rewrite Hstats, Hs. }
  split_and!.
  - intros Hrule s.
    specialize (Hwrite (AcmStats s)). unfold written, new.
    rewrite Hwrite; [|by rewrite Hrule]. simpl. rewrite Hput. simpl.
    split_and!; [done | done | lia | done].
  - intros Hrule s.
    specialize (Hwrite (OiStats s)). unfold written, new.
    rewrite Hwrite; [|by rewrite Hrule]. simpl. rewrite Hput. simpl.
    split_and!; [done | done | lia | done].
  - intros Hrule.
    destruct (homework.stat tdoc journal) as [s|e] eqn:Hs.
    + specialize (Hwrite (HomeworkStats s)). unfold written, new.
      rewrite Hwrite; [|by rewrite Hrule, RULES_stat_homework, Hs].
      simpl. rewrite Hput. simpl.
      split_and!; [done | done | lia | done].
    + apply Hfail. by rewrite Hrule, RULES_stat_homework, Hs.
  - intros Hname. apply Hfail. unfold RULES_stat.
    by rewrite RULES_called_other.
  - intros w Hw. rewrite Hstats in Hw. simpl in Hw.
    destruct (RULES_stat (rule tdoc) tdoc journal) as [stats|e];
      simpl in Hw; [|done].
    injection Hw as <-. split; [done|].
    intros st' Hstale. unfold updateStatus_write, revSetStatus. simpl.
    destruct (statuses st' !! (tid, uid)) as [ts|]; [|done].
    simpl in Hstale. rewrite bool_decide_eq_false_2; [done|].
    intros Heq. apply Hstale. by rewrite Heq.
Qed.

Lemma updateStatus_append_stat_write_witness :
  (updateStatus (sample_store rule_oi) 1 7 (submission 60) 1 true 100).2
  = Throw ContestNotAttendedError
  ∧ ts_accept
      (status_of
         (updateStatus (attend (sample_store rule_acm) 1 7).1 1 7
            (submission 60) 1 true 100).1 1 7)
    = Some (Num 1).
Proof.
  split.
  - pose proof (updateStatus_append_stat_write (sample_store rule_oi) 1 7
                  (submission 60) 1 true 100 (contest rule_oi [1%N])
                  eq_refl) as H.
    cbv zeta in H. destruct H as (_ & _ & H & _).
    destruct H as (H & _); [by left | exact H].
  - pose proof (updateStatus_append_stat_write
                  (attend (sample_store rule_acm) 1 7).1 1 7
                  (submission 60) 1 true 100
                  (joined_by 1 (contest rule_acm [1%N])) eq_refl) as H.
    cbv zeta in H. destruct H as (_ & _ & _ & H).
    destruct (H 1%N eq_refl) as (H1 & _); [done|].
    destruct (H1 eq_refl) as (_ & H2).
    exact (f_equal (λ x, x.1.1.1.1) H2).
Defined.

(** ** Scoreboards *)

Lemma for_of_ok {A S} (body : S → A → result S) (l : list A) (s : S) :
  (∀ s x, x ∈ l → ∃ s', body s x = Ok s') →
  ∃ s', for_of body l s = Ok s'.
Proof.
  revert s. induction l as [|x l IH]; intros s Hbody; simpl; [eauto|].
  destruct (Hbody s x) as [s' ->]; [by left|]. simpl.
  apply IH. intros s0 y Hy. apply Hbody. by right.
Qed.

(** A loop that pushes one row per item, each opening with the rank cell
    of the item. *)
Lemma for_of_rows {X} (rk : X → nat)
    (body : list (list ScoreboardNode) → X → result (list (list ScoreboardNode)))
    (l : list X) (init : list (list ScoreboardNode)) :
  (∀ rows x, x ∈ l →
     ∃ cells, body rows x = Ok (rows ++ [rank_cell (rk x) :: cells])) →
  ∃ rs, for_of body l init = Ok (init ++ rs)
        ∧ map head rs = map (λ x, Some (rank_cell (rk x))) l.
Proof.
  revert init. induction l as [|x l IH]; intros init Hbody; simpl.
  - exists []. by rewrite app_nil_r.
  - destruct (Hbody init x) as [cells ->]; [by left|]. simpl.
    destruct (IH (init ++ [rank_cell (rk x) :: cells])) as (rs & -> & Hrs).
    { intros rows y Hy. apply Hbody. by right. }
    exists ((rank_cell (rk x) :: cells) :: rs). split.
    + by rewrite <- app_assoc.
    + simpl. by rewrite Hrs.
Qed.

Lemma numbered_elem (ps : list N) (i : nat) (p : N) :
  (i, p) ∈ numbered ps → p ∈ ps.
Proof. unfold numbered. apply elem_of_zip_r. Qed.

Section scoreboard_facts.
Context (lib : Lib) (isExport : bool) (tdoc : Tdoc).
Context (rankedTsdocs : list (nat * Tsdoc)).
Context (udict : gmap N Udoc) (pdict : gmap N Pdoc).

Lemma ranked_table_intro cols
    (body : list (list ScoreboardNode) → nat * Tsdoc
            → result (list (list ScoreboardNode))) :
  (∀ rows x, x ∈ rankedTsdocs →
     ∃ cells, body rows x = Ok (rows ++ [rank_cell x.1 :: cells])) →
  ranked_table rankedTsdocs (for_of body rankedTsdocs [cols]).
Proof.
  intros Hbody.
  destruct (for_of_rows fst body rankedTsdocs [cols] Hbody) as (rs & -> & Hrs).
  exists ([cols] ++ rs). split; [done|]. simpl. split; [|done].
  f_equal. by rewrite <- (length_map head rs), Hrs, length_map.
Qed.

(** The header loop returns when every contest problem has an entry (the
    interactive header does not read the entries). *)
Ltac header_loop Hp :=
  cbv zeta; apply for_of_ok;
  intros ? [? p] Hin%numbered_elem;
  match goal with |- context [if ?b then _ else _] => destruct b end;
  [destruct (Hp p Hin) as [? ->]|]; eauto.

Lemma acm_columns_ok :
  (∀ p, p ∈ pids tdoc → is_Some (pdict !! p)) →
  ∃ cols, acm.columns lib isExport tdoc pdict = Ok cols.
Proof. intros Hp. unfold acm.columns. header_loop Hp. Qed.

Lemma oi_columns_ok :
  (∀ p, p ∈ pids tdoc → is_Some (pdict !! p)) →
  ∃ cols, oi.columns lib isExport tdoc pdict = Ok cols.
Proof. intros Hp. unfold oi.columns. header_loop Hp. Qed.

Lemma homework_columns_ok :
  (∀ p, p ∈ pids tdoc → is_Some (pdict !! p)) →
  ∃ cols, homework.columns lib isExport tdoc pdict = Ok cols.
Proof. intros Hp. unfold homework.columns. header_loop Hp. Qed.

Lemma acm_scoreboard_table :
  renderable rule_acm tdoc rankedTsdocs udict pdict →
  ranked_table rankedTsdocs (acm.scoreboard lib isExport tdoc rankedTsdocs udict pdict).
Proof.
  intros (Hp & Hu & Hd). unfold acm.scoreboard.
  destruct (acm_columns_ok Hp) as [cols ->]. simpl.
  apply ranked_table_intro. intros rows [rk ts] Hin. unfold acm.row.
  destruct (Hu _ Hin) as [udoc Hudoc]. simpl in Hudoc.
  assert (∃ dict, acm.tsddict ts = Ok dict) as [dict ->].
  { unfold acm.tsddict. destruct (ts_detail ts) as [[l|m]|] eqn:Hdet; eauto.
    by destruct (Hd eq_refl (rk, ts) m Hin). }
  simpl. rewrite Hudoc. simpl. eauto.
Qed.

Lemma oi_scoreboard_table :
  renderable rule_oi tdoc rankedTsdocs udict pdict →
  ranked_table rankedTsdocs (oi.scoreboard lib isExport tdoc rankedTsdocs udict pdict).
Proof.
  intros (Hp & Hu & _). unfold oi.scoreboard.
  destruct (oi_columns_ok Hp) as [cols ->]. simpl.
  apply ranked_table_intro. intros rows [rk ts] Hin. unfold oi.row.
  destruct (Hu _ Hin) as [udoc Hudoc]. simpl in Hudoc.
  rewrite Hudoc. simpl. eauto.
Qed.

Lemma homework_scoreboard_table :
  renderable rule_homework tdoc rankedTsdocs udict pdict →
  ranked_table rankedTsdocs
    (homework.scoreboard lib isExport tdoc rankedTsdocs udict pdict).
Proof.
  intros (Hp & Hu & _). unfold homework.scoreboard.
  destruct (homework_columns_ok Hp) as [cols ->]. simpl.
  apply ranked_table_intro. intros rows [rk ts] Hin. unfold homework.row.
  destruct (Hu _ Hin) as [udoc Hudoc]. simpl in Hudoc.
  rewrite Hudoc. simpl. eauto.
Qed.

End scoreboard_facts.

(** *** When a rendering returns *)

(** A loop whose turns return or throw a type error by a test on the item
    alone. *)
Lemma for_of_outcome {A S} (good : A → Prop) (body : S → A → result S)
    (l : list A) :
  (∀ x, good x ∨ ¬ good x) →
  (∀ s x, good x → ∃ s', body s x = Ok s') →
  (∀ s x, ¬ good x → body s x = Throw TypeError) →
  ∀ s,
    ((∃ s', for_of body l s = Ok s') ∧ Forall good l)
    ∨ (for_of body l s = Throw TypeError ∧ ¬ Forall good l).
Proof.
  intros Hdec Hgood Hbad. induction l as [|x l IH]; intros s; simpl.
  { left. split; [by eexists | constructor]. }
  destruct (Hdec x) as [Hx|Hx].
  - destruct (Hgood s x Hx) as [s' ->]. simpl.
    destruct (IH s') as [[Hok Hall]|[Hthrow Hnot]].
    + left. split; [done | by constructor].
    + right. split; [done|]. intros Hall. apply Hnot.
      by apply Forall_cons_1 in Hall as [_ ?].
  - rewrite (Hbad s x Hx). simpl. right. split; [done|].
    intros Hall. apply Hx. by apply Forall_cons_1 in Hall as [? _].
Qed.

Lemma numbered_problems (ps : list N) (P : N → Prop) :
  Forall (λ ip : nat * N, P ip.2) (numbered ps) ↔ ∀ p, p ∈ ps → P p.
Proof.
  rewrite list.Forall_forall. split.
  - intros H p Hp.
    assert (p ∈ (numbered ps).*2) as Hin.
    { unfold numbered. rewrite snd_zip; [done|]. rewrite length_seq. lia. }
    apply list_elem_of_fmap in Hin as ([i p'] & -> & Hin). by apply (H _ Hin).
  - intros H [i p] Hin%numbered_elem. by apply H.
Qed.

Section rendering_outcome.
Context (lib : Lib) (isExport : bool) (tdoc : Tdoc).
Context (rankedTsdocs : list (nat * Tsdoc)).
Context (udict : gmap N Udoc) (pdict : gmap N Pdoc).

Let titles : Prop :=
  isExport = true → ∀ p, p ∈ pids tdoc → is_Some (pdict !! p).

Lemma header_outcome
    (body : list ScoreboardNode → nat * N → result (list ScoreboardNode))
    (head : list ScoreboardNode) :
  (∀ s i p, isExport = false → ∃ s', body s (i, p) = Ok s') →
  (∀ s i p, is_Some (pdict !! p) → ∃ s', body s (i, p) = Ok s') →
  (∀ s i p, isExport = true → pdict !! p = None →
     body s (i, p) = Throw TypeError) →
  ((∃ cols, for_of body (numbered (pids tdoc)) head = Ok cols) ∧ titles)
  ∨ (for_of body (numbered (pids tdoc)) head = Throw TypeError ∧ ¬ titles).
Proof.
  intros Hinteractive Hfound Hmissing.
  destruct (for_of_outcome
              (λ ip : nat * N, isExport = true → is_Some (pdict !! ip.2))
              body (numbered (pids tdoc))) with (s := head)
    as [[Hok Hall]|[Hthrow Hnot]].
  - intros [i p]. simpl. destruct isExport; [|by left].
    destruct (pdict !! p); [left; by eexists|].
    right. intros H. by destruct (H eq_refl).
  - intros s [i p] Hg. simpl in Hg. destruct isExport eqn:He.
    + by apply Hfound, Hg.
    + by apply Hinteractive.
  - intros s [i p] Hg. simpl in Hg. destruct isExport eqn:He.
    + apply Hmissing; [done|]. destruct (pdict !! p); [|done].
      exfalso. apply Hg. by eexists.
    + exfalso. by apply Hg.
  - left. split; [done|]. unfold titles. intros He.
    apply (numbered_problems (pids tdoc) (λ p, is_Some (pdict !! p))).
    eapply list.Forall_impl; [exact Hall|]. intros ip H. by apply H.
  - right. split; [done|]. unfold titles. intros Ht. apply Hnot.
    apply list.Forall_forall. intros [i p] Hin%numbered_elem He.
    by apply Ht.
Qed.

Lemma acm_columns_outcome :
  ((∃ cols, acm.columns lib isExport tdoc pdict = Ok cols) ∧ titles)
  ∨ (acm.columns lib isExport tdoc pdict = Throw TypeError ∧ ¬ titles).
Proof.
  unfold acm.columns. cbv zeta. apply header_outcome.
  - intros s i p ->. by eexists.
  - intros s i p [pdoc ->]. destruct isExport; by eexists.
  - by intros s i p -> ->.
Qed.

Lemma oi_columns_outcome :
  ((∃ cols, oi.columns lib isExport tdoc pdict = Ok cols) ∧ titles)
  ∨ (oi.columns lib isExport tdoc pdict = Throw TypeError ∧ ¬ titles).
Proof.
  unfold oi.columns. cbv zeta. apply header_outcome.
  - intros s i p ->. by eexists.
  - intros s i p [pdoc ->]. destruct isExport; by eexists.
  - by intros s i p -> ->.
Qed.

Lemma homework_columns_outcome :
  ((∃ cols, homework.columns lib isExport tdoc pdict = Ok cols) ∧ titles)
  ∨ (homework.columns lib isExport tdoc pdict = Throw TypeError ∧ ¬ titles).
Proof.
  unfold homework.columns. cbv zeta. apply header_outcome.
  - intros s i p ->. by eexists.
  - intros s i p [pdoc ->]. destruct isExport; by eexists.
  - by intros s i p -> ->.
Qed.

Lemma acm_scoreboard_outcome :
  let result := acm.scoreboard lib isExport tdoc rankedTsdocs udict pdict in
  ((∃ rows, result = Ok rows)
   ∧ found rule_acm isExport tdoc rankedTsdocs udict pdict)
  ∨ (result = Throw TypeError
     ∧ ¬ found rule_acm isExport tdoc rankedTsdocs udict pdict).
Proof.
  unfold acm.scoreboard.
  destruct acm_columns_outcome as [[[cols ->] Ht]|[-> Hnt]]; simpl.
  2:{ right. split; [done|]. intros (Ht & _). by apply Hnt. }
  match goal with
  | |- context [for_of ?body _ _] =>
      destruct (for_of_outcome
                  (λ x : nat * Tsdoc,
                     is_Some (udict !! uid x.2)
                     ∧ ∀ m, ts_detail x.2 ≠ Some (DetailObject m))
                  body rankedTsdocs) with (s := [cols])
        as [[Hok Hall]|[Hthrow Hnot]]
  end.
  - intros [rk ts]. simpl. destruct (udict !! uid ts).
    + destruct (ts_detail ts) as [[l|m]|].
      * left. split; [by eexists | done].
      * right. intros [_ H]. by apply (H m).
      * left. split; [by eexists | done].
    + right. intros [[? H] _]. done.
  - intros rows [rk ts] [[udoc Hu] Hd]. simpl in *.
    unfold acm.row, acm.tsddict.
    destruct (ts_detail ts) as [[l|m]|]; simpl; rewrite ?Hu; simpl;
      first [by eexists | by destruct (Hd m)].
  - intros rows [rk ts] Hbad. simpl in *. unfold acm.row, acm.tsddict.
    destruct (ts_detail ts) as [[l|m]|]; simpl; [|done|].
    + destruct (udict !! uid ts); simpl; [|done].
      exfalso. apply Hbad. split; [by eexists | done].
    + destruct (udict !! uid ts); simpl; [|done].
      exfalso. apply Hbad. split; [by eexists | done].
  - left. split; [done|]. rewrite list.Forall_forall in Hall.
    split_and!; [done | |].
    + intros x Hx. by apply Hall.
    + intros _ x m Hx. by apply Hall.
  - right. split; [done|]. intros (_ & Hu & Hd). apply Hnot.
    apply list.Forall_forall. intros x Hx. split; [by apply Hu|].
    intros m. by apply (Hd eq_refl).
Qed.

Lemma oi_scoreboard_outcome :
  let result := oi.scoreboard lib isExport tdoc rankedTsdocs udict pdict in
  ((∃ rows, result = Ok rows)
   ∧ found rule_oi isExport tdoc rankedTsdocs udict pdict)
  ∨ (result = Throw TypeError
     ∧ ¬ found rule_oi isExport tdoc rankedTsdocs udict pdict).
Proof.
  unfold oi.scoreboard.
  destruct oi_columns_outcome as [[[cols ->] Ht]|[-> Hnt]]; simpl.
  2:{ right. split; [done|]. intros (Ht & _). by apply Hnt. }
  match goal with
  | |- context [for_of ?body _ _] =>
      destruct (for_of_outcome
                  (λ x : nat * Tsdoc, is_Some (udict !! uid x.2))
                  body rankedTsdocs) with (s := [cols])
        as [[Hok Hall]|[Hthrow Hnot]]
  end.
  - intros [rk ts]. simpl. destruct (udict !! uid ts); [left; by eexists|].
    right. by intros [? ?].
  - intros rows [rk ts] [udoc Hu]. simpl in *. unfold oi.row.
    rewrite Hu. by eexists.
  - intros rows [rk ts] Hbad. simpl in *. unfold oi.row.
    destruct (udict !! uid ts); simpl; [|done].
    exfalso. apply Hbad. by eexists.
  - left. split; [done|]. rewrite list.Forall_forall in Hall.
    split_and!; [done | done | done].
  - right. split; [done|]. intros (_ & Hu & _). apply Hnot.
    by apply list.Forall_forall.
Qed.

Lemma homework_scoreboard_outcome :
  let result :=
    homework.scoreboard lib isExport tdoc rankedTsdocs udict pdict in
  ((∃ rows, result = Ok rows)
   ∧ found rule_homework isExport tdoc rankedTsdocs udict pdict)
  ∨ (result = Throw TypeError
     ∧ ¬ found rule_homework isExport tdoc rankedTsdocs udict pdict).
Proof.
  unfold homework.scoreboard.
  destruct homework_columns_outcome as [[[cols ->] Ht]|[-> Hnt]]; simpl.
  2:{ right. split; [done|]. intros (Ht & _). by apply Hnt. }
  match goal with
  | |- context [for_of ?body _ _] =>
      destruct (for_of_outcome
                  (λ x : nat * Tsdoc, is_Some (udict !! uid x.2))
                  body rankedTsdocs) with (s := [cols])
        as [[Hok Hall]|[Hthrow Hnot]]
  end.
  - intros [rk ts]. simpl. destruct (udict !! uid ts); [left; by eexists|].
    right. by intros [? ?].
  - intros rows [rk ts] [udoc Hu]. simpl in *. unfold homework.row.
    rewrite Hu. by eexists.
  - intros rows [rk ts] Hbad. simpl in *. unfold homework.row.
    destruct (udict !! uid ts); simpl; [|done].
    exfalso. apply Hbad. by eexists.
  - left. split; [done|]. rewrite list.Forall_forall in Hall.
    split_and!; [done | done | done].
  - right. split; [done|]. intros (_ & Hu & _). apply Hnot.
    by apply list.Forall_forall.
Qed.

End rendering_outcome.

(** *** The two renderings of a table *)

(** A loop whose turns each push the row of their item. *)
Lemma for_of_pushed {X R} (row : X → result R)
    (body : list R → X → result (list R)) (l : list X) (init out : list R) :
  (∀ rows x, body rows x = (r ← row x; Ok (rows ++ [r]))) →
  for_of body l init = Ok out →
  ∃ rs, out = init ++ rs ∧ Forall2 (λ x r, row x = Ok r) l rs.
Proof.
  intros Hbody. revert init. induction l as [|x l IH]; intros init; simpl.
  - intros [= <-]. exists []. by rewrite app_nil_r.
  - rewrite Hbody. destruct (row x) as [r|e] eqn:Hx; simpl; [|done].
    intros (rs & -> & Hrs)%IH. exists (r :: rs).
    split; [by rewrite <- app_assoc | by constructor].
Qed.

(** A loop whose turns only append. *)
Lemma for_of_appends {A B} (body : list B → A → result (list B))
    (l : list A) (init out : list B) :
  (∀ s x s', body s x = Ok s' → ∃ t, s' = s ++ t) →
  for_of body l init = Ok out → ∃ t, out = init ++ t.
Proof.
  intros Hbody. revert init. induction l as [|x l IH]; intros init; simpl.
  - intros [= <-]. exists []. by rewrite app_nil_r.
  - destruct (body init x) as [s|e] eqn:Hx; simpl; [|done].
    destruct (Hbody _ _ _ Hx) as [t ->].
    intros [t' ->]%IH. exists (t ++ t'). by rewrite app_assoc.
Qed.

Lemma Forall2_common {X A B} (P : X → A → Prop) (Q : X → B → Prop)
    (R : A → B → Prop) (l : list X) (la : list A) (lb : list B) :
  (∀ x a b, P x a → Q x b → R a b) →
  Forall2 P l la → Forall2 Q l lb → Forall2 R la lb.
Proof.
  intros H HP. revert lb.
  induction HP; intros lb HQ; inversion HQ; subst; constructor; eauto.
Qed.

Lemma rows_ranks (row : nat * Tsdoc → result (list ScoreboardNode))
    (l : list (nat * Tsdoc)) (rs : list (list ScoreboardNode)) :
  (∀ x r, row x = Ok r → head r = Some (rank_cell x.1)) →
  Forall2 (λ x r, row x = Ok r) l rs →
  map head rs = map (λ x, Some (rank_cell x.1)) l.
Proof.
  intros Hh Hrs. induction Hrs as [|x r l' rs' Hx _ IH]; simpl; [done|].
  by rewrite (Hh x r Hx), IH.
Qed.

Lemma concat_singletons {A B} (f : A → B) (l : list A) :
  concat (map (λ x, [f x]) l) = map f l.
Proof. induction l as [|x l IH]; simpl; by rewrite ?IH. Qed.

(** The tables of two loops over the same ranked records whose rows open
    with the rank cell and agree. *)
Lemma tables_agree
    (rowe rowi : nat * Tsdoc → result (list ScoreboardNode))
    (same : list ScoreboardNode → list ScoreboardNode → Prop)
    (bodye bodyi : list (list ScoreboardNode) → nat * Tsdoc
                   → result (list (list ScoreboardNode)))
    (l : list (nat * Tsdoc)) (ce ci : list ScoreboardNode)
    (e i : list (list ScoreboardNode)) :
  for_of bodye l [ce] = Ok e → for_of bodyi l [ci] = Ok i →
  (∀ rows x, bodye rows x = (r ← rowe x; Ok (rows ++ [r]))) →
  (∀ rows x, bodyi rows x = (r ← rowi x; Ok (rows ++ [r]))) →
  (∀ x re, rowe x = Ok re → head re = Some (rank_cell x.1)) →
  (∀ x ri, rowi x = Ok ri → head ri = Some (rank_cell x.1)) →
  (∀ x re ri, rowe x = Ok re → rowi x = Ok ri → same re ri) →
  length e = S (length l) ∧ length i = length e
  ∧ rank_column e = map (λ x, Some (rank_cell x.1)) l
  ∧ rank_column i = rank_column e
  ∧ head e = Some ce ∧ head i = Some ci
  ∧ Forall2 same (tail e) (tail i).
Proof.
  intros He Hi Hbe Hbi Hhe Hhi Hsame.
  apply (for_of_pushed rowe) in He as (rse & -> & He); [|done].
  apply (for_of_pushed rowi) in Hi as (rsi & -> & Hi); [|done].
  unfold rank_column. simpl.
  rewrite (rows_ranks rowe l rse Hhe He), (rows_ranks rowi l rsi Hhi Hi).
  apply Forall2_length in He as Hle. apply Forall2_length in Hi as Hli.
  split_and!; [lia | lia | done | done | done | done |].
  by eapply Forall2_common; [|exact He|exact Hi].
Qed.

Section rows_agree.
Context (lib : Lib) (tdoc : Tdoc) (udict : gmap N Udoc).
Context (rank : nat) (tsdoc : Tsdoc).

Lemma acm_row_rank isExport r :
  acm.row lib isExport tdoc udict rank tsdoc = Ok r →
  head r = Some (rank_cell rank).
Proof.
  unfold acm.row. destruct (acm.tsddict tsdoc); simpl; [|done].
  destruct (udict !! uid tsdoc); [|done]. by intros [= <-].
Qed.

Lemma oi_row_rank r :
  oi.row tdoc udict rank tsdoc = Ok r → head r = Some (rank_cell rank).
Proof.
  unfold oi.row. destruct (udict !! uid tsdoc); [|done]. by intros [= <-].
Qed.

Lemma homework_row_rank isExport r :
  homework.row lib isExport tdoc udict rank tsdoc = Ok r →
  head r = Some (rank_cell rank).
Proof.
  unfold homework.row. destruct (udict !! uid tsdoc); [|done].
  by intros [= <-].
Qed.

Lemma acm_rows_agree re ri :
  acm.row lib true tdoc udict rank tsdoc = Ok re →
  acm.row lib false tdoc udict rank tsdoc = Ok ri →
  same_row rule_acm lib (length (pids tdoc)) re ri.
Proof.
  unfold acm.row. destruct (acm.tsddict tsdoc) as [dict|]; simpl; [|done].
  destruct (udict !! uid tsdoc) as [udoc|]; [|done].
  intros [= <-] [= <-].
  eexists [_; _; _; _; _], [_; _; _],
    (map (acm.problem_cells lib true dict) (pids tdoc)),
    (map (acm.problem_cells lib false dict) (pids tdoc)).
  split_and!; [done | done | by eexists _, _, _, _, _
              | by rewrite length_map |].
  apply Forall2_fmap, Forall_Forall2_diag, list.Forall_forall. intros p _.
  unfold acm.problem_cells.
  destruct (dict !! p) as [d|]; [destruct (accept (item d))|];
    by eexists _, _, _, _.
Qed.

Lemma oi_rows_agree re ri :
  oi.row tdoc udict rank tsdoc = Ok re →
  oi.row tdoc udict rank tsdoc = Ok ri →
  same_row rule_oi lib (length (pids tdoc)) re ri.
Proof.
  intros Hre. rewrite Hre. intros [= <-]. revert Hre.
  unfold oi.row. destruct (udict !! uid tsdoc) as [udoc|]; [|done].
  intros [= <-].
  eexists [_; _; _], [_; _; _],
    (map (λ p, [oi.problem_cell (oi.tsddict tsdoc) p]) (pids tdoc)),
    (map (λ p, [oi.problem_cell (oi.tsddict tsdoc) p]) (pids tdoc)).
  rewrite concat_singletons.
  split_and!; [done | done | by eexists _, _, _ | by rewrite length_map |].
  apply Forall_Forall2_diag, list.Forall_forall.
  intros cells (p & -> & _)%list_elem_of_fmap. by eexists _, _.
Qed.

Lemma homework_rows_agree re ri :
  homework.row lib true tdoc udict rank tsdoc = Ok re →
  homework.row lib false tdoc udict rank tsdoc = Ok ri →
  same_row rule_homework lib (length (pids tdoc)) re ri.
Proof.
  unfold homework.row. destruct (udict !! uid tsdoc) as [udoc|]; [|done].
  intros [= <-] [= <-].
  eexists [_; _; _; _; _; _], [_; _; _; _],
    (map (homework.problem_cells lib true (homework.tsddict tsdoc))
       (pids tdoc)),
    (map (homework.problem_cells lib false (homework.tsddict tsdoc))
       (pids tdoc)).
  split_and!; [done | done | by eexists _, _, _, _, _, _
              | by rewrite length_map |].
  apply Forall2_fmap, Forall_Forall2_diag, list.Forall_forall. intros p _.
  unfold homework.problem_cells. by eexists _, _, _, _, _.
Qed.

End rows_agree.

Section headers_agree.
Context (lib : Lib) (tdoc : Tdoc) (pdict : gmap N Pdoc).

Ltac header_prefix :=
  cbv zeta; intros isExport cols [t ->]%for_of_appends;
  [by destruct isExport|];
  intros s [i p] s'; destruct isExport; [destruct (pdict !! p)|];
  intros [= <-]; by eexists.

Lemma acm_columns_prefix :
  ∀ isExport cols,
    acm.columns lib isExport tdoc pdict = Ok cols →
    take 3 cols
    = [cell "rank" (Str (translate lib "Rank"));
       cell "user" (Str (translate lib "User"));
       cell "solved_problems" (Str (translate lib "Solved Problems"))].
Proof. unfold acm.columns. header_prefix. Qed.

Lemma oi_columns_prefix :
  ∀ isExport cols,
    oi.columns lib isExport tdoc pdict = Ok cols →
    take 3 cols
    = [cell "rank" (Str (translate lib "Rank"));
       cell "user" (Str (translate lib "User"));
       cell "total_score" (Str (translate lib "Total Score"))].
Proof. unfold oi.columns. header_prefix. Qed.

Lemma homework_columns_prefix :
  ∀ isExport cols,
    homework.columns lib isExport tdoc pdict = Ok cols →
    take 3 cols
    = [cell "rank" (Str (translate lib "Rank"));
       cell "user" (Str (translate lib "User"));
       cell "total_score" (Str (translate lib "Score"))].
Proof. unfold homework.columns. header_prefix. Qed.

End headers_agree.

(** C9. The export and the interactive rendering of the same ranked
    records. Whenever both return, their tables have one header row and
    one row per ranked record, the rows of both open with the same cell,
    which carries the rank of the record, the header rows open with the
    same three cells, and each participant row of the one agrees with the
    row of the other up to the set of columns and the shape of the
    problem cells: the interactive row has the rank, user and total cells
    of the export row (and its formatted time under the Assignment rule),
    and for every contest problem one record cell with the content that
    the export row spreads over three or four plain cells. With a problem
    directory that holds every contest problem, as the one [getScoreboard]
    looks up does, both renderings return or both throw a type error. *)
Theorem scoreboard_export_interactive_agree (r : rule_id) (lib : Lib)
    (tdoc : Tdoc) (rankedTsdocs : list (nat * Tsdoc))
    (udict : gmap N Udoc) (pdict : gmap N Pdoc) :
  let exported :=
    RULES_scoreboard r lib true tdoc rankedTsdocs udict pdict in
  let interactive :=
    RULES_scoreboard r lib false tdoc rankedTsdocs udict pdict in
  (∀ e i, exported = Ok e → interactive = Ok i →
     length e = S (length rankedTsdocs)
     ∧ length i = length e
     ∧ rank_column e = map (λ x, Some (rank_cell x.1)) rankedTsdocs
     ∧ rank_column i = rank_column e
     ∧ (∃ he hi, head e = Some he ∧ head i = Some hi
                 ∧ take 3 he = take 3 hi)
     ∧ Forall2 (same_row r lib (length (pids tdoc))) (tail e) (tail i))
  ∧ ((∀ p, p ∈ pids tdoc → is_Some (pdict !! p)) →
     (∃ e i, exported = Ok e ∧ interactive = Ok i)
     ∨ (exported = Throw TypeError ∧ interactive = Throw TypeError)).
Proof.
  intros exported interactive. split.
  - intros e i. unfold exported, interactive.
    rewrite !RULES_scoreboard_rule. destruct r.
    + unfold acm.scoreboard.
      destruct (acm.columns lib true tdoc pdict) as [ce|] eqn:Hce;
        simpl; [|done].
      destruct (acm.columns lib false tdoc pdict) as [ci|] eqn:Hci;
        simpl; [|done].
      intros He Hi.
      destruct (tables_agree
                  (λ x, acm.row lib true tdoc udict x.1 x.2)
                  (λ x, acm.row lib false tdoc udict x.1 x.2)
                  (same_row rule_acm lib (length (pids tdoc)))
                  _ _ _ _ _ _ _ He Hi)
        as (H1 & H2 & H3 & H4 & H5 & H6 & H7);
        [by intros ? [??] | by intros ? [??]
        | intros [??] ?; apply acm_row_rank
        | intros [??] ?; apply acm_row_rank
        | intros [??] ??; apply acm_rows_agree |].
      split_and!; try done. exists ce, ci. split_and!; [done | done |].
      by rewrite (acm_columns_prefix _ _ _ _ _ Hce),
        (acm_columns_prefix _ _ _ _ _ Hci).
    + unfold oi.scoreboard.
      destruct (oi.columns lib true tdoc pdict) as [ce|] eqn:Hce;
        simpl; [|done].
      destruct (oi.columns lib false tdoc pdict) as [ci|] eqn:Hci;
        simpl; [|done].
      intros He Hi.
      destruct (tables_agree
                  (λ x, oi.row tdoc udict x.1 x.2)
                  (λ x, oi.row tdoc udict x.1 x.2)
                  (same_row rule_oi lib (length (pids tdoc)))
                  _ _ _ _ _ _ _ He Hi)
        as (H1 & H2 & H3 & H4 & H5 & H6 & H7);
        [by intros ? [??] | by intros ? [??]
        | intros [??] ?; apply oi_row_rank
        | intros [??] ?; apply oi_row_rank
        | intros [??] ??; apply oi_rows_agree |].
      split_and!; try done. exists ce, ci. split_and!; [done | done |].
      by rewrite (oi_columns_prefix _ _ _ _ _ Hce),
        (oi_columns_prefix _ _ _ _ _ Hci).
    + unfold homework.scoreboard.
      destruct (homework.columns lib true tdoc pdict) as [ce|] eqn:Hce;
        simpl; [|done].
      destruct (homework.columns lib false tdoc pdict) as [ci|] eqn:Hci;
        simpl; [|done].
      intros He Hi.
      destruct (tables_agree
                  (λ x, homework.row lib true tdoc udict x.1 x.2)
                  (λ x, homework.row lib false tdoc udict x.1 x.2)
                  (same_row rule_homework lib (length (pids tdoc)))
                  _ _ _ _ _ _ _ He Hi)
        as (H1 & H2 & H3 & H4 & H5 & H6 & H7);
        [by intros ? [??] | by intros ? [??]
        | intros [??] ?; apply homework_row_rank
        | intros [??] ?; apply homework_row_rank
        | intros [??] ??; apply homework_rows_agree |].
      split_and!; try done. exists ce, ci. split_and!; [done | done |].
      by rewrite (homework_columns_prefix _ _ _ _ _ Hce),
        (homework_columns_prefix _ _ _ _ _ Hci).
  - intros Hp.
    assert (∀ isExport,
      let result :=
        RULES_scoreboard r lib isExport tdoc rankedTsdocs udict pdict in
      ((∃ rows, result = Ok rows)
       ∧ found r isExport tdoc rankedTsdocs udict pdict)
      ∨ (result = Throw TypeError
         ∧ ¬ found r isExport tdoc rankedTsdocs udict pdict)) as Hout.
    { intros isExport. cbv zeta. rewrite RULES_scoreboard_rule. destruct r.
      - apply acm_scoreboard_outcome.
      - apply oi_scoreboard_outcome.
      - apply homework_scoreboard_outcome. }
    unfold exported, interactive.
    destruct (Hout true) as [[[e He] Hfe]|[He Hfe]],
             (Hout false) as [[[i Hi] Hfi]|[Hi Hfi]].
    + left. by exists e, i.
    + destruct Hfi. destruct Hfe as (_ & Hu & Hd). by split_and!.
    + destruct Hfe. destruct Hfi as (_ & Hu & Hd). by split_and!.
    + by right.
Qed.

Lemma scoreboard_export_interactive_agree_witness :
  ∃ exported interactive,
    acm.scoreboard sample_lib true (contest rule_acm [1%N])
      (acm.rank [participant 7 None; participant 8 None])
      sample_users sample_problems = Ok exported
    ∧ acm.scoreboard sample_lib false (contest rule_acm [1%N])
        (acm.rank [participant 7 None; participant 8 None])
        sample_users sample_problems = Ok interactive
    ∧ length exported = 3%nat
    ∧ length interactive = 3%nat
    ∧ rank_column interactive = rank_column exported.
Proof.
  pose proof (scoreboard_export_interactive_agree rule_acm sample_lib
                (contest rule_acm [1%N])
                (acm.rank [participant 7 None; participant 8 None])
                sample_users sample_problems) as H.
  cbv zeta in H. destruct H as [Hagree Hboth].
  destruct Hboth as [(e & i & He & Hi)|[He _]].
  - intros p ->%list_elem_of_singleton. by eexists.
  - destruct (Hagree e i He Hi) as (Hle & Hli & _ & Hc & _).
    exists e, i. split_and!; [done | done | done | by rewrite Hli, Hle | done].
  - by vm_compute in He.
Defined.


(** * Further properties *)

(** ** Lifecycle tests *)

(** X1. At any instant at least one of [isNotStarted], [isOngoing] and
    [isDone] holds and [isOngoing] excludes the other two; [isNotStarted]
    and [isDone] hold together exactly when the contest ends before it
    begins and the instant lies between; for a contest that begins before
    it ends exactly one of the three holds. *)
Theorem lifecycle_phases (tdoc : Tdoc) (now : Date) :
  (1 ≤ phases tdoc now)%nat
  ∧ (isOngoing tdoc now = true →
       isNotStarted tdoc now = false ∧ isDone tdoc now = false)
  ∧ (isNotStarted tdoc now = true ∧ isDone tdoc now = true
     ↔ endAt tdoc ≤ now < beginAt tdoc)
  ∧ (beginAt tdoc < endAt tdoc → phases tdoc now = 1%nat).
Proof.
  unfold phases, isNotStarted, isOngoing, isDone.
  split_and!.
  - repeat case_bool_decide; simpl; lia.
  - repeat case_bool_decide; simpl; try done; lia.
  - repeat case_bool_decide; simpl; split; intros; try done; lia.
  - intros Hwin. repeat case_bool_decide; simpl; lia.
Qed.

Lemma lifecycle_phases_witness :
  phases (contest rule_acm [1%N]) 5000 = 1%nat.
Proof.
  refine (proj2 (proj2 (proj2 (lifecycle_phases _ _))) _). done.
Defined.

(** X2. [getStatusText] under a clock that does not run backwards between
    its two readings: it answers "not_started" exactly when the first
    reading is before the beginning, "ongoing" exactly when the contest had
    begun at the first reading and not ended at the second, and "finished"
    exactly when it had begun at the first and ended at the second. *)
Theorem getStatusText_readings (tdoc : Tdoc) (t1 t2 : Date) :
  t1 ≤ t2 →
  (getStatusText tdoc t1 t2 = "not_started"%string ↔ t1 < beginAt tdoc)
  ∧ (getStatusText tdoc t1 t2 = "ongoing"%string
     ↔ beginAt tdoc ≤ t1 ∧ t2 < endAt tdoc)
  ∧ (getStatusText tdoc t1 t2 = "finished"%string
     ↔ beginAt tdoc ≤ t1 ∧ endAt tdoc ≤ t2).
Proof.
  intros Hclock. unfold getStatusText, isNotStarted, isOngoing.
  repeat case_bool_decide; simpl; split_and!; split;
    first [done | lia | intros; lia | intros [??]; lia | idtac].
Qed.

Lemma getStatusText_readings_witness :
  getStatusText (contest rule_acm [1%N]) 10 20 = "ongoing"%string.
Proof.
  destruct (getStatusText_readings (contest rule_acm [1%N]) 10 20)
    as (_ & H & _); [done|].
  apply H. split; simpl; lia.
Defined.

(** X3. [statusText] at one instant: "New" more than a day before the
    beginning, "Ready" less than a day before it, "Live..." from the
    beginning to the end, and "Done" otherwise, which includes, besides
    the instants from the end on, the instant exactly one day
    before the beginning. *)
Theorem statusText_instant (tdoc : Tdoc) (now : Date) :
  let text := statusText tdoc now now now in
  (text = "New"%string ↔ now < beginAt tdoc - day)
  ∧ (text = "Ready (☆▽☆)"%string
     ↔ beginAt tdoc - day < now < beginAt tdoc)
  ∧ (text = "Live..."%string ↔ beginAt tdoc ≤ now < endAt tdoc)
  ∧ (text = "Done"%string
     ↔ now = beginAt tdoc - day ∨ (beginAt tdoc ≤ now ∧ endAt tdoc ≤ now))
  ∧ statusText tdoc (beginAt tdoc - day) (beginAt tdoc - day)
      (beginAt tdoc - day) = "Done"%string.
Proof.
  unfold statusText, isNew, isUpcoming, isOngoing, getTime, day.
  split_and!;
    repeat case_bool_decide; simpl; try split;
    first [done | lia | intros; lia | intros [??]; lia | idtac].
Qed.

(** ** Creation and edit of contest records *)

Lemma fresh_contest (st : Store) :
  contests st !! fresh (dom (contests st)) = None.
Proof. apply not_elem_of_dom, is_fresh. Qed.

(** [add], step by step. *)
Lemma add_outcome (checkTitle checkContent : string → result unit)
    (st : Store) (title content : string) (owner : N) (rule : string)
    (beginAt endAt : Date) (pids : list N) (rated : bool) (data : Tdoc) :
  add checkTitle checkContent st title content owner rule beginAt endAt pids
    rated data
  = match checkTitle title, checkContent content with
    | Throw e, _ => (st, Throw e)
    | Ok _, Throw e => (st, Throw e)
    | Ok _, Ok _ =>
        match RULES rule with
        | Absent => (st, Throw ValidationError)
        | m =>
            if bool_decide (endAt ≤ beginAt) then (st, Throw ValidationError)
            else
              match m with
              | Rule _ =>
                  ((document_add st
                      (added rule beginAt endAt pids data)).1,
                   Ok (fresh (dom (contests st))))
              | _ => (st, Throw TypeError)
              end
        end
    end.
Proof.
  unfold add, RULES_check, RULES_called. cbv zeta.
  destruct (checkTitle title) as [[]|e1]; simpl; [|done].
  destruct (checkContent content) as [[]|e2]; simpl; [|done].
  destruct (RULES rule) as [ru| |]; simpl; [| |done];
    by case_bool_decide.
Qed.

(** The three names are the registry's own. *)
Lemma rule_name_own (r : rule_id) : rule_name r ∉ Object_prototype.
Proof. apply (bool_decide_unpack _). by destruct r; vm_compute. Qed.

Lemma RULES_Inherited (name : string) :
  RULES name = Inherited ↔ name ∈ Object_prototype.
Proof.
  split.
  - unfold RULES. repeat case_bool_decide; done.
  - intros Hin. destruct (RULES name) as [r| |] eqn:Hr; [|done|].
    + apply RULES_Rule in Hr as ->. by destruct (rule_name_own r).
    + unfold RULES in Hr. by repeat case_bool_decide.
Qed.

(** X4. [add]: when it returns an id, the validators accepted the title
    and the content, the rule name is one of the three registered names
    and the contest begins before it ends; the id was not in use, [get] of
    the id gives the new record, with the rule name given, no attendance
    and the penalty fields of [data], and the other contests and all
    status records are as before. When it throws, the store is unchanged.
    With accepted title and content it throws the validation error exactly
    when the registry has nothing under the rule name or the end is not
    after the beginning, and a type error exactly when the window is in
    order and the rule name is one that the registry inherits, such as
    [constructor] or [toString]: the name passes the test of the
    registry, and what is found under it has no [check] to call. *)
Theorem add_validates_then_stores
    (checkTitle checkContent : string → result unit) (st : Store)
    (title content : string) (owner : N) (rule : string)
    (beginAt endAt : Date) (pids : list N) (rated : bool) (data : Tdoc) :
  let r := add checkTitle checkContent st title content owner rule
             beginAt endAt pids rated data in
  let registered := ∃ ru, rule = rule_name ru in
  let inherited := rule ∈ Object_prototype in
  (∀ tid, r.2 = Ok tid →
     checkTitle title = Ok () ∧ checkContent content = Ok ()
     ∧ registered
     ∧ get r.1 tid = Ok (added rule beginAt endAt pids data)
     ∧ beginAt < endAt
     ∧ contests st !! tid = None
     ∧ (∀ t, t ≠ tid → contests r.1 !! t = contests st !! t)
     ∧ statuses r.1 = statuses st)
  ∧ (∀ e, r.2 = Throw e → r.1 = st)
  ∧ (checkTitle title = Ok () → checkContent content = Ok () →
     (r.2 = Throw ValidationError
      ↔ (¬ registered ∧ ¬ inherited) ∨ endAt ≤ beginAt)
     ∧ (r.2 = Throw TypeError ↔ inherited ∧ beginAt < endAt)
     ∧ (registered → beginAt < endAt → ∃ tid, r.2 = Ok tid))
  ∧ RULES "constructor" = Inherited ∧ RULES "toString" = Inherited
  ∧ RULES "ACM" = Absent ∧ RULES "" = Absent.
Proof.
  intros r registered inherited. unfold r. rewrite add_outcome.
  split_and!; [| | |done..].
  - destruct (checkTitle title) as [[]|e1]; simpl; [|done].
    destruct (checkContent content) as [[]|e2]; simpl; [|done].
    destruct (RULES rule) as [ru| |] eqn:Hr; simpl; [| |done];
      case_bool_decide as Hwin; simpl; try done.
    intros tid [= <-]. apply RULES_Rule in Hr.
    split_and!; try done; try lia.
    + by exists ru.
    + unfold get. simpl. by rewrite lookup_insert_eq.
    + apply fresh_contest.
    + intros t Hne. by rewrite lookup_insert_ne.
  - destruct (checkTitle title) as [[]|e1]; simpl; [|done].
    destruct (checkContent content) as [[]|e2]; simpl; [|done].
    destruct (RULES rule) as [ru| |]; simpl; [| |done];
      by case_bool_decide.
  - intros -> ->.
    assert (registered → ¬ inherited) as Hexcl.
    { intros [ru ->]. apply rule_name_own. }
    destruct (RULES rule) as [ru| |] eqn:Hr.
    + apply RULES_Rule in Hr.
      assert registered as Hreg by by exists ru.
      case_bool_decide as Hwin; simpl.
      * split_and!; [split; auto | | intros; lia].
        split; [done | intros [_ ?]; lia].
      * split_and!; [| | by eauto].
        -- split; [done|]. intros [[Hn _]|?]; [by destruct Hn | lia].
        -- split; [done|]. intros [Hin _]. by destruct (Hexcl Hreg).
    + apply RULES_Inherited in Hr.
      assert (¬ registered) as Hnreg by (intros Hreg; by destruct (Hexcl Hreg)).
      case_bool_decide as Hwin; simpl.
      * split_and!; [split; auto | | done].
        split; [done | intros [_ ?]; lia].
      * split_and!; [| | done].
        -- split; [done|]. intros [[_ Hn]|?]; [by destruct Hn | lia].
        -- split; [intros _; split; [done | lia] | done].
    + assert (¬ registered) as Hnreg.
      { intros [ru ->]. by rewrite RULES_rule_name in Hr. }
      assert (¬ inherited) as Hninh.
      { intros Hin%RULES_Inherited. congruence. }
      simpl. split_and!; [| | done].
      * split; [auto | done].
      * split; [done | by intros [? _]].
Qed.

Lemma add_validates_then_stores_witness :
  ∃ tid,
    (add refuse_empty refuse_empty (sample_store rule_acm) "Round 1"
       "Three problems" 1 "oi" 0 3600000 [1%N] false
       (contest rule_oi [])).2 = Ok tid.
Proof.
  pose proof (add_validates_then_stores refuse_empty refuse_empty
                (sample_store rule_acm) "Round 1" "Three problems" 1 "oi" 0
                3600000 [1%N] false (contest rule_oi [])) as H.
  cbv zeta in H. destruct H as (_ & _ & H & _).
  destruct (H eq_refl eq_refl) as (_ & _ & H').
  apply H'; [by exists rule_oi | done].
Defined.

(** X5. [edit] validates the rule name of the update only when the update
    has one that is not empty: a name under which the registry has
    nothing gives the validation error, whether or not the contest
    exists, and otherwise a missing contest gives the not-found error.
    On an existing contest, the rule whose [check] is called is the one
    named by the update or else by the record: when that name is none of
    the three a type error is thrown, as for the inherited name
    [toString]. In all these cases the store is unchanged. Otherwise the
    update is stored as it is, and [get] gives the record with every
    field of the update replaced: the rule, also by an empty name, the
    window, which is not validated, the problems, the attendance counter
    and the penalty fields; the other contests and all status records are
    as before. *)
Theorem edit_validates_rule_only (st : Store) (tid : N) (u : update) :
  let r := edit st tid u in
  let passes := ∀ name, named u = Some name → RULES name ≠ Absent in
  (∀ name, named u = Some name → RULES name = Absent →
     r = (st, Throw ValidationError))
  ∧ (passes → contests st !! tid = None →
     r = (st, Throw ContestNotFoundError))
  ∧ (∀ tdoc, passes → contests st !! tid = Some tdoc →
       let checked := default (rule tdoc) (named u) in
       ((∀ ru, checked ≠ rule_name ru) → r = (st, Throw TypeError))
       ∧ ((∃ ru, checked = rule_name ru) →
          ∃ tdoc',
            r = (document_set st tid tdoc', Ok tdoc')
            ∧ get r.1 tid = Ok tdoc'
            ∧ rule tdoc' = default (rule tdoc) (set_rule u)
            ∧ beginAt tdoc' = default (beginAt tdoc) (set_beginAt u)
            ∧ endAt tdoc' = default (endAt tdoc) (set_endAt u)
            ∧ pids tdoc' = default (pids tdoc) (set_pids u)
            ∧ tdoc_attend tdoc' = default (tdoc_attend tdoc) (set_attend u)
            ∧ penaltySince tdoc'
              = from_option Some (penaltySince tdoc) (set_penaltySince u)
            ∧ penaltyRules tdoc'
              = from_option Some (penaltyRules tdoc) (set_penaltyRules u)
            ∧ (∀ t, t ≠ tid → contests r.1 !! t = contests st !! t)
            ∧ statuses r.1 = statuses st))
  ∧ (set_rule u = None ∨ set_rule u = Some ""%string ↔ named u = None)
  ∧ (∀ name, name ≠ ""%string → set_rule u = Some name →
       named u = Some name).
Proof.
  intros r passes. unfold passes, r, edit, get, RULES_check.
  split; [|split; [|split; [|split]]].
  - intros name -> Hn. by rewrite Hn.
  - intros Hreg Hnone. rewrite Hnone.
    destruct (named u) as [name|] eqn:Hname; [|done].
    specialize (Hreg name eq_refl). by destruct (RULES name).
  - intros tdoc Hreg Hsome. rewrite Hsome.
    assert ((match named u with
             | Some name =>
                 match RULES name with
                 | Absent => Throw ValidationError
                 | _ => Ok ()
                 end
             | None => Ok ()
             end : result unit) = Ok ()) as ->.
    { destruct (named u) as [name|] eqn:Hname; [|done].
      specialize (Hreg name eq_refl). by destruct (RULES name). }
    simpl. split.
    + intros Hother. by rewrite RULES_called_other.
    + intros [ru ->]. rewrite RULES_called_rule_name. simpl.
      eexists. split; [done|]. simpl. rewrite lookup_insert_eq.
      split_and!; try done.
      intros t Hne. by rewrite lookup_insert_ne.
  - unfold named. destruct (set_rule u) as [name|]; [|by split; auto].
    case_bool_decide; subst; split; try done; auto.
    intros [|[=]]; done.
  - intros name Hne Hset. unfold named. rewrite Hset.
    by rewrite bool_decide_eq_false_2.
Qed.

Lemma edit_validates_rule_only_witness :
  ∃ tdoc',
    (edit (sample_store rule_acm) 1 (set_window 7200000 3600000)).2
    = Ok tdoc'
    ∧ beginAt tdoc' = 7200000 ∧ endAt tdoc' = 3600000.
Proof.
  pose proof (edit_validates_rule_only (sample_store rule_acm) 1
                (set_window 7200000 3600000)) as H.
  cbv zeta in H. destruct H as (_ & _ & H & _).
  destruct (H (contest rule_acm [1%N])) as [_ H']; [done | done |].
  destruct H' as (tdoc' & He & _ & _ & Hb & Hen & _);
    [by exists rule_acm|].
  exists tdoc'. by rewrite He.
Defined.

(** X6. [add] and [edit] against the lifecycle tests. A contest stored by
    [add] is, at every instant, in exactly one of the three phases. [edit]
    accepts a window that ends before it begins, on any existing contest
    of one of the three rules, and at the instants between the contest it
    leaves is not started and done at once; on a contest whose rule name
    is none of the three it throws a type error, as any [edit] does. *)
Theorem edit_can_invert_window (st : Store)
    (checkTitle checkContent : string → result unit)
    (title content : string) (owner : N) (name : string)
    (beginAt endAt : Date) (pids : list N) (rated : bool) (data : Tdoc) :
  (∀ st' tid tdoc now,
     add checkTitle checkContent st title content owner name beginAt endAt
       pids rated data = (st', Ok tid) →
     get st' tid = Ok tdoc → phases tdoc now = 1%nat)
  ∧ (∀ tid b e now tdoc0,
       contests st !! tid = Some tdoc0 → e ≤ now < b →
       ((∃ ru, rule tdoc0 = rule_name ru) →
        ∃ tdoc,
          edit st tid (set_window b e) = (document_set st tid tdoc, Ok tdoc)
          ∧ get (document_set st tid tdoc) tid = Ok tdoc
          ∧ isNotStarted tdoc now = true ∧ isDone tdoc now = true
          ∧ phases tdoc now = 2%nat)
       ∧ ((∀ ru, rule tdoc0 ≠ rule_name ru) →
          edit st tid (set_window b e) = (st, Throw TypeError))).
Proof.
  split.
  - intros st' tid tdoc now. rewrite add_outcome.
    destruct (checkTitle title) as [[]|e1]; simpl; [|done].
    destruct (checkContent content) as [[]|e2]; simpl; [|done].
    destruct (RULES name) as [ru| |]; simpl; [| |done];
      (case_bool_decide as Hwin; simpl; [done|]); [|done].
    intros [= <- <-]. unfold get. simpl. rewrite lookup_insert_eq.
    intros [= <-]. unfold phases, isNotStarted, isOngoing, isDone. simpl.
    repeat case_bool_decide; simpl; lia.
  - intros tid b e now tdoc0 Htdoc Hnow. unfold edit, get, RULES_check.
    rewrite Htdoc. simpl. split.
    + intros [ru ->]. rewrite RULES_called_rule_name. simpl.
      eexists. split; [done|].
      rewrite lookup_insert_eq. split; [done|].
      unfold phases, isNotStarted, isOngoing, isDone. simpl.
      repeat case_bool_decide; simpl; split_and!; try done; lia.
    + intros Hother. by rewrite RULES_called_other.
Qed.

Lemma edit_can_invert_window_witness :
  ∃ tdoc,
    edit (sample_store rule_acm) 1 (set_window 7200000 3600000)
    = (document_set (sample_store rule_acm) 1 tdoc, Ok tdoc)
    ∧ phases tdoc 5000000 = 2%nat.
Proof.
  destruct (edit_can_invert_window (sample_store rule_acm) accept_all
              accept_all "" "" 0 "acm" 0 1 [] false (contest rule_acm []))
    as [_ H].
  destruct (H 1%N 7200000 3600000 5000000 (contest rule_acm [1%N]))
    as [H' _]; [done | lia |].
  destruct H' as (tdoc & He & _ & _ & _ & Hp); [by exists rule_acm|].
  by exists tdoc.
Defined.

(** ** The journal in creation order *)

Lemma insert_by_time_created_at (t : Z) (j : jdoc) (l : list jdoc) :
  created_at t (insert_by_time j l) = created_at t (j :: l).
Proof.
  unfold created_at. induction l as [|x l IH]; simpl; [done|].
  destruct (Z.leb_spec (generationTime (rid j)) (generationTime (rid x)));
    [done|].
  rewrite (filter_cons _ x), IH, !filter_cons.
  repeat case_decide; try done; lia.
Qed.

Lemma sort_by_time_created_at (t : Z) (l : list jdoc) :
  created_at t (sort_by_time l) = created_at t l.
Proof.
  induction l as [|j l IH]; simpl; [done|].
  rewrite insert_by_time_created_at. unfold created_at in *.
  by rewrite !filter_cons, IH.
Qed.

Lemma sort_by_time_sorted_id (l : list jdoc) :
  Sorted by_time l → sort_by_time l = l.
Proof.
  induction 1 as [|x l Hl IH Hhd]; simpl; [done|].
  rewrite IH. destruct Hhd as [|y l' Hxy]; simpl; [done|].
  unfold by_time in Hxy.
  destruct (Z.leb_spec (generationTime (rid x)) (generationTime (rid y)));
    [done | lia].
Qed.

(** X7. [_getStatusJournal] throws a type error on a record without a
    journal. On a journal it returns the same entries in ascending order of
    creation, entries created in the same second in the order they had;
    a journal already in order is returned as it is, so sorting again
    changes nothing. *)
Theorem getStatusJournal_stable (tsdoc : Tsdoc) :
  (ts_journal tsdoc = None → _getStatusJournal tsdoc = Throw TypeError)
  ∧ (∀ journal, ts_journal tsdoc = Some journal →
       ∃ sorted,
         _getStatusJournal tsdoc = Ok sorted
         ∧ Sorted by_time sorted
         ∧ sorted ≡ₚ journal
         ∧ (∀ t, created_at t sorted = created_at t journal)
         ∧ (Sorted by_time journal → sorted = journal)
         ∧ sort_by_time sorted = sorted).
Proof.
  unfold _getStatusJournal. split; [by intros ->|].
  intros journal ->. exists (sort_by_time journal). split_and!.
  - done.
  - apply sort_by_time_Sorted.
  - apply sort_by_time_Permutation.
  - intros t. apply sort_by_time_created_at.
  - apply sort_by_time_sorted_id.
  - apply sort_by_time_sorted_id, sort_by_time_Sorted.
Qed.

Lemma getStatusJournal_stable_witness :
  ∃ sorted,
    _getStatusJournal
      (set_stats [entry 20 1 true 0; entry 10 2 false 0; entry 10 1 false 0]
         (OiStats {| oi.s_score := 0; oi.s_detail := ∅ |})
         (participant 7 None))
    = Ok sorted
    ∧ created_at 10 sorted = [entry 10 2 false 0; entry 10 1 false 0].
Proof.
  destruct (getStatusJournal_stable
    (set_stats [entry 20 1 true 0; entry 10 2 false 0; entry 10 1 false 0]
       (OiStats {| oi.s_score := 0; oi.s_detail := ∅ |}) (participant 7 None)))
    as [_ H].
  destruct (H _ eq_refl) as (sorted & Hs & _ & _ & Hc & _).
  exists sorted. split; [done|]. by rewrite Hc.
Defined.

(** ** What the aggregators ignore and keep *)

Lemma foldl_filter_skip {A S} (P : A → Prop) `{∀ x, Decision (P x)}
    (f : S → A → S) (l : list A) (s : S) :
  (∀ s x, ¬ P x → f s x = s) →
  foldl f s (filter P l) = foldl f s l.
Proof.
  intros Hskip. revert s. induction l as [|x l IH]; intros s; [done|].
  rewrite filter_cons. case_decide as Hx; simpl; [done|].
  by rewrite (Hskip s x Hx).
Qed.

Lemma includes_not (l : list N) (p : N) : p ∉ l → includes l p = false.
Proof. intros Hp. unfold includes. by apply bool_decide_eq_false_2. Qed.

Lemma acm_select_contest_entries (tdoc : Tdoc) (journal : list jdoc) :
  acm.select tdoc (contest_entries tdoc journal) = acm.select tdoc journal.
Proof.
  unfold acm.select, contest_entries. apply foldl_filter_skip.
  intros s j Hj. unfold acm.select_step.
  by rewrite (includes_not _ _ Hj).
Qed.

(** X8. What [acm.stat] ignores: the entries for problems that are not
    problems of the contest, and an entry for a problem whose retained
    entry is already an acceptance. *)
Theorem acm_stat_ignores (tdoc : Tdoc) (journal : list jdoc) :
  acm.stat tdoc (contest_entries tdoc journal) = acm.stat tdoc journal
  ∧ (∀ j, pid j ∉ pids tdoc →
       acm.stat tdoc (journal ++ [j]) = acm.stat tdoc journal)
  ∧ (∀ j e, retained (entries_for tdoc (pid j) journal) = Some e →
       accept e = true →
       acm.stat tdoc (journal ++ [j]) = acm.stat tdoc journal).
Proof.
  assert (∀ j, acm.select_step tdoc (acm.select tdoc journal) j
               = acm.select tdoc journal →
               acm.stat tdoc (journal ++ [j]) = acm.stat tdoc journal)
    as Hstep.
  { intros j Hj. unfold acm.stat.
    replace (acm.select tdoc (journal ++ [j]))
      with (acm.select tdoc journal); [done|].
    unfold acm.select in *. by rewrite foldl_app. }
  split_and!.
  - unfold acm.stat. by rewrite acm_select_contest_entries.
  - intros j Hj. apply Hstep. unfold acm.select_step.
    by rewrite (includes_not _ _ Hj).
  - intros j e He Hacc. apply Hstep. unfold acm.select_step.
    rewrite (proj1 (acm_select_per_problem tdoc journal (pid j))), He.
    simpl. rewrite Hacc. by rewrite andb_false_r.
Qed.

Lemma acm_stat_ignores_witness :
  acm.stat (contest rule_acm [1%N])
    ([entry 10 1 true 100] ++ [entry 20 1 false 0])
  = acm.stat (contest rule_acm [1%N]) [entry 10 1 true 100].
Proof.
  destruct (acm_stat_ignores (contest rule_acm [1%N]) [entry 10 1 true 100])
    as (_ & _ & H).
  by apply (H (entry 20 1 false 0) (entry 10 1 true 100)).
Defined.

Global Instance key_le_trans {V} : Transitive (@key_le V).
Proof. intros a b c. unfold key_le. lia. Qed.

Global Instance key_le_total {V} : Total (@key_le V).
Proof. intros a b. unfold key_le. lia. Qed.

Lemma StronglySorted_le_lt (l : list N) :
  StronglySorted N.le l → NoDup l → StronglySorted N.lt l.
Proof.
  induction 1 as [|x l Hl IH Hx]; intros Hnd; [constructor|].
  apply list.NoDup_cons in Hnd as [Hnotin Hnd]. constructor; [by apply IH|].
  rewrite list.Forall_forall in *. intros y Hy.
  specialize (Hx y Hy). assert (x ≠ y) by (by intros ->). lia.
Qed.

(** The keys that [for ... in] visits: each key once, in ascending
    order. *)
Lemma for_in_keys {V} (m : gmap N V) :
  StronglySorted N.lt (map fst (for_in m)).
Proof.
  apply StronglySorted_le_lt.
  - apply (StronglySorted_fmap fst key_le N.le); [by intros a b|].
    unfold for_in. apply StronglySorted_merge_sort; apply _.
  - unfold for_in. rewrite merge_sort_Permutation.
    apply NoDup_fst_map_to_list.
Qed.

Lemma acm_effective_entry (tdoc : Tdoc) (journal : list jdoc) (k : N)
    (j : jdoc) :
  (acm.select tdoc journal).1 !! k = Some j →
  pid j = k ∧ k ∈ pids tdoc ∧ j ∈ journal.
Proof.
  rewrite (proj1 (acm_select_per_problem tdoc journal k)).
  intros H%retained_elem. by apply entries_for_pid.
Qed.

(** X9. The [detail] of [acm.stat] holds at most one element per contest
    problem: the problems of its elements are in strictly ascending order,
    each of them is a problem of the contest and each element is an entry
    of the journal; so [detail] is not longer than the problem list, and
    the accept count lies between 0 and the length of [detail]. *)
Theorem acm_stat_detail_shape (tdoc : Tdoc) (journal : list jdoc) :
  let s := acm.stat tdoc journal in
  StronglySorted N.lt (map (λ d, pid (item d)) (acm.s_detail s))
  ∧ (∀ d, d ∈ acm.s_detail s →
       pid (item d) ∈ pids tdoc ∧ item d ∈ journal)
  ∧ (length (acm.s_detail s) ≤ length (pids tdoc))%nat
  ∧ 0 ≤ acm.s_accept s ≤ Z.of_nat (length (acm.s_detail s)).
Proof.
  intros s.
  assert (map (λ d, pid (item d)) (acm.s_detail s)
          = map fst (for_in (acm.select tdoc journal).1)) as Hkeys.
  { unfold s, acm.stat. cbn [acm.s_detail]. rewrite map_map.
    apply map_ext_in. intros [k j] Hin%list_elem_of_In%for_in_elem.
    destruct (acm_effective_entry _ _ _ _ Hin) as [Hp _]. simpl. exact Hp. }
  assert (∀ d, d ∈ acm.s_detail s →
            pid (item d) ∈ pids tdoc ∧ item d ∈ journal) as Hin.
  { intros d. unfold s, acm.stat. cbn [acm.s_detail].
    rewrite list_elem_of_fmap. intros ([k j] & -> & Hkj%for_in_elem).
    destruct (acm_effective_entry _ _ _ _ Hkj) as (Hp & ? & ?). simpl.
    by rewrite Hp. }
  assert (StronglySorted N.lt (map (λ d, pid (item d)) (acm.s_detail s)))
    as Hsorted by (rewrite Hkeys; apply for_in_keys).
  destruct (acm_totals tdoc journal) as [Hacc _]. fold s in Hacc.
  split_and!; [done | done | | lia |].
  - rewrite <- (length_map (λ d, pid (item d))).
    apply submseteq_length, NoDup_submseteq.
    + clear -Hsorted. induction Hsorted as [|x l Hl IH Hx]; constructor.
      * rewrite list.Forall_forall in Hx. intros Hxl.
        specialize (Hx x Hxl). lia.
      * done.
    + intros p (d & -> & Hd)%list_elem_of_fmap. by apply Hin.
  - rewrite Hacc. apply inj_le, length_filter.
Qed.

(** X10. [oi.stat] ignores the entries for problems that are not problems
    of the contest. Over a journal in two parts the total score is the sum
    of the totals of the parts, and the detail holds the entry of the
    second part where it has one and that of the first part elsewhere. The
    detail has an entry exactly for the contest problems that the journal
    has an entry for. *)
Theorem oi_stat_composes (tdoc : Tdoc) (l1 l2 : list jdoc) :
  oi.stat tdoc (contest_entries tdoc l1) = oi.stat tdoc l1
  ∧ oi.s_score (oi.stat tdoc (l1 ++ l2))
    = oi.s_score (oi.stat tdoc l1) + oi.s_score (oi.stat tdoc l2)
  ∧ (∀ p, oi.s_detail (oi.stat tdoc (l1 ++ l2)) !! p
          = match oi.s_detail (oi.stat tdoc l2) !! p with
            | Some j => Some j
            | None => oi.s_detail (oi.stat tdoc l1) !! p
            end)
  ∧ (∀ p, is_Some (oi.s_detail (oi.stat tdoc l1) !! p)
          ↔ p ∈ pids tdoc ∧ ∃ j, j ∈ l1 ∧ pid j = p).
Proof.
  split_and!.
  - unfold oi.stat, contest_entries. apply foldl_filter_skip.
    intros s j Hj. unfold oi.stat_step.
    by rewrite (includes_not _ _ Hj).
  - unfold oi.stat. rewrite foldl_app.
    rewrite (proj2 (oi_stat_fold tdoc l2 _)).
    rewrite (proj2 (oi_stat_fold tdoc l2 {| oi.s_score := 0; oi.s_detail := ∅ |})).
    simpl. lia.
  - intros p. unfold oi.stat. rewrite foldl_app.
    rewrite (proj1 (oi_stat_fold tdoc l2 _)).
    rewrite (proj1 (oi_stat_fold tdoc l2 {| oi.s_score := 0; oi.s_detail := ∅ |})).
    simpl. rewrite lookup_empty. by destruct (list.last _).
  - intros p. unfold oi.stat. rewrite (proj1 (oi_stat_fold tdoc l1 _)).
    simpl. rewrite lookup_empty.
    destruct (list.last (entries_for tdoc p l1)) as [j|] eqn:Hlast.
    + split; [intros _|by eexists].
      apply last_Some_elem_of, entries_for_pid in Hlast as (? & ? & ?).
      eauto.
    + split; [by intros []%is_Some_None|].
      intros (Hin & j & Hj & Hp). apply last_None in Hlast.
      assert (j ∈ entries_for tdoc p l1) as Hj'.
      { unfold entries_for. by apply list_elem_of_filter. }
      rewrite Hlast in Hj'. by apply elem_of_nil in Hj'.
Qed.

(** ** The Assignment rule as it runs *)

Lemma homework_select_loop (tdoc : Tdoc) (journal l : list jdoc)
    (effective : gmap N jdoc) :
  (∀ p, is_Some (effective !! p) → is_Some (journal !! N.to_nat p)) →
  match for_of (homework.select_step tdoc journal) l effective with
  | Throw e =>
      e = TypeError
      ∧ ∃ j, j ∈ l ∧ pid j ∈ pids tdoc ∧ journal !! N.to_nat (pid j) = None
  | Ok m =>
      (∀ j, j ∈ l → pid j ∈ pids tdoc →
         is_Some (journal !! N.to_nat (pid j)))
      ∧ ∀ p, m !! p = match effective !! p with
                      | Some x => Some x
                      | None => selected tdoc journal l p
                      end
  end.
Proof.
  revert effective. induction l as [|j l IH]; intros effective Hinv.
  - simpl. split; [by intros j []%elem_of_nil|].
    intros p. unfold selected. simpl.
    destruct (effective !! p); [done|]. by case_decide.
  - simpl. unfold homework.select_step at 2.
    assert (∀ m : gmap N jdoc,
      (∀ p, m !! p = match effective !! p with
                     | Some x => Some x
                     | None => selected tdoc journal l p
                     end) →
      (pid j ∈ pids tdoc → effective !! pid j = None →
         indexed_accept journal (pid j) ≠ Some true) →
      ∀ p, m !! p = match effective !! p with
                    | Some x => Some x
                    | None => selected tdoc journal (j :: l) p
                    end) as Hskip.
    { intros m Hm Hj p. rewrite Hm.
      destruct (effective !! p) eqn:Hp; [done|].
      unfold selected. case_decide as Hc; [|done].
      rewrite filter_cons. case_decide as Hjp; [|done].
      subst p. destruct Hc as [Hin Hacc]. by destruct (Hj Hin Hp). }
    destruct (includes (pids tdoc) (pid j)) eqn:Hin; simpl.
    2:{ specialize (IH effective Hinv).
        destruct (for_of _ l effective) as [m|e]; simpl.
        - destruct IH as [Hsome Hm]. split.
          + intros x [->|Hx]%elem_of_cons Hxin; [|by apply Hsome].
            apply includes_spec in Hxin. congruence.
          + apply Hskip; [done|]. intros Hj%includes_spec. congruence.
        - destruct IH as (-> & x & Hx & ?). split; [done|].
          exists x. split; [by right | done]. }
    apply includes_spec in Hin.
    case_bool_decide as Heff; simpl.
    2:{ specialize (IH effective Hinv).
        assert (is_Some (effective !! pid j)) as Hsome'.
        { by destruct (effective !! pid j); [eexists|]. }
        destruct (for_of _ l effective) as [m|e]; simpl.
        - destruct IH as [Hsome Hm]. split.
          + intros x [->|Hx]%elem_of_cons Hxin; [by apply Hinv|].
            by apply Hsome.
          + apply Hskip; [done|]. intros _ Hnone. rewrite Hnone in Hsome'.
            by destruct Hsome'.
        - destruct IH as (-> & x & Hx & ?). split; [done|].
          exists x. split; [by right | done]. }
    destruct (journal !! N.to_nat (pid j)) as [e|] eqn:He; simpl.
    2:{ split; [done|]. exists j. split; [by left | done]. }
    destruct (accept e) eqn:Hacc.
    + specialize (IH (<[pid j := j]> effective)).
      destruct (for_of _ l (<[pid j := j]> effective)) as [m|e']; simpl.
      * destruct IH as [Hsome Hm].
        { intros p. destruct (decide (p = pid j)) as [->|Hne].
          - intros _. by rewrite He.
          - rewrite lookup_insert_ne by done. apply Hinv. }
        split.
        { intros x [->|Hx]%elem_of_cons Hxin; [by rewrite He|].
          by apply Hsome. }
        intros p. rewrite Hm. destruct (decide (p = pid j)) as [->|Hne].
        -- rewrite lookup_insert_eq, Heff. unfold selected.
           rewrite decide_True.
           ++ rewrite filter_cons. by rewrite decide_True.
           ++ split; [done|]. unfold indexed_accept. by rewrite He, <- Hacc.
        -- rewrite lookup_insert_ne by done.
           destruct (effective !! p); [done|]. unfold selected.
           case_decide; [|done]. rewrite filter_cons.
           by rewrite decide_False.
      * destruct IH as (-> & x & Hx & ?).
        { intros p. destruct (decide (p = pid j)) as [->|Hne].
          - intros _. by rewrite He.
          - rewrite lookup_insert_ne by done. apply Hinv. }
        split; [done|]. exists x. split; [by right | done].
    + specialize (IH effective Hinv).
      destruct (for_of _ l effective) as [m|e']; simpl.
      * destruct IH as [Hsome Hm]. split.
        { intros x [->|Hx]%elem_of_cons Hxin; [by rewrite He|].
          by apply Hsome. }
        apply Hskip; [done|]. intros _ _. unfold indexed_accept.
        rewrite He. simpl. by rewrite Hacc.
      * destruct IH as (-> & x & Hx & ?). split; [done|].
        exists x. split; [by right | done].
Qed.

(** X11. The selection of [homework.stat] throws, a type error, exactly
    when the journal has an entry for a contest problem whose id is not an
    index of the journal. When it returns, it has selected for a problem
    the first entry for it, provided the problem is one of the contest and
    the journal entry at the index of its id is an acceptance, and nothing
    otherwise. *)
Theorem homework_select_outcome (tdoc : Tdoc) (journal : list jdoc) :
  (∀ e, homework.select tdoc journal = Throw e → e = TypeError)
  ∧ (homework.select tdoc journal = Throw TypeError
     ↔ ∃ j, j ∈ journal ∧ pid j ∈ pids tdoc
            ∧ (length journal ≤ N.to_nat (pid j))%nat)
  ∧ (∀ m, homework.select tdoc journal = Ok m →
       ∀ p, m !! p = selected tdoc journal journal p).
Proof.
  unfold homework.select.
  pose proof (homework_select_loop tdoc journal journal ∅) as H.
  destruct (for_of _ journal ∅) as [m|e].
  - destruct H as [Hsome Hm].
    { intros p. rewrite lookup_empty. by intros []%is_Some_None. }
    split_and!; [done | |].
    + split; [done|]. intros (j & Hj & Hin & Hlen).
      destruct (Hsome j Hj Hin) as [x Hx].
      apply lookup_lt_Some in Hx. lia.
    + intros ? [= <-] p. by rewrite Hm, lookup_empty.
  - destruct H as (-> & j & Hj & Hin & Hnone).
    { intros p. rewrite lookup_empty. by intros []%is_Some_None. }
    split_and!; [by intros ? [= <-] | | done].
    split; [intros _|done]. exists j. split_and!; [done | done |].
    by apply lookup_ge_None.
Qed.

Lemma homework_select_outcome_witness :
  homework.select (contest rule_homework [2%N])
    [entry 10 2 true 100; entry 20 2 true 100]
  = Throw TypeError.
Proof.
  apply (proj1 (proj2 (homework_select_outcome _ _))).
  exists (entry 10 2 true 100). split_and!; [by left | by left | simpl; lia].
Defined.

(** X12. [homework.stat] has two outcomes. It returns, with an empty
    detail and the three totals 0, exactly when for every journal entry for
    a contest problem the journal entry at the index of the problem id
    exists and is a rejection; in every other case it throws a type
    error. *)
Theorem homework_stat_outcome (tdoc : Tdoc) (journal : list jdoc) :
  (homework.stat tdoc journal = Ok no_stats
   ∨ homework.stat tdoc journal = Throw TypeError)
  ∧ (homework.stat tdoc journal = Ok no_stats
     ↔ ∀ j, j ∈ journal → pid j ∈ pids tdoc →
         indexed_accept journal (pid j) = Some false).
Proof.
  unfold homework.stat.
  pose proof (homework_select_loop tdoc journal journal ∅) as H.
  fold (homework.select tdoc journal) in H.
  destruct (homework.select tdoc journal) as [m|e]; simpl.
  - destruct H as [Hsome Hm].
    { intros p. rewrite lookup_empty. by intros []%is_Some_None. }
    destruct (decide (for_in m = [])) as [Hnil|Hcons].
    + rewrite Hnil. simpl. split; [by left|]. split; [intros _|done].
      intros j Hj Hin. destruct (Hsome j Hj Hin) as [e He].
      unfold indexed_accept. rewrite He. simpl. f_equal.
      destruct (accept e) eqn:Hacc; [|done].
      assert (m !! pid j = None) as Hnone.
      { destruct (m !! pid j) as [x|] eqn:Hx; [|done].
        apply for_in_elem in Hx. rewrite Hnil in Hx.
        by apply elem_of_nil in Hx. }
      rewrite Hm, lookup_empty in Hnone. unfold selected in Hnone.
      rewrite decide_True in Hnone.
      * destruct (filter (λ j0, pid j0 = pid j) journal) as [|y l] eqn:Hf;
          [|done].
        assert (j ∈ filter (λ j0, pid j0 = pid j) journal) as Hjf
          by (by apply list_elem_of_filter).
        rewrite Hf in Hjf. by apply elem_of_nil in Hjf.
      * split; [done|]. unfold indexed_accept. by rewrite He, <- Hacc.
    + rewrite (mapM_throws _ _ TypeError);
        [|apply homework_mk_detail_throws|done]. simpl.
      split; [by right|]. split; [done|]. intros Hall. exfalso.
      destruct (for_in m) as [|[k x] l] eqn:Hfor; [done|].
      assert (m !! k = Some x) as Hk.
      { apply for_in_elem. rewrite Hfor. by left. }
      rewrite Hm, lookup_empty in Hk. unfold selected in Hk.
      case_decide as Hc; [|done]. destruct Hc as [Hin Hacc].
      assert (x ∈ filter (λ j, pid j = k) journal) as Hx.
      { destruct (filter _ journal) as [|y l']; [done|].
        simpl in Hk. injection Hk as ->. by left. }
      apply list_elem_of_filter in Hx as [Hpid Hx]. subst k.
      specialize (Hall x Hx Hin). congruence.
  - destruct H as (-> & j & Hj & Hin & Hnone).
    { intros p. rewrite lookup_empty. by intros []%is_Some_None. }
    split; [by right|]. split; [done|]. intros Hall.
    specialize (Hall j Hj Hin). unfold indexed_accept in Hall.
    by rewrite Hnone in Hall.
Qed.

Lemma homework_stat_outcome_witness :
  homework.stat (contest rule_homework [0%N; 1%N])
    [entry 10 0 false 0; entry 20 1 false 0] = Ok no_stats.
Proof.
  apply (proj2 (homework_stat_outcome _ _)).
  intros j [->|[->|[]%elem_of_nil]%elem_of_cons]%elem_of_cons _; done.
Defined.

Section coefficient.
Context (table : PenaltyRules) (exceed : Z).

Lemma coefficient_stopped (c : option float) (l : list float) :
  foldl (homework.coefficient_step table exceed) (c, false) l = (c, false).
Proof. induction l as [|i l IH]; [done | apply IH]. Qed.

(** The loop ends with what the table holds under the name of the last
    threshold reached. *)
Lemma coefficient_last (c : option float) (l : list float) :
  (foldl (homework.coefficient_step table exceed) (c, true) l).1
  = match list.last (reached exceed l) with
    | Some h => property table (Number_toString h)
    | None => c
    end.
Proof.
  revert c. induction l as [|h l IH]; intros c; [done|].
  cbn [foldl reached]. unfold homework.coefficient_step at 2. cbn [fst snd].
  destruct (f_leb (f_mul h (f_of_Z 3600)) (f_of_Z exceed)).
  - rewrite IH. destruct (reached exceed l) as [|h' l'] eqn:Hl; [done|].
    rewrite last_cons_cons.
    destruct (list.last (h' :: l')) eqn:Hlast; [done|].
    by apply last_None in Hlast.
  - by rewrite coefficient_stopped.
Qed.

End coefficient.



Lemma f_mul_nan (a : float) : f_mul a f_nan = f_nan.
Proof. by destruct a. Qed.

(** [penaltyScore] on a record with both penalty fields. *)
Lemma penaltyScore_late (tdoc : Tdoc) (j : jdoc) (since : Date)
    (table : PenaltyRules) :
  penaltySince tdoc = Some since →
  penaltyRules tdoc = Some table →
  let late := (1000 * generationTime (rid j) - getTime since) / 1000 in
  homework.penaltyScore tdoc j
  = Ok (if late <? 0 then f_of_Z (score j)
        else penalised table late (score j)).
Proof.
  intros Hsince Htable late.
  unfold homework.penaltyScore, homework.exceedSeconds.
  rewrite Hsince, Htable. cbn [mbind result_bind]. fold late.
  destruct (late <? 0); [done|].
  unfold homework.scale, homework.coefficient, penalised.
  rewrite coefficient_last.
  destruct (list.last _) as [h|]; [|done].
  destruct (property table (Number_toString h)) as [c|]; [done|].
  simpl. by rewrite f_mul_nan.
Qed.



(** X14. [time] of the Assignment rule, applied to an entry, counts the
    whole seconds between the beginning of the contest and the entry; it
    agrees with the seconds that [acm.stat] counts when the contest begins
    on a whole second and is one less otherwise. Applied to a key, as
    [homework.stat] applies it, it throws. *)
Theorem homework_time_rounding (tdoc : Tdoc) (j : jdoc) (k : N) :
  homework.time tdoc (homework.OfDoc j)
  = Ok (elapsed tdoc j
        - (if bool_decide (getTime (beginAt tdoc) mod 1000 = 0) then 0
           else 1))
  ∧ homework.time tdoc (homework.OfKey k) = Throw TypeError.
Proof.
  split; [|done]. unfold homework.time, elapsed, getTime. simpl. f_equal.
  pose proof (Z.div_mod (beginAt tdoc) 1000) as Hdiv.
  pose proof (Z.mod_pos_bound (beginAt tdoc) 1000) as Hmod.
  case_bool_decide as Hwhole; symmetry.
  - apply (Z.div_unique _ _ _ 0); lia.
  - apply (Z.div_unique _ _ _ (1000 - beginAt tdoc mod 1000)); lia.
Qed.

(** ** Tables *)

Lemma for_of_ext {A S} (f g : S → A → result S) (l : list A) (s : S) :
  (∀ s x, f s x = g s x) → for_of f l s = for_of g l s.
Proof.
  intros Hfg. revert s. induction l as [|x l IH]; intros s; simpl; [done|].
  rewrite Hfg. destruct (g s x); simpl; [apply IH | done].
Qed.

(** A loop whose turns each add [k] cells. *)
Lemma for_of_length {A B} (k : nat) (body : list B → A → result (list B))
    (l : list A) (s s' : list B) :
  (∀ s x s', body s x = Ok s' → length s' = (length s + k)%nat) →
  for_of body l s = Ok s' →
  length s' = (length s + k * length l)%nat.
Proof.
  intros Hbody. revert s. induction l as [|x l IH]; intros s; simpl.
  - intros [= <-]. lia.
  - destruct (body s x) as [s1|e] eqn:Hx; simpl; [|done].
    intros H. rewrite (IH _ H), (Hbody _ _ _ Hx). lia.
Qed.

(** A loop whose turns each push one row. *)
Lemma for_of_pushes {A B} (P : B → Prop) (body : list B → A → result (list B))
    (l : list A) (init out : list B) :
  (∀ rows x rows', body rows x = Ok rows' →
     ∃ r, rows' = rows ++ [r] ∧ P r) →
  for_of body l init = Ok out →
  ∃ rest, out = init ++ rest ∧ Forall P rest.
Proof.
  intros Hbody. revert init. induction l as [|x l IH]; intros init; simpl.
  - intros [= <-]. exists []. by rewrite app_nil_r.
  - destruct (body init x) as [rows|e] eqn:Hx; simpl; [|done].
    destruct (Hbody _ _ _ Hx) as (r & -> & Hr).
    intros (rest & -> & Hrest)%IH. exists (r :: rest).
    split; [by rewrite <- app_assoc | by constructor].
Qed.

Lemma length_concat_map {A B} (k : nat) (f : A → list B) (l : list A) :
  (∀ x, length (f x) = k) →
  length (concat (map f l)) = (k * length l)%nat.
Proof.
  intros Hf. induction l as [|x l IH]; simpl; [lia|].
  rewrite length_app, Hf, IH. lia.
Qed.

Lemma numbered_length (ps : list N) : length (numbered ps) = length ps.
Proof.
  unfold numbered. rewrite length_zip, length_seq. lia.
Qed.

Section table_shape.
Context (lib : Lib) (isExport : bool) (tdoc : Tdoc).
Context (rankedTsdocs : list (nat * Tsdoc)).
Context (udict : gmap N Udoc) (pdict : gmap N Pdoc).

Ltac header_width n :=
  intros Hcols; apply for_of_length with (k := n) in Hcols;
  [rewrite Hcols, numbered_length; destruct isExport; simpl; lia|];
  intros s [i p] s'; destruct isExport; [destruct (pdict !! p)|];
  intros [= <-]; rewrite length_app; simpl; lia.

Lemma acm_columns_width cols :
  acm.columns lib isExport tdoc pdict = Ok cols →
  length cols = width rule_acm isExport (length (pids tdoc)).
Proof.
  unfold acm.columns. cbv zeta.
  header_width (if isExport then 3 else 1)%nat.
Qed.

Lemma oi_columns_width cols :
  oi.columns lib isExport tdoc pdict = Ok cols →
  length cols = width rule_oi isExport (length (pids tdoc)).
Proof.
  unfold oi.columns. cbv zeta. header_width 1%nat.
Qed.

Lemma homework_columns_width cols :
  homework.columns lib isExport tdoc pdict = Ok cols →
  length cols = width rule_homework isExport (length (pids tdoc)).
Proof.
  unfold homework.columns. cbv zeta.
  header_width (if isExport then 4 else 1)%nat.
Qed.

Lemma acm_row_width rank tsdoc r :
  acm.row lib isExport tdoc udict rank tsdoc = Ok r →
  length r = width rule_acm isExport (length (pids tdoc)).
Proof.
  unfold acm.row. destruct (acm.tsddict tsdoc) as [dict|]; simpl; [|done].
  destruct (udict !! uid tsdoc); [|done]. intros [= <-].
  cbn [length]. rewrite !length_app.
  rewrite (length_concat_map (if isExport then 3 else 1)%nat).
  - destruct isExport; simpl; lia.
  - intros p. unfold acm.problem_cells.
    destruct (dict !! p) as [d|]; [destruct (accept (item d))|];
      by destruct isExport.
Qed.

Lemma oi_row_width rank tsdoc r :
  oi.row tdoc udict rank tsdoc = Ok r →
  length r = width rule_oi isExport (length (pids tdoc)).
Proof.
  unfold oi.row. destruct (udict !! uid tsdoc); [|done]. intros [= <-].
  cbn [app length]. rewrite length_map. simpl. lia.
Qed.

Lemma homework_row_width rank tsdoc r :
  homework.row lib isExport tdoc udict rank tsdoc = Ok r →
  length r = width rule_homework isExport (length (pids tdoc)).
Proof.
  unfold homework.row. destruct (udict !! uid tsdoc); [|done].
  intros [= <-].
  repeat first [rewrite length_app | progress cbn [length app]].
  rewrite (length_concat_map (if isExport then 4 else 1)%nat).
  - destruct isExport; simpl; lia.
  - intros p. unfold homework.problem_cells. by destruct isExport.
Qed.

End table_shape.

(** X15. A table that a renderer returns is rectangular: it has a header
    row, and the header and every participant row have the number of cells
    that the rule, the mode and the number of contest problems give. *)
Theorem scoreboard_rectangular (r : rule_id) (lib : Lib) (isExport : bool)
    (tdoc : Tdoc) (rankedTsdocs : list (nat * Tsdoc))
    (udict : gmap N Udoc) (pdict : gmap N Pdoc)
    (rows : list (list ScoreboardNode)) :
  RULES_scoreboard r lib isExport tdoc rankedTsdocs udict pdict = Ok rows →
  rows ≠ []
  ∧ Forall (λ row, length row = width r isExport (length (pids tdoc))) rows.
Proof.
  rewrite RULES_scoreboard_rule. destruct r.
  - unfold acm.scoreboard.
    destruct (acm.columns lib isExport tdoc pdict) as [cols|] eqn:Hcols;
      simpl; [|done].
    intros (rest & -> & Hrest)%(for_of_pushes
      (λ row, length row = width rule_acm isExport (length (pids tdoc)))).
    + split; [done|]. constructor; [|done].
      exact (acm_columns_width _ _ _ _ _ Hcols).
    + intros rws [rk ts] rws'.
      destruct (acm.row lib isExport tdoc udict rk ts) as [row|] eqn:Hrow;
        simpl; [|done].
      intros [= <-]. exists row. split; [done|].
      exact (acm_row_width _ _ _ _ _ _ _ Hrow).
  - unfold oi.scoreboard.
    destruct (oi.columns lib isExport tdoc pdict) as [cols|] eqn:Hcols;
      simpl; [|done].
    intros (rest & -> & Hrest)%(for_of_pushes
      (λ row, length row = width rule_oi isExport (length (pids tdoc)))).
    + split; [done|]. constructor; [|done].
      exact (oi_columns_width _ _ _ _ _ Hcols).
    + intros rws [rk ts] rws'.
      destruct (oi.row tdoc udict rk ts) as [row|] eqn:Hrow; simpl; [|done].
      intros [= <-]. exists row. split; [done|].
      exact (oi_row_width isExport _ _ _ _ _ Hrow).
  - unfold homework.scoreboard.
    destruct (homework.columns lib isExport tdoc pdict) as [cols|] eqn:Hcols;
      simpl; [|done].
    intros (rest & -> & Hrest)%(for_of_pushes
      (λ row, length row = width rule_homework isExport (length (pids tdoc)))).
    + split; [done|]. constructor; [|done].
      exact (homework_columns_width _ _ _ _ _ Hcols).
    + intros rws [rk ts] rws'.
      destruct (homework.row lib isExport tdoc udict rk ts) as [row|]
        eqn:Hrow; simpl; [|done].
      intros [= <-]. exists row. split; [done|].
      exact (homework_row_width _ _ _ _ _ _ _ Hrow).
Qed.

Lemma scoreboard_rectangular_witness :
  ∃ rows,
    RULES_scoreboard rule_homework sample_lib true
      (contest rule_homework [1%N])
      (homework.rank [participant 7 None; participant 8 None])
      sample_users sample_problems = Ok rows
    ∧ Forall (λ row, length row = 10%nat) rows.
Proof.
  eexists. split; [by vm_compute|].
  eapply (proj2 (scoreboard_rectangular rule_homework sample_lib true
                   (contest rule_homework [1%N])
                   (homework.rank [participant 7 None; participant 8 None])
                   sample_users sample_problems _ _)).
  Unshelve. by vm_compute.
Defined.

(** X16. The interactive rendering does not read the problem directory: it
    gives the same result with any two directories, the empty one
    included. Under the OI rule the participant rows do not depend on the
    mode: when both renderings return, their tables differ in the header
    row at most. *)
Theorem scoreboard_interactive_without_titles (r : rule_id) (lib : Lib)
    (tdoc : Tdoc) (rankedTsdocs : list (nat * Tsdoc))
    (udict : gmap N Udoc) (pdict pdict' : gmap N Pdoc) :
  RULES_scoreboard r lib false tdoc rankedTsdocs udict pdict
  = RULES_scoreboard r lib false tdoc rankedTsdocs udict pdict'
  ∧ (∀ exported interactive,
       oi.scoreboard lib true tdoc rankedTsdocs udict pdict = Ok exported →
       oi.scoreboard lib false tdoc rankedTsdocs udict pdict'
       = Ok interactive →
       tail exported = tail interactive).
Proof.
  split.
  - rewrite !RULES_scoreboard_rule. destruct r.
    + unfold acm.scoreboard.
      replace (acm.columns lib false tdoc pdict)
        with (acm.columns lib false tdoc pdict'); [done|].
      apply for_of_ext. by intros s [i p].
    + unfold oi.scoreboard.
      replace (oi.columns lib false tdoc pdict)
        with (oi.columns lib false tdoc pdict'); [done|].
      apply for_of_ext. by intros s [i p].
    + unfold homework.scoreboard.
      replace (homework.columns lib false tdoc pdict)
        with (homework.columns lib false tdoc pdict'); [done|].
      apply for_of_ext. by intros s [i p].
  - intros exported interactive. unfold oi.scoreboard.
    destruct (oi.columns lib true tdoc pdict) as [cols|]; simpl; [|done].
    destruct (oi.columns lib false tdoc pdict') as [cols'|]; simpl; [|done].
    assert (∀ init init' out out',
      for_of (λ rows '(rank, tsdoc),
                r ← oi.row tdoc udict rank tsdoc; Ok (rows ++ [r]))
        rankedTsdocs init = Ok out →
      for_of (λ rows '(rank, tsdoc),
                r ← oi.row tdoc udict rank tsdoc; Ok (rows ++ [r]))
        rankedTsdocs init' = Ok out' →
      ∃ rest, out = init ++ rest ∧ out' = init' ++ rest) as Hloop.
    { induction rankedTsdocs as [|[rk ts] l IH]; intros init init' out out';
        simpl.
      - intros [= <-] [= <-]. exists []. by rewrite !app_nil_r.
      - destruct (oi.row tdoc udict rk ts) as [row|]; simpl; [|done].
        intros H1 H2. destruct (IH _ _ _ _ H1 H2) as (rest & -> & ->).
        exists (row :: rest). by rewrite <- !app_assoc. }
    intros H1 H2. by destruct (Hloop _ _ _ _ H1 H2) as (rest & -> & ->).
Qed.

Lemma scoreboard_interactive_without_titles_witness :
  tail <$> oi.scoreboard sample_lib true (contest rule_oi [1%N])
             (oi.rank [participant 7 (Some (Num 70))]) sample_users
             sample_problems
  = tail <$> oi.scoreboard sample_lib false (contest rule_oi [1%N])
               (oi.rank [participant 7 (Some (Num 70))]) sample_users ∅.
Proof.
  destruct (scoreboard_interactive_without_titles rule_oi sample_lib
              (contest rule_oi [1%N])
              (oi.rank [participant 7 (Some (Num 70))]) sample_users
              sample_problems ∅) as [_ H].
  destruct (oi.scoreboard sample_lib true _ _ _ _) as [exported|] eqn:He;
    [|by vm_compute in He].
  destruct (oi.scoreboard sample_lib false _ _ _ _) as [interactive|] eqn:Hi;
    [|by vm_compute in Hi].
  simpl. f_equal. by apply H.
Defined.

(** ** The scoreboard of a contest *)

(** What the two visibility tests of the handler give, by the rule. *)
Lemma canShowScoreboard_rule (r : rule_id) (hasPerm : bool) (tdoc : Tdoc)
    (now : Date) (allowPermOverride : bool) :
  rule tdoc = rule_name r →
  canShowScoreboard hasPerm tdoc now allowPermOverride
  = Ok match r with
       | rule_oi => bool_decide (endAt tdoc < now)
                    || allowPermOverride && hasPerm
       | _ => true
       end.
Proof.
  intros Hr. unfold canShowScoreboard, canViewHiddenScoreboard.
  rewrite Hr, RULES_showScoreboard_rule. simpl.
  destruct r; try done. unfold oi.showScoreboard.
  by destruct (bool_decide _), allowPermOverride, hasPerm.
Qed.

Lemma canShowRecord_rule (r : rule_id) (hasPerm : bool) (tdoc : Tdoc)
    (now : Date) (allowPermOverride : bool) :
  rule tdoc = rule_name r →
  canShowRecord hasPerm tdoc now allowPermOverride
  = Ok match r with
       | rule_homework => true
       | _ => bool_decide (endAt tdoc < now)
              || allowPermOverride && hasPerm
       end.
Proof.
  intros Hr. unfold canShowRecord, canViewHiddenScoreboard.
  rewrite Hr, RULES_showRecord_rule. simpl.
  destruct r; try done.
  - unfold acm.showRecord.
    by destruct (bool_decide _), allowPermOverride, hasPerm.
  - unfold oi.showRecord.
    by destruct (bool_decide _), allowPermOverride, hasPerm.
Qed.

Lemma canShow_other (hasPerm : bool) (tdoc : Tdoc) (now : Date)
    (allowPermOverride : bool) :
  (∀ r, rule tdoc ≠ rule_name r) →
  canShowScoreboard hasPerm tdoc now allowPermOverride = Throw TypeError
  ∧ canShowRecord hasPerm tdoc now allowPermOverride = Throw TypeError.
Proof.
  intros Hother.
  unfold canShowScoreboard, canShowRecord, RULES_showScoreboard,
    RULES_showRecord.
  by rewrite RULES_called_other.
Qed.

(** A rule name is one of the three or none of them. *)
Lemma rule_name_cases (name : string) :
  (∃ r, name = rule_name r) ∨ (∀ r, name ≠ rule_name r).
Proof.
  destruct (RULES name) as [r| |] eqn:Hr.
  - left. exists r. by apply RULES_Rule.
  - right. intros r ->. by rewrite RULES_rule_name in Hr.
  - right. intros r ->. by rewrite RULES_rule_name in Hr.
Qed.

(** X17. [getScoreboard] throws the not-found error for a missing contest
    and the scoreboard-hidden error exactly for an OI contest that has not
    ended, seen without the permission to view hidden scoreboards: a
    scoreboard of the ACM or the Assignment rule is never hidden. For a
    contest whose rule name is none of the three it throws a type error.
    Otherwise it renders the status records of the contest as the rule
    ranks them, with the directories looked up for their participants and
    the contest problems; when these hold the entries that are looked up
    the table has a header row and one row per status record of the
    contest. *)
Theorem getScoreboard_outcomes (lib : Lib) (hasPerm : bool) (now : Date)
    (user_getList : list N → gmap N Udoc)
    (problem_getList : list N → gmap N Pdoc)
    (st : Store) (tid : N) (isExport : bool) :
  let result :=
    getScoreboard lib hasPerm now user_getList problem_getList st tid
      isExport in
  (contests st !! tid = None → result = Throw ContestNotFoundError)
  ∧ (∀ tdoc, contests st !! tid = Some tdoc →
       let tsdocs := getMultiStatus st tid in
       let udict := user_getList (map uid tsdocs) in
       let pdict := problem_getList (pids tdoc) in
       (canShowScoreboard hasPerm tdoc now true = Ok false
        ↔ hidden hasPerm tdoc now)
       ∧ (hidden hasPerm tdoc now →
            result = Throw ContestScoreboardHiddenError)
       ∧ ((∀ r, rule tdoc ≠ rule_name r) → result = Throw TypeError)
       ∧ (∀ rankedTsdocs,
            RULES_rank (rule tdoc) tsdocs = Ok rankedTsdocs →
            (¬ hidden hasPerm tdoc now →
               result
               = (λ rows, (tdoc, rows, udict))
                 <$> RULES_scoreboard (rule tdoc) lib isExport tdoc
                       rankedTsdocs udict pdict)
            ∧ (¬ hidden hasPerm tdoc now →
               renderable (rule tdoc) tdoc rankedTsdocs udict pdict →
               ∃ rows, result = Ok (tdoc, rows, udict)
                       ∧ length rows = S (length tsdocs)
                       ∧ rank_column rows
                         = map (λ x, Some (rank_cell x.1)) rankedTsdocs))).
Proof.
  intros result. unfold result, getScoreboard, get. split.
  - by intros ->.
  - intros tdoc ->. cbv zeta. cbn [mbind result_bind].
    destruct (rule_name_cases (rule tdoc)) as [[r Hr]|Hother].
    2:{ destruct (canShow_other hasPerm tdoc now true Hother) as [-> _].
        unfold RULES_rank. rewrite RULES_called_other by done.
        split_and!; [|by intros (Hoi & _); destruct (Hother rule_oi)
                     |done|done].
        split; [done|]. intros (Hoi & _). by destruct (Hother rule_oi). }
    rewrite (canShowScoreboard_rule r) by done.
    assert ((match r with
             | rule_oi => bool_decide (endAt tdoc < now) || true && hasPerm
             | _ => true
             end) = false ↔ hidden hasPerm tdoc now) as Hhid.
    { unfold hidden. rewrite Hr.
      destruct r, hasPerm; simpl; try case_bool_decide;
        split; try done; try (intros (? & ? & ?); done);
        try (intros (? & ? & ?); lia); intros; split_and!; try done; lia. }
    split_and!.
    + split; [intros [= H]; by apply Hhid | intros H; f_equal; by apply Hhid].
    + intros Hh%Hhid. by rewrite Hh.
    + intros Hother. by destruct (Hother r).
    + rewrite Hr, RULES_rank_rule. intros rankedTsdocs [= <-].
      assert (¬ hidden hasPerm tdoc now →
              match r with
              | rule_oi => bool_decide (endAt tdoc < now) || true && hasPerm
              | _ => true
              end = true) as Hshown.
      { intros Hn. destruct (match r with rule_oi => _ | _ => true end);
          [done|]. by destruct Hn; apply Hhid. }
      split.
      * intros Hn. rewrite (Hshown Hn). simpl.
        by destruct (RULES_scoreboard _ _ _ _ _ _ _).
      * intros Hn Hrender. rewrite (Hshown Hn). simpl.
        match goal with
        | |- context [RULES_scoreboard _ _ _ _ ?ranked ?udict ?pdict] =>
            assert (ranked_table ranked
                      (RULES_scoreboard r lib isExport tdoc ranked udict
                         pdict)) as (rows & -> & Hl & Hc)
        end.
        { rewrite RULES_scoreboard_rule. destruct r.
          - by apply acm_scoreboard_table.
          - by apply oi_scoreboard_table.
          - by apply homework_scoreboard_table. }
        exists rows. simpl. split_and!; [done | | done].
        rewrite Hl. f_equal. destruct r; apply ranked_from_length.
Qed.

Lemma getScoreboard_outcomes_witness :
  getScoreboard sample_lib false 5000 (λ _, sample_users)
    (λ _, sample_problems) (sample_store rule_oi) 1 false
  = Throw ContestScoreboardHiddenError.
Proof.
  destruct (getScoreboard_outcomes sample_lib false 5000 (λ _, sample_users)
              (λ _, sample_problems) (sample_store rule_oi) 1 false)
    as [_ H].
  destruct (H (contest rule_oi [1%N]) eq_refl) as (_ & Hh & _).
  apply Hh. split_and!; [done | simpl; lia | done].
Defined.

(** ** Bulk recalculation *)

Lemma getMultiStatus_elem (st : Store) (tid : N) (ts : Tsdoc) :
  ts ∈ getMultiStatus st tid ↔ ∃ u, statuses st !! (tid, u) = Some ts.
Proof.
  unfold getMultiStatus.
  change (map snd ?l) with (snd <$> l). rewrite list_elem_of_fmap. split.
  - intros ([[t u] ts'] & -> & [Ht Hin]%list_elem_of_filter). simpl in *.
    subst t. exists u. by apply elem_of_map_to_list.
  - intros (u & Hu). exists ((tid, u), ts). split; [done|].
    apply list_elem_of_filter. split; [done|]. by apply elem_of_map_to_list.
Qed.

Lemma getMultiStatus_keyed (st : Store) (tid : N) (ts : Tsdoc) :
  keyed st →
  ts ∈ getMultiStatus st tid ↔ statuses st !! (tid, uid ts) = Some ts.
Proof.
  intros Hk. rewrite getMultiStatus_elem. split; [|by exists (uid ts)].
  intros (u & Hu). by rewrite (Hk _ _ Hu).
Qed.

Lemma getMultiStatus_uids (st : Store) (tid : N) :
  keyed st → NoDup (map uid (getMultiStatus st tid)).
Proof.
  intros Hk. unfold getMultiStatus.
  change (map uid (map snd ?l)) with (uid <$> (snd <$> l)).
  rewrite <- list_fmap_compose. apply NoDup_fmap_2_strong.
  - intros [[t u] ts] [[t' u'] ts'] [Ht Hin]%list_elem_of_filter
      [Ht' Hin']%list_elem_of_filter Hu. simpl in *. subst t t'.
    apply elem_of_map_to_list in Hin, Hin'.
    rewrite (Hk _ _ Hin), (Hk _ _ Hin') in Hu. simpl in Hu. subst u'.
    congruence.
  - apply list.NoDup_filter, NoDup_map_to_list.
Qed.

(** The loop of [recalcStatus] over records the store still holds as they
    were read: every conditional write goes through. *)
Lemma recalc_loop_writes (tdoc : Tdoc) (tid : N) (l : list Tsdoc) :
  ∀ st,
    NoDup (map uid l) →
    (∀ ts, ts ∈ l → statuses st !! (tid, uid ts) = Some ts) →
    (∀ ts, ts ∈ l → ∃ ts', recalculated tdoc ts = Ok ts') →
    ∃ st' tasks,
      recalc_loop (Some tdoc) tid st l = (st', Ok tasks)
      ∧ contests st' = contests st
      ∧ Forall is_Some tasks
      ∧ length tasks
        = length (filter (λ ts, is_Some (ts_journal ts)) l)
      ∧ (∀ ts, ts ∈ l →
           Ok <$> statuses st' !! (tid, uid ts)
           = Some (recalculated tdoc ts))
      ∧ (∀ k, (∀ ts, ts ∈ l → k ≠ (tid, uid ts)) →
           statuses st' !! k = statuses st !! k).
Proof.
  induction l as [|ts l IH]; intros st Hnd Hst Hok.
  { exists st, []. simpl. split_and!; try done. intros ts Hts.
    by apply elem_of_nil in Hts. }
  simpl in Hnd. apply list.NoDup_cons in Hnd as [Hnotin Hnd].
  assert (∀ ts', ts' ∈ l → uid ts' ≠ uid ts) as Hne.
  { intros ts' Hin Heq. apply Hnotin. rewrite <- Heq.
    change (map uid l) with (uid <$> l). by apply list_elem_of_fmap_2. }
  pose proof (Hst ts (list_elem_of_here _ _)) as Hts.
  destruct (Hok ts (list_elem_of_here _ _)) as (ts1 & Hts1).
  simpl. unfold recalc_step, _getStatusJournal.
  unfold recalculated in Hts1.
  destruct (ts_journal ts) as [journal|] eqn:Hj; simpl.
  - destruct (RULES_stat (rule tdoc) tdoc (sort_by_time journal))
      as [stats|] eqn:Hstat; simpl in Hts1 |- *; [|done].
    injection Hts1 as <-.
    unfold revSetStatus. rewrite Hts, bool_decide_eq_true_2 by done.
    set (new := bump_rev (set_stats (sort_by_time journal) stats ts)).
    destruct (IH (put_status st tid (uid ts) new) Hnd)
      as (st' & tasks & -> & Hc & Hall & Hlen & Hin & Hout).
    { intros ts' Hts'. simpl. rewrite lookup_insert_ne.
      - apply Hst. by apply list_elem_of_further.
      - intros [= Heq]. by apply (Hne ts'). }
    { intros ts' Hts'. apply Hok. by apply list_elem_of_further. }
    exists st', (Some new :: tasks). split_and!.
    + done.
    + done.
    + by constructor.
    + rewrite filter_cons_True by (by rewrite Hj). simpl. by rewrite Hlen.
    + intros ts' [->|Hin']%elem_of_cons.
      * rewrite Hout.
        -- simpl. rewrite lookup_insert_eq. simpl. unfold recalculated.
           by rewrite Hj, Hstat.
        -- intros ts' Hts' [= Heq]. by apply (Hne ts').
      * by apply Hin.
    + intros k Hk. rewrite Hout.
      * simpl. rewrite lookup_insert_ne; [done|].
        intros Heq. by apply (Hk ts (list_elem_of_here _ _)).
      * intros ts' Hts'. apply Hk. by apply list_elem_of_further.
  - injection Hts1 as <-.
    destruct (IH st Hnd) as (st' & tasks & -> & Hc & Hall & Hlen & Hin & Hout).
    { intros ts' Hts'. apply Hst. by apply list_elem_of_further. }
    { intros ts' Hts'. apply Hok. by apply list_elem_of_further. }
    exists st', tasks. split_and!.
    + done.
    + done.
    + done.
    + rewrite filter_cons_False; [done|]. rewrite Hj. by intros [? ?].
    + intros ts' [->|Hin']%elem_of_cons.
      * rewrite Hout.
        -- rewrite Hts. simpl. unfold recalculated. by rewrite Hj.
        -- intros ts' Hts' [= Heq]. by apply (Hne ts').
      * by apply Hin.
    + intros k Hk. apply Hout.
      intros ts' Hts'. apply Hk. by apply list_elem_of_further.
Qed.

Lemma recalculated_uid (tdoc : Tdoc) (ts ts' : Tsdoc) :
  recalculated tdoc ts = Ok ts' → uid ts' = uid ts.
Proof.
  unfold recalculated. destruct (ts_journal ts) as [journal|].
  - destruct (RULES_stat _ _ _) as [stats|]; simpl; [|done].
    intros [= <-]. by destruct stats.
  - by intros [= <-].
Qed.

(** A contest whose stats can all be computed: [recalcStatus] rewrites
    each of its status records and no other. *)
Lemma recalcStatus_store (st : Store) (tid : N) (tdoc : Tdoc) :
  keyed st →
  contests st !! tid = Some tdoc →
  recalculable tdoc st tid →
  ∃ st' tasks,
    recalcStatus st tid = (st', Ok tasks)
    ∧ contests st' = contests st
    ∧ Forall is_Some tasks
    ∧ length tasks
      = length (filter (λ ts, is_Some (ts_journal ts))
                  (getMultiStatus st tid))
    ∧ (∀ u, Ok <$> statuses st' !! (tid, u)
            = recalculated tdoc <$> statuses st !! (tid, u))
    ∧ (∀ t u, t ≠ tid → statuses st' !! (t, u) = statuses st !! (t, u)).
Proof.
  intros Hk Htdoc Hok. unfold recalcStatus. rewrite Htdoc.
  destruct (recalc_loop_writes tdoc tid (getMultiStatus st tid) st)
    as (st' & tasks & Hrun & Hc & Hall & Hlen & Hin & Hout).
  { by apply getMultiStatus_uids. }
  { intros ts Hts. by apply getMultiStatus_keyed. }
  { intros ts (u & Hu)%getMultiStatus_elem. by apply (Hok u). }
  exists st', tasks. split_and!; try done.
  - intros u. destruct (statuses st !! (tid, u)) as [ts|] eqn:Hu; simpl.
    + pose proof (Hk _ _ Hu) as Huid. simpl in Huid. subst u.
      apply Hin. by apply getMultiStatus_keyed.
    + rewrite Hout; [by rewrite Hu|].
      intros ts Hts%getMultiStatus_keyed [= ->]; [|done]. congruence.
  - intros t u Ht. apply Hout. intros ts _ [= -> _]. done.
Qed.

Lemma recalculable_always (tdoc : Tdoc) (st : Store) (tid : N) :
  rule tdoc = rule_acm ∨ rule tdoc = rule_oi → recalculable tdoc st tid.
Proof.
  intros Hrule u ts _. unfold recalculated.
  destruct (ts_journal ts); [|by eexists].
  destruct Hrule as [-> | ->]; by eexists.
Qed.

Lemma recalcStatus_keyed (st st' : Store) (tid : N) (tdoc : Tdoc) :
  keyed st →
  (∀ u, Ok <$> statuses st' !! (tid, u)
        = recalculated tdoc <$> statuses st !! (tid, u)) →
  (∀ t u, t ≠ tid → statuses st' !! (t, u) = statuses st !! (t, u)) →
  keyed st'.
Proof.
  intros Hk Hin Hout [t u] ts' Hts'. simpl.
  destruct (decide (t = tid)) as [->|Ht].
  - specialize (Hin u). rewrite Hts' in Hin. simpl in Hin.
    destruct (statuses st !! (tid, u)) as [ts|] eqn:Hu; [|done].
    injection Hin as Hin. symmetry in Hin.
    rewrite (recalculated_uid _ _ _ Hin). apply (Hk _ _ Hu).
  - rewrite (Hout t u Ht) in Hts'. apply (Hk _ _ Hts').
Qed.

(** X18. [recalcStatus] on a contest of the ACM or the OI rule, in a store
    whose status records are stored under the participant they name:
    the stats of every record can be computed, every conditional write
    goes through, and there is one write per record with a journal. In
    general, when the stats can be computed the call returns, leaves the
    contest records and the status records of other contests as they
    were, and gives every status record of the contest that has a journal
    the journal sorted by creation instant, the stats of the rule on it
    and the next revision; records without a journal stay as they are. *)
Theorem recalcStatus_rewrites (st : Store) (tid : N) (tdoc : Tdoc) :
  keyed st →
  contests st !! tid = Some tdoc →
  (rule tdoc = rule_acm ∨ rule tdoc = rule_oi → recalculable tdoc st tid)
  ∧ (recalculable tdoc st tid →
     ∃ st' tasks,
       recalcStatus st tid = (st', Ok tasks)
       ∧ Forall is_Some tasks
       ∧ length tasks
         = length (filter (λ ts, is_Some (ts_journal ts))
                     (getMultiStatus st tid))
       ∧ contests st' = contests st
       ∧ keyed st'
       ∧ (∀ t u, t ≠ tid → statuses st' !! (t, u) = statuses st !! (t, u))
       ∧ (∀ u ts, statuses st !! (tid, u) = Some ts →
            match ts_journal ts with
            | None => statuses st' !! (tid, u) = Some ts
            | Some journal =>
                ∃ stats,
                  RULES_stat (rule tdoc) tdoc (sort_by_time journal)
                  = Ok stats
                  ∧ statuses st' !! (tid, u)
                    = Some (bump_rev
                              (set_stats (sort_by_time journal) stats ts))
            end)
       ∧ (∀ u, statuses st !! (tid, u) = None →
            statuses st' !! (tid, u) = None)).
Proof.
  intros Hk Htdoc. split; [apply recalculable_always|].
  intros Hok.
  destruct (recalcStatus_store st tid tdoc Hk Htdoc Hok)
    as (st' & tasks & Hrun & Hc & Hall & Hlen & Hin & Hout).
  exists st', tasks. split_and!; try done.
  - by apply (recalcStatus_keyed st st' tid tdoc).
  - intros u ts Hu. specialize (Hin u). rewrite Hu in Hin. simpl in Hin.
    unfold recalculated in Hin.
    destruct (ts_journal ts) as [journal|].
    + destruct (RULES_stat _ _ _) as [stats|]; simpl in Hin.
      * exists stats. split; [done|].
        destruct (statuses st' !! (tid, u)); simpl in Hin; congruence.
      * destruct (statuses st' !! (tid, u)); simpl in Hin; congruence.
    + destruct (statuses st' !! (tid, u)); simpl in Hin; congruence.
  - intros u Hu. specialize (Hin u). rewrite Hu in Hin.
    by destruct (statuses st' !! (tid, u)).
Qed.

Lemma recalcStatus_rewrites_witness :
  ∃ st' tasks,
    recalcStatus (recorded_store rule_acm) 1 = (st', Ok tasks)
    ∧ length tasks = 1%nat
    ∧ ts_journal <$> statuses st' !! (1%N, 7%N)
      = Some (Some [entry 10 1 false 0; entry 20 1 true 100]).
Proof.
  assert (keyed (recorded_store rule_acm)) as Hk.
  { apply map_Forall_insert_2; [done | apply map_Forall_empty]. }
  destruct (recalcStatus_rewrites (recorded_store rule_acm) 1
              (contest rule_acm [1%N]) Hk eq_refl) as [Hr H].
  destruct (H (Hr (or_introl eq_refl)))
    as (st' & tasks & Hrun & _ & Hlen & _ & _ & _ & Hin & _).
  exists st', tasks. split_and!; [done | by rewrite Hlen |].
  destruct (Hin 7%N _ eq_refl) as (stats & _ & ->).
  by destruct stats.
Defined.

Lemma recalc_loop_missing (tid : N) (st : Store) (l : list Tsdoc) :
  recalc_loop None tid st l
  = (st, if decide (Exists (λ ts, is_Some (ts_journal ts)) l)
         then Throw TypeError else Ok []).
Proof.
  induction l as [|ts l IH].
  { destruct (decide _) as [H|H]; [by apply Exists_nil in H | done]. }
  cbn [recalc_loop]. unfold recalc_step, _getStatusJournal.
  destruct (ts_journal ts) as [journal|] eqn:Hj; cbn [mbind result_bind].
  - rewrite decide_True; [done|]. apply Exists_cons_hd. by rewrite Hj.
  - rewrite IH. destruct (decide (Exists _ l)) as [H|H].
    + rewrite decide_True; [done|]. by apply Exists_cons_tl.
    + rewrite decide_False; [done|].
      intros HE. apply Exists_inv in HE as [Hts|Hl]; [|done].
      rewrite Hj in Hts. by destruct Hts.
Qed.

(** X19. [recalcStatus] for a contest that does not exist reads the rule
    of the missing contest record at the first status record with a
    journal: it throws a type error when a status record filed under the
    contest has a journal, and returns no task otherwise. No write is
    issued: the store is left as it is. *)
Theorem recalcStatus_missing_contest (st : Store) (tid : N) :
  contests st !! tid = None →
  (journaled st tid → recalcStatus st tid = (st, Throw TypeError))
  ∧ (¬ journaled st tid → recalcStatus st tid = (st, Ok [])).
Proof.
  intros Htdoc. unfold recalcStatus. rewrite Htdoc, recalc_loop_missing.
  assert (journaled st tid
          ↔ Exists (λ ts, is_Some (ts_journal ts)) (getMultiStatus st tid))
    as Hiff.
  { rewrite list.Exists_exists. unfold journaled. split.
    - intros (u & ts & Hu & Hj). exists ts. split; [|done].
      apply getMultiStatus_elem. by exists u.
    - intros (ts & (u & Hu)%getMultiStatus_elem & Hj). by exists u, ts. }
  split; intros H.
  - rewrite decide_True; [done|]. by apply Hiff.
  - rewrite decide_False; [done|]. by rewrite <- Hiff.
Qed.

Lemma recalcStatus_missing_contest_witness :
  recalcStatus orphan_store 9 = (orphan_store, Throw TypeError)
  ∧ recalcStatus (sample_store rule_acm) 9 = (sample_store rule_acm, Ok []).
Proof.
  split.
  - apply (recalcStatus_missing_contest orphan_store 9 eq_refl).
    exists 7%N, (journal_of 7 [entry 10 1 true 100]). by split.
  - apply (recalcStatus_missing_contest (sample_store rule_acm) 9 eq_refl).
    intros (u & ts & Hu & _). done.
Defined.

Lemma recalculated_again (tdoc : Tdoc) (ts ts' : Tsdoc) :
  recalculated tdoc ts = Ok ts' →
  recalculated tdoc ts' = Ok (rewritten ts').
Proof.
  unfold recalculated, rewritten.
  destruct (ts_journal ts) as [journal|] eqn:Hj.
  - destruct (RULES_stat (rule tdoc) tdoc (sort_by_time journal))
      as [stats|] eqn:Hstat; simpl; [|done].
    intros [= <-].
    assert (ts_journal (bump_rev (set_stats (sort_by_time journal) stats ts))
            = Some (sort_by_time journal)) as -> by by destruct stats.
    rewrite (sort_by_time_sorted_id (sort_by_time journal))
      by apply sort_by_time_Sorted.
    rewrite Hstat. simpl. by destruct stats.
  - intros [= <-]. by rewrite Hj.
Qed.

(** X20. Recalculating twice: when [recalcStatus] has returned on a
    contest whose stats can be computed, a second call returns as well and
    changes revisions only. Every status record of the contest with a
    journal keeps the journal and the stats the first call wrote and moves
    to the next revision; all other records and the contest records stay
    as the first call left them. *)
Theorem recalcStatus_again (st : Store) (tid : N) (tdoc : Tdoc) :
  keyed st →
  contests st !! tid = Some tdoc →
  recalculable tdoc st tid →
  ∃ st1 tasks1 st2 tasks2,
    recalcStatus st tid = (st1, Ok tasks1)
    ∧ recalcStatus st1 tid = (st2, Ok tasks2)
    ∧ contests st2 = contests st1
    ∧ (∀ u, statuses st2 !! (tid, u) = rewritten <$> statuses st1 !! (tid, u))
    ∧ (∀ t u, t ≠ tid → statuses st2 !! (t, u) = statuses st1 !! (t, u)).
Proof.
  intros Hk Htdoc Hok.
  destruct (recalcStatus_store st tid tdoc Hk Htdoc Hok)
    as (st1 & tasks1 & Hrun1 & Hc1 & _ & _ & Hin1 & Hout1).
  assert (∀ u ts1, statuses st1 !! (tid, u) = Some ts1 →
            recalculated tdoc ts1 = Ok (rewritten ts1)) as Hagain.
  { intros u ts1 Hu. specialize (Hin1 u). rewrite Hu in Hin1. simpl in Hin1.
    destruct (statuses st !! (tid, u)) as [ts|]; [|done].
    injection Hin1 as Hin1. symmetry in Hin1.
    by apply (recalculated_again tdoc ts). }
  destruct (recalcStatus_store st1 tid tdoc)
    as (st2 & tasks2 & Hrun2 & Hc2 & _ & _ & Hin2 & Hout2).
  { by apply (recalcStatus_keyed st st1 tid tdoc). }
  { by rewrite Hc1. }
  { intros u ts1 Hu. eexists. by apply (Hagain u). }
  exists st1, tasks1, st2, tasks2. split_and!; try done.
  intros u. specialize (Hin2 u).
  destruct (statuses st1 !! (tid, u)) as [ts1|] eqn:Hu; simpl in *.
  - rewrite (Hagain u ts1 Hu) in Hin2.
    destruct (statuses st2 !! (tid, u)); simpl in Hin2; congruence.
  - by destruct (statuses st2 !! (tid, u)).
Qed.

Lemma recalcStatus_again_witness :
  ∃ st1 tasks1 st2 tasks2,
    recalcStatus (recorded_store rule_oi) 1 = (st1, Ok tasks1)
    ∧ recalcStatus st1 1 = (st2, Ok tasks2)
    ∧ statuses st2 !! (1%N, 7%N) = rewritten <$> statuses st1 !! (1%N, 7%N).
Proof.
  assert (keyed (recorded_store rule_oi)) as Hk.
  { apply map_Forall_insert_2; [done | apply map_Forall_empty]. }
  destruct (recalcStatus_again (recorded_store rule_oi) 1
              (contest rule_oi [1%N]) Hk eq_refl)
    as (st1 & tasks1 & st2 & tasks2 & H1 & H2 & _ & Hin & _).
  { intros u ts _. unfold recalculated.
    destruct (ts_journal ts); simpl; by eexists. }
  exists st1, tasks1, st2, tasks2. split_and!; [done | done | apply Hin].
Defined.

(** ** What [updateStatus] leaves alone *)

Lemma keyed_put_status (st : Store) (tid u : N) (ts : Tsdoc) :
  keyed st → uid ts = u → keyed (put_status st tid u ts).
Proof. intros Hk Hu. by apply map_Forall_insert_2. Qed.

Lemma set_stats_uid (journal : list jdoc) (s : stats_t) (ts : Tsdoc) :
  uid (bump_rev (set_stats journal s ts)) = uid ts.
Proof. by destruct s. Qed.

(** X21. What [updateStatus] leaves alone. For a contest that does not
    exist it throws the not-found error before anything is written.
    Whatever it returns or throws, the contest records and the status
    records of all other contests and participants stay as they were, and
    records stay stored under the participant they name. For an existing
    contest the record of the participant then names the participant,
    keeps its attendance field, has moved one or two revisions on, and its
    journal holds the entries it had together with the new one: the entry
    is recorded also when the call throws. *)
Theorem updateStatus_frame (st : Store) (tid u : N) (rid : ObjectID)
    (pid : N) (accept : bool) (score : Z) :
  let j := {| rid := rid; pid := pid; accept := accept; score := score |} in
  let old := status_of st tid u in
  let r := updateStatus st tid u rid pid accept score in
  let new := status_of r.1 tid u in
  (contests st !! tid = None → r = (st, Throw ContestNotFoundError))
  ∧ contests r.1 = contests st
  ∧ (∀ k, k ≠ (tid, u) → statuses r.1 !! k = statuses st !! k)
  ∧ (keyed st → keyed r.1)
  ∧ (is_Some (contests st !! tid) →
       uid new = u
       ∧ ts_attend new = ts_attend old
       ∧ (ts_rev new = ts_rev old + 1 ∨ ts_rev new = ts_rev old + 2)%N
       ∧ ∃ journal, ts_journal new = Some journal
                    ∧ journal ≡ₚ default [] (ts_journal old) ++ [j]).
Proof.
  intros j old r new. unfold new, r, updateStatus, updateStatus_stats, get.
  clear new r.
  destruct (contests st !! tid) as [tdoc|] eqn:Htdoc; simpl.
  2:{ by split_and!. }
  fold j. fold old.
  set (pushed :=
    {| uid := u; ts_attend := ts_attend old;
       ts_rev := (ts_rev old + 1)%N;
       ts_journal := Some (default [] (ts_journal old) ++ [j]);
       ts_accept := ts_accept old; ts_time := ts_time old;
       ts_score := ts_score old; ts_penaltyScore := ts_penaltyScore old;
       ts_detail := ts_detail old |}).
  assert (∀ ts, status_of (put_status st tid u ts) tid u = ts) as Hput.
  { intros ts. unfold status_of. simpl. by rewrite lookup_insert_eq. }
  assert (∀ ts, uid ts = u →
            ts_attend ts = ts_attend old →
            (ts_rev ts = ts_rev old + 1 ∨ ts_rev ts = ts_rev old + 2)%N →
            (∃ journal, ts_journal ts = Some journal
               ∧ journal ≡ₚ default [] (ts_journal old) ++ [j]) →
            let st' := put_status st tid u ts in
            (Some tdoc = None → False)
            ∧ contests st' = contests st
            ∧ (∀ k, k ≠ (tid, u) → statuses st' !! k = statuses st !! k)
            ∧ (keyed st → keyed st')
            ∧ (is_Some (Some tdoc) →
                 uid (status_of st' tid u) = u
                 ∧ ts_attend (status_of st' tid u) = ts_attend old
                 ∧ (ts_rev (status_of st' tid u) = ts_rev old + 1
                    ∨ ts_rev (status_of st' tid u) = ts_rev old + 2)%N
                 ∧ ∃ journal,
                     ts_journal (status_of st' tid u) = Some journal
                     ∧ journal ≡ₚ default [] (ts_journal old) ++ [j]))
    as Hframe.
  { intros ts Hu Ha Hr Hj st'. unfold st'. rewrite Hput. split_and!; try done.
    - intros k Hk. simpl. by rewrite lookup_insert_ne.
    - intros Hk. by apply keyed_put_status. }
  destruct (not_attended pushed) eqn:Hna; simpl.
  { destruct (Hframe pushed) as (_ & H);
      [done | done | by left | by eexists |].
    split; [done | exact H]. }
  unfold _getStatusJournal. simpl.
  destruct (RULES_stat (rule tdoc) tdoc
              (sort_by_time (default [] (ts_journal old) ++ [j])))
    as [stats|e] eqn:Hstat; simpl.
  2:{ destruct (Hframe pushed) as (_ & H);
        [done | done | by left | by eexists |].
      split; [done | exact H]. }
  unfold updateStatus_write, revSetStatus. simpl.
  rewrite lookup_insert_eq. rewrite bool_decide_eq_true_2 by done. simpl.
  set (journal := sort_by_time (default [] (ts_journal old) ++ [j])).
  set (written := bump_rev (set_stats journal stats pushed)).
  assert (put_status (put_status st tid u pushed) tid u written
          = put_status st tid u written) as ->.
  { unfold put_status. simpl. by rewrite insert_insert_eq. }
  destruct (Hframe written) as (_ & H).
  - apply set_stats_uid.
  - unfold written. by destruct stats.
  - right. unfold written. destruct stats; simpl; lia.
  - exists journal. split; [unfold written; by destruct stats|].
    apply sort_by_time_Permutation.
  - destruct H as (H1 & H2 & H3 & H4).
    split_and!; [done | done | | done | done].
    intros k Hk. rewrite insert_insert_eq. by apply H2.
Qed.

Lemma updateStatus_frame_witness :
  updateStatus (sample_store rule_acm) 9 7 (submission 10) 1 true 100
  = (sample_store rule_acm, Throw ContestNotFoundError)
  ∧ uid (status_of
           (updateStatus (recorded_store rule_acm) 1 7 (submission 30) 1
              true 100).1 1 7) = 7%N.
Proof.
  split.
  - pose proof (updateStatus_frame (sample_store rule_acm) 9 7
                  (submission 10) 1 true 100) as H.
    cbv zeta in H. destruct H as (H & _). by apply H.
  - pose proof (updateStatus_frame (recorded_store rule_acm) 1 7
                  (submission 30) 1 true 100) as H.
    cbv zeta in H. destruct H as (_ & _ & _ & _ & H).
    destruct H as (H & _); [by eexists | exact H].
Defined.

(** ** Two calls of [updateStatus] in flight *)

Lemma set_stats_rev (journal : list jdoc) (s : stats_t) (ts : Tsdoc) :
  ts_rev (bump_rev (set_stats journal s ts)) = (ts_rev ts + 1)%N.
Proof. by destruct s. Qed.

Lemma updateStatus_stats_attended (st : Store) (tid u : N) (tdoc : Tdoc)
    (j : jdoc) (n : N) :
  contests st !! tid = Some tdoc →
  ts_attend (status_of st tid u) = Some n → n ≠ 0%N →
  let old := status_of st tid u in
  let journal := sort_by_time (default [] (ts_journal old) ++ [j]) in
  let pushed := (revPushStatus st tid u j).2 in
  statuses (revPushStatus st tid u j).1 !! (tid, u) = Some pushed
  ∧ ts_attend pushed = Some n
  ∧ ts_rev pushed = (ts_rev old + 1)%N
  ∧ ts_journal pushed = Some (default [] (ts_journal old) ++ [j])
  ∧ updateStatus_stats st tid u (rid j) (pid j) (accept j) (score j)
    = ((revPushStatus st tid u j).1,
       stats ← RULES_stat (rule tdoc) tdoc journal;
       Ok {| w_rev := (ts_rev old + 1)%N;
             w_set := set_stats journal stats |}).
Proof.
  intros Htdoc Hatt Hn old journal pushed.
  unfold updateStatus_stats, get. rewrite Htdoc.
  assert ({| rid := rid j; pid := pid j; accept := accept j;
             score := score j |} = j) as -> by by destruct j.
  unfold pushed, revPushStatus. simpl. rewrite lookup_insert_eq.
  split_and!; try done.
  match goal with
  | |- (if ?c then _ else _) = _ => assert (c = false) as ->; [|done]
  end.
  unfold not_attended. simpl. rewrite Hatt. by destruct n.
Qed.

(** X22. Two calls of [updateStatus] for the same attended participant of
    a contest of the ACM or the OI rule, both past their append before
    either reaches its conditional write. The first call's write is
    rejected, in whichever order the two writes arrive, and the second
    call's write goes through: the record ends with the journal of both
    entries sorted by creation instant, the stats of the rule on that
    journal, and three revisions on. *)
Theorem updateStatus_race (st : Store) (tid u : N) (tdoc : Tdoc)
    (a b : jdoc) (n : N) :
  contests st !! tid = Some tdoc →
  rule tdoc = rule_acm ∨ rule tdoc = rule_oi →
  ts_attend (status_of st tid u) = Some n → n ≠ 0%N →
  let old := status_of st tid u in
  let journal := sort_by_time (default [] (ts_journal old) ++ [a; b]) in
  ∃ s1 wa s2 wb stats final,
    updateStatus_stats st tid u (rid a) (pid a) (accept a) (score a)
    = (s1, Ok wa)
    ∧ updateStatus_stats s1 tid u (rid b) (pid b) (accept b) (score b)
      = (s2, Ok wb)
    ∧ RULES_stat (rule tdoc) tdoc journal = Ok stats
    ∧ updateStatus_write s2 tid u wa = (s2, None)
    ∧ updateStatus_write s2 tid u wb
      = (put_status s2 tid u final, Some final)
    ∧ updateStatus_write (put_status s2 tid u final) tid u wa
      = (put_status s2 tid u final, None)
    ∧ final = bump_rev (set_stats journal stats (status_of s2 tid u))
    ∧ ts_journal final = Some journal
    ∧ ts_rev final = (ts_rev old + 3)%N.
Proof.
  intros Htdoc Hrule Hatt Hn old journal.
  destruct (updateStatus_stats_attended st tid u tdoc a n Htdoc Hatt Hn)
    as (Hs1 & Hatt1 & Hrev1 & Hj1 & Hcall1).
  set (s1 := (revPushStatus st tid u a).1) in *.
  set (p1 := (revPushStatus st tid u a).2) in *.
  assert (status_of s1 tid u = p1) as Hp1.
  { unfold status_of. by rewrite Hs1. }
  assert (contests s1 !! tid = Some tdoc) as Htdoc1 by done.
  destruct (updateStatus_stats_attended s1 tid u tdoc b n Htdoc1)
    as (Hs2 & Hatt2 & Hrev2 & Hj2 & Hcall2); [by rewrite Hp1 | done |].
  set (s2 := (revPushStatus s1 tid u b).1) in *.
  set (p2 := (revPushStatus s1 tid u b).2) in *.
  rewrite Hp1 in Hrev2, Hj2, Hcall2. rewrite Hj1 in Hj2, Hcall2.
  rewrite Hrev1 in Hrev2, Hcall2. simpl in Hj2, Hcall2.
  rewrite <- app_assoc in Hj2, Hcall2. simpl in Hj2, Hcall2.
  fold old in Hcall1, Hcall2, Hrev1, Hrev2, Hj1, Hj2. fold journal in Hcall2.
  assert (∃ sa, RULES_stat (rule tdoc) tdoc
                  (sort_by_time (default [] (ts_journal old) ++ [a]))
                = Ok sa) as (sa & Hsa).
  { destruct Hrule as [Hr|Hr]; rewrite Hr; by eexists. }
  assert (∃ stats, RULES_stat (rule tdoc) tdoc journal = Ok stats)
    as (stats & Hstats).
  { destruct Hrule as [Hr|Hr]; rewrite Hr; by eexists. }
  rewrite Hsa in Hcall1. rewrite Hstats in Hcall2. simpl in Hcall1, Hcall2.
  assert (status_of s2 tid u = p2) as Hp2.
  { unfold status_of. by rewrite Hs2. }
  set (final := bump_rev (set_stats journal stats p2)).
  assert (ts_rev final = (ts_rev old + 3)%N) as Hrevf.
  { unfold final. rewrite set_stats_rev, Hrev2. lia. }
  eexists s1, _, s2, _, stats, final.
  split_and!; [exact Hcall1 | exact Hcall2 | done | | | | | | done].
  - unfold updateStatus_write, revSetStatus. simpl w_rev. rewrite Hs2.
    rewrite bool_decide_eq_false_2; [done|]. rewrite Hrev2. lia.
  - unfold updateStatus_write, revSetStatus. simpl w_rev. rewrite Hs2.
    by rewrite bool_decide_eq_true_2 by (rewrite Hrev2; lia).
  - unfold updateStatus_write, revSetStatus. simpl w_rev.
    simpl. rewrite lookup_insert_eq.
    rewrite bool_decide_eq_false_2; [done|]. rewrite Hrevf. lia.
  - by rewrite Hp2.
  - unfold final. by destruct stats.
Qed.

Lemma updateStatus_race_witness :
  ∃ s2 wa final,
    updateStatus_write s2 1 7 wa = (s2, None)
    ∧ ts_journal final
      = Some [entry 10 1 false 0; entry 20 1 true 100; entry 30 1 true 100;
              entry 40 1 false 0]
    ∧ ts_rev final = 3%N.
Proof.
  destruct (updateStatus_race (recorded_store rule_acm) 1 7
              (contest rule_acm [1%N]) (entry 40 1 false 0)
              (entry 30 1 true 100) 1 eq_refl)
    as (s1 & wa & s2 & wb & stats & final & _ & _ & _ & Hwa & _ & _ & _
        & Hj & Hr); [by left | done | done |].
  exists s2, wa, final. split_and!; [exact Hwa | exact Hj | exact Hr].
Defined.

(** ** The attendance counter of a contest *)

Lemma joined_by_0 (tdoc : Tdoc) : joined_by 0 tdoc = tdoc.
Proof. destruct tdoc. unfold joined_by. simpl. f_equal. lia. Qed.

Lemma count_insert_same (f : call → bool) (l : list call) i c c' :
  l !! i = Some c → f c' = f c → count f (<[i:=c']> l) = count f l.
Proof.
  intros Hi Hf. pose proof (count_insert f l i c c' Hi) as H.
  rewrite Hf in H. lia.
Qed.

Lemma count_insert_new (f : call → bool) (l : list call) i c c' :
  l !! i = Some c → f c = false → f c' = true →
  count f (<[i:=c']> l) = S (count f l).
Proof.
  intros Hi Hf Hf'. pose proof (count_insert f l i c c' Hi) as H.
  rewrite Hf, Hf' in H. lia.
Qed.

Lemma counter_step (st : Store) (calls : list call) (base : gmap N Tdoc)
    (i : nat) (t : N) :
  contests st !! t = joined_by (count (joined t) calls) <$> base !! t →
  let s' := sched_step (st, calls) i in
  contests s'.1 !! t = joined_by (count (joined t) s'.2) <$> base !! t.
Proof.
  intros Hinv. unfold sched_step. simpl.
  destruct (calls !! i) as [c|] eqn:Hi; [|done].
  assert (∀ c', c_pc c' ≠ Returned (Ok ()) → joined t c' = false) as Hnot.
  { intros c' Hpc. unfold joined.
    by rewrite (bool_decide_eq_false_2 _ Hpc), andb_false_r. }
  unfold call_step.
  destruct (c_pc c) eqn:Hpc; simpl.
  - destruct (cappedIncStatus st (c_tid c) (c_uid c) 1 0 1)
      as [[st1 ts]|e] eqn:Hcap; simpl.
    + rewrite (count_insert_same _ _ _ c);
        [|done|by rewrite !Hnot by (by rewrite ?Hpc)].
      unfold cappedIncStatus in Hcap. case_bool_decide; [done|].
      by injection Hcap as <- _.
    + by rewrite (count_insert_same _ _ _ c);
        [|done|by rewrite !Hnot by (by rewrite ?Hpc)].
  - destruct (decide (c_tid c = t)) as [Heq|Hne].
    + rewrite (count_insert_new _ _ _ c);
        [|done|by rewrite Hnot by (by rewrite Hpc)|].
      * rewrite Heq, lookup_alter_eq, Hinv.
        destruct (base !! t) as [d|]; [|done].
        simpl. f_equal. unfold joined_by. simpl. f_equal. lia.
      * unfold joined. simpl. by rewrite !bool_decide_eq_true_2.
    + rewrite (count_insert_same _ _ _ c); [|done|].
      * by rewrite lookup_alter_ne.
      * rewrite (Hnot c) by (by rewrite Hpc). unfold joined. simpl.
        by rewrite (bool_decide_eq_false_2 _ Hne).
  - by rewrite list_insert_id.
Qed.

Lemma counter_run (schedule : list nat) (base : gmap N Tdoc) (t : N) :
  ∀ s,
    contests s.1 !! t = joined_by (count (joined t) s.2) <$> base !! t →
    let s' := run schedule s in
    contests s'.1 !! t = joined_by (count (joined t) s'.2) <$> base !! t.
Proof.
  unfold run. induction schedule as [|i l IH]; intros [st calls] Hs;
    simpl; [done|].
  apply IH. by apply counter_step.
Qed.

(** X23. The attendance counter of a contest. When calls of [attend] for
    any contests and participants run interleaved at their store
    operations, every contest record stays as it was but for its counter,
    which has moved on by the number of calls for the contest that have
    returned normally; no contest record appears or disappears. [attend]
    does not look the contest up: for a contest that does not exist the
    first call of a participant returns normally all the same, and leaves
    a status record with the attendance field at 1 and the contest
    records as they were. *)
Theorem attend_counter (st : Store) (calls : list call)
    (schedule : list nat) (t : N) :
  Forall (λ c, c_pc c = AtCappedInc) calls →
  let s' := run schedule (st, calls) in
  contests s'.1 !! t
  = joined_by (count (joined t) s'.2) <$> contests st !! t
  ∧ (∀ u, contests st !! t = None → attendance st t u = 0%N →
       ∃ st1, attend st t u = (st1, Ok ())
              ∧ contests st1 = contests st
              ∧ attendance st1 t u = 1%N).
Proof.
  intros Hstart s'. split.
  - apply (counter_run schedule (contests st) t (st, calls)). simpl.
    rewrite count_none.
    + destruct (contests st !! t) as [d|]; [|done]. simpl.
      by rewrite joined_by_0.
    + rewrite list.Forall_forall in Hstart. intros c Hc. unfold joined.
      by rewrite (Hstart c Hc), andb_false_r.
  - intros u Hnone Hzero.
    destruct (attend_first st t u Hzero) as (st1 & Hrun & Hone).
    exists st1. split_and!; [done | | done].
    unfold attend in Hrun.
    destruct (cappedIncStatus st t u 1 0 1) as [[st0 ts]|e] eqn:Hcap;
      [|done].
    injection Hrun as <-. unfold cappedIncStatus in Hcap.
    case_bool_decide; [done|]. injection Hcap as <- _. simpl.
    apply map_eq. intros k. destruct (decide (k = t)) as [->|Hk].
    + by rewrite lookup_alter_eq, Hnone.
    + by rewrite lookup_alter_ne.
Qed.

Lemma attend_counter_witness :
  tdoc_attend
    <$> contests
          (run [0; 1; 0; 1]%nat
             (sample_store rule_acm, [start 1 7; start 1 8])).1 !! 1%N
  = Some 2%N.
Proof.
  destruct (attend_counter (sample_store rule_acm) [start 1 7; start 1 8]
              [0; 1; 0; 1]%nat 1) as [H _].
  { by repeat constructor. }
  by rewrite H.
Defined.

(** ** What the rows show *)

(** [tsddict[key(d)] = d] over a list: the last element under a key. *)
Lemma dict_of_lookup {V} (key : V → N) (l : list V) (m : gmap N V) (p : N) :
  foldl (λ m d, <[key d := d]> m) m l !! p
  = match list.last (filter (λ d, key d = p) l) with
    | Some d => Some d
    | None => m !! p
    end.
Proof.
  revert m. induction l as [|d l IH]; intros m; simpl; [done|].
  rewrite IH, filter_cons. case_decide as Hd.
  - rewrite last_cons. destruct (list.last _); [done|].
    by rewrite <- Hd, lookup_insert_eq.
  - destruct (list.last _); [done|]. by rewrite lookup_insert_ne.
Qed.

(** X24. The rows of the OI and the Assignment scoreboards read the
    journal, not the detail. For every problem they show the latest
    journal entry for it; for a problem of the contest that is the entry
    the detail of [oi.stat] holds. The OI cell shows the score of that
    entry and links its submission; a score of 0 shows as a dash, like a
    problem without an entry. Journal entries have no penalised score and
    no time, so in an exported Assignment row the penalised score and the
    two time cells of every problem are dashes. *)
Theorem rows_read_journal (lib : Lib) (tdoc : Tdoc) (tsdoc : Tsdoc) (p : N) :
  let journal := default [] (ts_journal tsdoc) in
  oi.tsddict tsdoc !! p = latest journal p
  ∧ homework.tsddict tsdoc !! p = latest journal p
  ∧ (p ∈ pids tdoc →
       latest journal p = oi.s_detail (oi.stat tdoc journal) !! p)
  ∧ oi.problem_cell (oi.tsddict tsdoc) p
    = cell_raw "record" (score_or_dash (latest journal p))
        (rid_or Null (latest journal p))
  ∧ homework.problem_cells lib true (homework.tsddict tsdoc) p
    = [cell "string" (Str "-");
       cell "string" (score_or_dash (latest journal p));
       cell "string" (Str "-"); cell "string" (Str "-")].
Proof.
  intros journal.
  assert (oi.tsddict tsdoc !! p = latest journal p) as Hoi.
  { unfold oi.tsddict, journal, latest.
    destruct (ts_journal tsdoc) as [l|]; simpl; [|done].
    rewrite dict_of_lookup, lookup_empty. by destruct (list.last _). }
  assert (homework.tsddict tsdoc !! p = latest journal p) as Hhw.
  { unfold homework.tsddict, latest. fold journal.
    rewrite dict_of_lookup, lookup_empty. by destruct (list.last _). }
  split_and!; [done | done | | |].
  - intros Hp. unfold oi.stat.
    rewrite (proj1 (oi_stat_fold tdoc journal _)). simpl.
    rewrite lookup_empty. unfold latest, entries_for.
    rewrite (list_filter_iff (λ j, pid j = p ∧ p ∈ pids tdoc)
               (λ j, pid j = p)) by (intros j; split; [by intros [? _]|done]).
    by destruct (list.last _).
  - unfold oi.problem_cell. rewrite Hoi.
    destruct (latest journal p) as [j|]; [|done]. simpl.
    unfold js_or. simpl. case_bool_decide as Hs.
    + by rewrite Hs.
    + by destruct (Z.eqb_spec (score j) 0).
  - unfold homework.problem_cells. rewrite Hhw.
    destruct (latest journal p) as [j|]; [|done]. simpl.
    unfold js_or. simpl. case_bool_decide as Hs.
    + by rewrite Hs.
    + by destruct (Z.eqb_spec (score j) 0).
Qed.

Lemma rows_read_journal_witness :
  oi.problem_cell
    (oi.tsddict (journal_of 7 [entry 10 1 false 30; entry 20 1 true 0])) 1
  = cell_raw "record" (Str "-") (Oid (submission 20)).
Proof.
  pose proof (rows_read_journal sample_lib (contest rule_oi [1%N])
                (journal_of 7 [entry 10 1 false 30; entry 20 1 true 0]) 1)
    as H.
  cbv zeta in H. destruct H as (_ & _ & _ & H & _). exact H.
Defined.

(** X25. An ACM row of a record that holds the stats of [acm.stat], for
    a participant the user directory holds: the three exported cells of a
    problem show an acceptance exactly when the retain-until-accepted
    rule keeps an accepted entry among the journal entries for the
    problem, with the time the stat gave that entry, which is
    not-a-number for an acceptance at the first try; every other problem
    shows three dashes. The row opens with the rank, the user and the
    cell of solved problems, which shows the accept count of the stat in
    both renderings; the export row goes on with two cells of the total
    time, 0 when it is not a number, and the cells of the contest
    problems in their order. *)
Theorem acm_row_after_stat (lib : Lib) (tdoc : Tdoc) (journal : list jdoc)
    (ts : Tsdoc) (p : N) (udict : gmap N Udoc) (udoc : Udoc) (rank : nat) :
  udict !! uid ts = Some udoc →
  let s := acm.stat tdoc journal in
  let written := set_stats journal (AcmStats s) ts in
  let opening :=
    [rank_cell rank; cell_raw "user" (Str (uname udoc)) (of_N (uid ts));
     cell "string" (Number (Num (acm.s_accept s)))] in
  ∃ dict,
    acm.tsddict written = Ok dict
    ∧ acm.problem_cells lib true dict p
      = match retained (entries_for tdoc p journal) with
        | Some j =>
            if accept j
            then [cell "string" (Str (translate lib "Accepted"));
                  cell "string" (Number (acm_time tdoc journal j));
                  cell "string"
                    (Str (formatSeconds lib
                            (Number (acm_time tdoc journal j))))]
            else dashes
        | None => dashes
        end
    ∧ acm.row lib true tdoc udict rank written
      = Ok (opening
            ++ [cell "string" (js_or (Number (acm.s_time s)) zero);
                cell "string" (js_or (Number (acm.s_time s)) zero)]
            ++ concat (map (acm.problem_cells lib true dict) (pids tdoc)))
    ∧ acm.row lib false tdoc udict rank written
      = Ok (opening
            ++ concat (map (acm.problem_cells lib false dict) (pids tdoc))).
Proof.
  intros Hudoc s written opening. subst opening written s.
  assert (∀ n, js_or (Number (Num n)) zero = Number (Num n)) as Hcount.
  { intros n. unfold js_or, zero. simpl.
    by destruct (Z.eqb_spec n 0) as [->|]. }
  eexists. split; [done|]. split.
  2:{ unfold acm.row.
      cbn [acm.tsddict set_stats ts_detail ts_accept ts_time uid mbind
           result_bind of_num].
      rewrite Hudoc, Hcount. by split. }
  unfold acm.problem_cells. rewrite dict_of_lookup, lookup_empty.
  set (detail := acm.s_detail (acm.stat tdoc journal)).
  assert (∀ d, d ∈ filter (λ d, pid (item d) = p) detail →
            retained (entries_for tdoc p journal) = Some (item d)
            ∧ d_time d = Some (acm_time tdoc journal (item d))) as Hin.
  { intros d [Hp (j & Hj & ->)%acm_detail_time]%list_elem_of_filter.
    simpl in *. by rewrite <- Hp. }
  destruct (list.last (filter (λ d, pid (item d) = p) detail)) as [d|] eqn:Hl.
  - destruct (Hin d (last_Some_elem_of _ _ Hl)) as [-> Ht].
    rewrite Ht. simpl. by destruct (accept (item d)).
  - apply last_None in Hl.
    destruct (retained (entries_for tdoc p journal)) as [j|] eqn:Hj; [|done].
    exfalso.
    destruct (entries_for_pid _ _ _ _ (retained_elem _ _ Hj)) as (Hp & _).
    assert ({| item := j;
               d_naccept :=
                 counted (rejections (entries_for tdoc (pid j) journal));
               d_time := Some (acm_time tdoc journal j);
               d_penaltyScore := None |}
            ∈ filter (λ d, pid (item d) = p) detail) as Hd.
    { apply list_elem_of_filter. split; [done|].
      apply acm_detail_time. exists j. split; [by rewrite Hp | done]. }
    rewrite Hl in Hd. by apply elem_of_nil in Hd.
Qed.

Lemma acm_row_after_stat_witness :
  ∃ cells,
    acm.row sample_lib false (contest rule_acm [1%N]) sample_users 1
      (set_stats [entry 10 1 false 0; entry 20 1 true 100]
         (AcmStats (acm.stat (contest rule_acm [1%N])
                      [entry 10 1 false 0; entry 20 1 true 100]))
         (participant 7 None))
    = Ok ([rank_cell 1; cell_raw "user" (Str "ada") (of_N 7);
           cell "string" (Number (Num 1))] ++ cells).
Proof.
  destruct (acm_row_after_stat sample_lib (contest rule_acm [1%N])
              [entry 10 1 false 0; entry 20 1 true 100] (participant 7 None)
              1 sample_users {| uname := "ada" |} 1 eq_refl)
    as (dict & _ & _ & _ & H).
  eexists. exact H.
Defined.

(** ** Who sees what, and when *)

(** X26. [canShowRecord] and [canShowScoreboard] on a contest of one of
    the three rules. Records are shown for a contest of the Assignment
    rule, after the end of the contest, and to a user with the permission
    when the override is allowed, and in no other case; the scoreboard
    likewise, with every rule but OI in place of the Assignment rule. So
    whoever sees the records sees the scoreboard, and what is shown at one
    instant is shown at every later one. The end itself is not after the
    end: at that instant the contest is done, and an ACM or OI contest
    still hides its records from users without the permission. On a
    contest whose rule name is none of the three both tests throw a type
    error. *)
Theorem visibility (hasPerm : bool) (tdoc : Tdoc) (now later : Date)
    (allowPermOverride : bool) :
  let overridden := allowPermOverride = true ∧ hasPerm = true in
  let registered := ∃ r, rule tdoc = rule_name r in
  (canShowRecord hasPerm tdoc now allowPermOverride = Ok true
   ↔ registered
     ∧ (rule tdoc = rule_homework ∨ endAt tdoc < now ∨ overridden))
  ∧ (canShowScoreboard hasPerm tdoc now allowPermOverride = Ok true
     ↔ registered ∧ (rule tdoc ≠ rule_oi ∨ endAt tdoc < now ∨ overridden))
  ∧ (canShowRecord hasPerm tdoc now allowPermOverride = Ok true →
     canShowScoreboard hasPerm tdoc now allowPermOverride = Ok true)
  ∧ (now ≤ later →
     (canShowRecord hasPerm tdoc now allowPermOverride = Ok true →
      canShowRecord hasPerm tdoc later allowPermOverride = Ok true)
     ∧ (canShowScoreboard hasPerm tdoc now allowPermOverride = Ok true →
        canShowScoreboard hasPerm tdoc later allowPermOverride = Ok true))
  ∧ (now = endAt tdoc → registered → rule tdoc ≠ rule_homework →
     hasPerm = false →
     isDone tdoc now = true
     ∧ canShowRecord hasPerm tdoc now allowPermOverride = Ok false)
  ∧ (registered →
     (∃ b, canShowRecord hasPerm tdoc now allowPermOverride = Ok b)
     ∧ ∃ b, canShowScoreboard hasPerm tdoc now allowPermOverride = Ok b)
  ∧ (¬ registered →
     canShowRecord hasPerm tdoc now allowPermOverride = Throw TypeError
     ∧ canShowScoreboard hasPerm tdoc now allowPermOverride
       = Throw TypeError).
Proof.
  intros overridden registered.
  assert (∀ t, canShowRecord hasPerm tdoc t allowPermOverride = Ok true
             ↔ registered
               ∧ (rule tdoc = rule_homework ∨ endAt tdoc < t ∨ overridden))
    as Hrec.
  { intros t. destruct (rule_name_cases (rule tdoc)) as [[r Hr]|Hother].
    2:{ rewrite (proj2 (canShow_other hasPerm tdoc t allowPermOverride
                          Hother)).
        split; [done|]. intros [[r Hr] _]. by destruct (Hother r). }
    rewrite (canShowRecord_rule r) by done. unfold overridden. rewrite Hr.
    assert registered by by exists r.
    destruct r, allowPermOverride, hasPerm; simpl;
      try case_bool_decide; split; intros; try done; auto; try lia;
      repeat match goal with
             | H : _ ∨ _ |- _ => destruct H
             | H : _ ∧ _ |- _ => destruct H
             end; try done; try lia; split; auto. }
  assert (∀ t, canShowScoreboard hasPerm tdoc t allowPermOverride = Ok true
             ↔ registered
               ∧ (rule tdoc ≠ rule_oi ∨ endAt tdoc < t ∨ overridden))
    as Hboard.
  { intros t. destruct (rule_name_cases (rule tdoc)) as [[r Hr]|Hother].
    2:{ rewrite (proj1 (canShow_other hasPerm tdoc t allowPermOverride
                          Hother)).
        split; [done|]. intros [[r Hr] _]. by destruct (Hother r). }
    rewrite (canShowScoreboard_rule r) by done. unfold overridden.
    rewrite Hr.
    assert registered by by exists r.
    destruct r, allowPermOverride, hasPerm; simpl;
      try case_bool_decide; split; intros; try done; auto; try lia;
      repeat match goal with
             | H : _ ∨ _ |- _ => destruct H
             | H : _ ∧ _ |- _ => destruct H
             end; try done; try lia; split; auto. }
  split_and!; [done | done | | | | |].
  - rewrite Hrec, Hboard. intros [Hreg [Hr|[Ht|Ho]]]; split; auto.
    left. by rewrite Hr.
  - intros Hle. rewrite !Hrec, !Hboard. split.
    + intros [Hreg [Hr|[Ht|Ho]]]; split; auto. right; left; lia.
    + intros [Hreg [Hr|[Ht|Ho]]]; split; auto. right; left; lia.
  - intros -> [r Hr] Hrule ->. split.
    + unfold isDone. by apply bool_decide_eq_true_2.
    + rewrite (canShowRecord_rule r) by done. f_equal.
      rewrite Hr in Hrule. destruct r; [| |done].
      * rewrite bool_decide_eq_false_2 by lia. by rewrite andb_false_r.
      * rewrite bool_decide_eq_false_2 by lia. by rewrite andb_false_r.
  - intros [r Hr].
    rewrite (canShowRecord_rule r), (canShowScoreboard_rule r) by done.
    split; by eexists.
  - intros Hn. destruct (rule_name_cases (rule tdoc)) as [Hreg|Hother];
      [done|].
    destruct (canShow_other hasPerm tdoc now allowPermOverride Hother).
    by split.
Qed.

Lemma visibility_witness :
  canShowScoreboard false (contest rule_oi [1%N]) 86400000 true = Ok false
  ∧ canShowScoreboard false (contest rule_oi [1%N]) 86400001 true = Ok true.
Proof.
  pose proof (visibility false (contest rule_oi [1%N]) 86400000 86400001
                true) as H.
  cbv zeta in H. destruct H as (_ & Hb & _ & _ & _ & Hok & _).
  pose proof (visibility false (contest rule_oi [1%N]) 86400001 86400001
                true) as H'.
  cbv zeta in H'. destruct H' as (_ & Hb' & _).
  split.
  - destruct Hok as [_ [b Hbool]]; [by exists rule_oi|].
    rewrite Hbool. destruct b; [|done].
    destruct (proj1 Hb Hbool) as [_ [Hr|[Ht|[_ Ho]]]];
      [done | simpl in Ht; lia | done].
  - apply Hb'. split; [by exists rule_oi|]. right. left. simpl. lia.
Defined.

(** ** When a rendering returns *)

(** X27. A rendering returns exactly when what it looks up is there: a
    user entry for every ranked participant; for an export, a problem
    entry for every contest problem; under the ACM rule, no status record
    whose [detail] is a dictionary, as the OI rule writes it. In every
    other case it throws a type error, and it throws nothing else. *)
Theorem scoreboard_returns (r : rule_id) (lib : Lib) (isExport : bool)
    (tdoc : Tdoc) (rankedTsdocs : list (nat * Tsdoc))
    (udict : gmap N Udoc) (pdict : gmap N Pdoc) :
  let result :=
    RULES_scoreboard r lib isExport tdoc rankedTsdocs udict pdict in
  ((∃ rows, result = Ok rows)
   ↔ found r isExport tdoc rankedTsdocs udict pdict)
  ∧ (¬ found r isExport tdoc rankedTsdocs udict pdict →
     result = Throw TypeError).
Proof.
  intros result.
  assert (((∃ rows, result = Ok rows)
           ∧ found r isExport tdoc rankedTsdocs udict pdict)
          ∨ (result = Throw TypeError
             ∧ ¬ found r isExport tdoc rankedTsdocs udict pdict)) as H.
  { unfold result. rewrite RULES_scoreboard_rule. destruct r.
    - apply acm_scoreboard_outcome.
    - apply oi_scoreboard_outcome.
    - apply homework_scoreboard_outcome. }
  destruct H as [[Hok Hf]|[Hthrow Hnf]].
  - split; [done|]. by intros Hn.
  - split; [|done]. rewrite Hthrow. split; [by intros [? ?] | done].
Qed.

Lemma scoreboard_returns_witness :
  RULES_scoreboard rule_oi sample_lib true (contest rule_oi [1%N])
    (oi.rank [participant 9 None]) sample_users sample_problems
  = Throw TypeError.
Proof.
  pose proof (scoreboard_returns rule_oi sample_lib true
                (contest rule_oi [1%N]) (oi.rank [participant 9 None])
                sample_users sample_problems) as H.
  cbv zeta in H. destruct H as [_ H]. apply H.
  intros (_ & Hu & _).
  destruct (Hu (1%nat, participant 9 None)) as [udoc Hudoc]; [by left|].
  by vm_compute in Hudoc.
Defined.

(** ** The extension period *)

(** X28. [isExtended] against the penalty of the Assignment rule, at the
    instant an entry is created. On a record without [penaltySince] both
    [isExtended] and [penaltyScore] throw a type error. With
    [penaltySince], [isExtended] holds exactly when the entry is not
    before [penaltySince] by [penaltyScore]'s count of seconds and the
    contest is not done. An entry of a contest that is neither extended
    nor done keeps its raw score. An entry of an extended contest is
    scored by the penalty table, and so is an entry made after the end,
    when the contest is done and no longer extended: [penaltyScore] does
    not read the end of the contest. With the table 1: 0.8, 3: 0.5, a
    penalty start one hour in and an end after a day, an entry made 25
    hours in gets half its score. *)
Theorem extension_penalty (tdoc : Tdoc) (j : jdoc) :
  let now := 1000 * generationTime (rid j) in
  (penaltySince tdoc = None →
     isExtended tdoc now = Throw TypeError
     ∧ homework.penaltyScore tdoc j = Throw TypeError)
  ∧ (∀ since, penaltySince tdoc = Some since →
       let late := (now - getTime since) / 1000 in
       (isExtended tdoc now = Ok true ↔ 0 ≤ late ∧ isDone tdoc now = false)
       ∧ (isExtended tdoc now = Ok false
          ↔ late < 0 ∨ isDone tdoc now = true)
       ∧ (isExtended tdoc now = Ok false → isDone tdoc now = false →
            homework.penaltyScore tdoc j = Ok (f_of_Z (score j)))
       ∧ (∀ table, penaltyRules tdoc = Some table →
            isExtended tdoc now = Ok true
            ∨ (isDone tdoc now = true ∧ 0 ≤ late) →
            homework.penaltyScore tdoc j
            = Ok (penalised table late (score j))))
  ∧ (let tdoc := contest rule_homework [1%N] in
     let j := entry (25 * 3600) 1 true 100 in
     isExtended tdoc (1000 * generationTime (rid j)) = Ok false
     ∧ isDone tdoc (1000 * generationTime (rid j)) = true
     ∧ homework.penaltyScore tdoc j = Ok (f_of_Z 50)).
Proof.
  intros now. split; [|split; [|by vm_compute]].
  { intros Hnone.
    unfold isExtended, homework.penaltyScore, homework.exceedSeconds.
    by rewrite Hnone. }
  intros since Hsince late.
  assert (0 ≤ late ↔ getTime since ≤ now) as Hlate.
  { unfold late.
    pose proof (Z.div_mod (now - getTime since) 1000) as Hdm.
    pose proof (Z.mod_pos_bound (now - getTime since) 1000).
    lia. }
  assert (isExtended tdoc now
          = Ok (bool_decide (0 ≤ late) && negb (isDone tdoc now))) as Hext.
  { unfold isExtended, isDone, getTime in *. rewrite Hsince. f_equal.
    repeat case_bool_decide; simpl; try done; lia. }
  rewrite Hext. split_and!.
  - split.
    + intros [= [H1 H2]%andb_true_iff]. apply bool_decide_eq_true in H1.
      by apply negb_true_iff in H2.
    + intros [H1 H2]. by rewrite bool_decide_eq_true_2, H2.
  - split.
    + intros [= [H1|H2]%andb_false_iff].
      * apply bool_decide_eq_false in H1. left. lia.
      * right. by apply negb_false_iff in H2.
    + intros [H1|H2]; f_equal.
      * by rewrite bool_decide_eq_false_2 by lia.
      * rewrite H2. by rewrite andb_false_r.
  - intros [= H] Hdone. rewrite Hdone, andb_true_r in H.
    apply bool_decide_eq_false in H.
    unfold homework.penaltyScore, homework.exceedSeconds.
    rewrite Hsince. cbn [mbind result_bind]. fold now. fold late.
    by destruct (Z.ltb_spec late 0); [|lia].
  - intros table Htable Hcase.
    assert (0 ≤ late) as Hpos.
    { destruct Hcase as [[= H]|[_ H]]; [|done].
      apply andb_true_iff in H as [H _]. by apply bool_decide_eq_true in H. }
    rewrite (penaltyScore_late tdoc j since table Hsince Htable).
    fold now. fold late. by destruct (Z.ltb_spec late 0); [lia|].
Qed.

Lemma extension_penalty_witness :
  homework.penaltyScore (contest rule_homework [1%N]) (entry 10800 1 true 100)
  = Ok (penalised sample_rules 7200 100).
Proof.
  pose proof (extension_penalty (contest rule_homework [1%N])
                (entry 10800 1 true 100)) as H.
  cbv zeta in H. destruct H as (_ & H & _).
  destruct (H 3600000 eq_refl) as (_ & _ & _ & H').
  apply (H' sample_rules eq_refl). by left.
Defined.
